(** * frodo-lib: policy and OAuth2 client export/import

    A shallow embedding of [src/ops/PolicyOps.ts] and
    [src/ops/OAuth2ClientOps.ts].  The asynchronous functions of the source
    run one remote call at a time, so they are embedded as sequential
    computations over a log of remote calls and one mutable object (the
    bundle, or the client object handed to [updateOAuth2Client]).

    Everything the two files import from other modules (the REST layer,
    ScriptOps, PolicySetOps, ResourceTypeOps, OAuth2ProviderOps, the text
    utilities) is a field of [State]: an arbitrary deterministic
    collaborator whose answer may depend on the calls made before, and
    which leaves the objects handed to it as they are.
    Console output (debugMessage, printMessage, progress indicators) has no
    effect on results and is left out. *)

From Stdlib Require Import String Ascii List ZArith Bool Lia DecimalString Permutation.
Import ListNotations.
Set Warnings "-register-all".
Open Scope string_scope.
Open Scope list_scope.

(** ** JavaScript values *)

(** A JSON-like value.  [JArr] keeps holes ([None]) because [delete a[i]]
    leaves one; [JNum] carries a number as the text that ToString gives for
    it: the code prints numbers and tests them for truth, nothing else. *)
Inductive JsVal : Type :=
| JUndefined
| JNull
| JBool (b : bool)
| JNum (text : string)
| JStr (s : string)
| JArr (items : list (option JsVal))
| JObj (fields : list (string * JsVal)).

Definition JsObj : Type := list (string * JsVal).

(** ToString / ToPropertyKey, as used by template literals and by
    [record[value]]. *)
Fixpoint toPropertyKey (v : JsVal) : string :=
  match v with
  | JUndefined => "undefined"
  | JNull => "null"
  | JBool true => "true"
  | JBool false => "false"
  | JNum text => text
  | JStr s => s
  | JArr items =>
      String.concat ","
        (map (fun o => match o with
                       | None | Some JUndefined | Some JNull => ""
                       | Some x => toPropertyKey x
                       end) items)
  | JObj _ => "[object Object]"
  end.

(** Truthiness of a value in a condition. *)
Definition truthy (v : JsVal) : bool :=
  match v with
  | JUndefined | JNull => false
  | JBool b => b
  | JNum text => negb ((text =? "0") || (text =? "NaN"))
  | JStr s => negb (s =? "")
  | JArr _ | JObj _ => true
  end.

(** [a === b] where [b] is a string literal. *)
Definition strictEqStr (v : JsVal) (lit : string) : bool :=
  match v with
  | JStr s => s =? lit
  | _ => false
  end.

Definition indexKey (i : nat) : string := NilEmpty.string_of_uint (Nat.to_uint i).

Fixpoint arrayEntries (i : nat) (items : list (option JsVal)) : JsObj :=
  match items with
  | [] => []
  | None :: rest => arrayEntries (S i) rest
  | Some v :: rest => (indexKey i, v) :: arrayEntries (S i) rest
  end.

Fixpoint stringEntries (i : nat) (s : string) : JsObj :=
  match s with
  | EmptyString => []
  | String c rest => (indexKey i, JStr (String c EmptyString)) :: stringEntries (S i) rest
  end.

(** The own enumerable properties that [Object.keys(v)] and [v[key]] walk
    through, for a truthy [v]. *)
Definition objectEntries (v : JsVal) : JsObj :=
  match v with
  | JObj fields => fields
  | JArr items => arrayEntries 0 items
  | JStr s => stringEntries 0 s
  | _ => []
  end.

(** [s.endsWith(suffix)] *)
Definition endsWith (s suffix : string) : bool :=
  (String.length suffix <=? String.length s)%nat &&
  (substring (String.length s - String.length suffix) (String.length suffix) s =? suffix).

(** ** Records used as maps: [Record<string, V>]

    A plain object: its own properties as an association list in
    [Object.keys] order (the array indices first, ascending, then the other
    keys as they were added; a key occurs once), on top of
    [Object.prototype]. *)

Definition digitOf (c : ascii) : option N :=
  let n := N_of_ascii c in
  if ((48 <=? n) && (n <=? 57))%N then Some (n - 48)%N else None.

Fixpoint digitsValue (acc : N) (s : string) : option N :=
  match s with
  | EmptyString => Some acc
  | String c rest =>
      match digitOf c with
      | Some d => digitsValue (10 * acc + d)%N rest
      | None => None
      end
  end.

(** The array index that a key spells: the decimal text, without sign or
    leading zero, of an integer below 2^32 - 1. *)
Definition arrayIndex (k : string) : option N :=
  match k with
  | EmptyString => None
  | String "0" EmptyString => Some 0%N
  | String "0" _ => None
  | _ =>
      if (String.length k <=? 10)%nat
      then match digitsValue 0 k with
           | Some n => if (n <? 4294967295)%N then Some n else None
           | None => None
           end
      else None
  end.

(** The names that every plain object inherits from [Object.prototype]. *)
Definition objectPrototypeKeys : list string :=
  ["constructor"; "__defineGetter__"; "__defineSetter__"; "hasOwnProperty";
   "__lookupGetter__"; "__lookupSetter__"; "isPrototypeOf"; "propertyIsEnumerable";
   "toString"; "valueOf"; "__proto__"; "toLocaleString"].

Definition inherited (k : string) : bool := existsb (String.eqb k) objectPrototypeKeys.

(** What [o[k]] finds: an own property, the member of [Object.prototype]
    of that name (a built-in function, or the prototype itself for
    [__proto__]: truthy in any case), or nothing ([undefined]). *)
Inductive Found (V : Type) : Type :=
| Own (v : V)
| Inherited
| Absent.
Arguments Own {V} v.
Arguments Inherited {V}.
Arguments Absent {V}.

Section Records.
Context {V : Type}.

(** The own property [k]. *)
Fixpoint getProp (k : string) (o : list (string * V)) : option V :=
  match o with
  | [] => None
  | (k', v) :: rest => if k' =? k then Some v else getProp k rest
  end.

(** [o[k]] *)
Definition lookup (k : string) (o : list (string * V)) : Found V :=
  match getProp k o with
  | Some v => Own v
  | None => if inherited k then Inherited else Absent
  end.

Fixpoint replaceProp (k : string) (v : V) (o : list (string * V)) : list (string * V) :=
  match o with
  | [] => []
  | (k', v') :: rest => if k' =? k then (k, v) :: rest else (k', v') :: replaceProp k v rest
  end.

(** A new array index goes before the first key that is no index or a
    greater one. *)
Fixpoint insertIndex (n : N) (k : string) (v : V) (o : list (string * V))
  : list (string * V) :=
  match o with
  | [] => [(k, v)]
  | (k', v') :: rest =>
      match arrayIndex k' with
      | Some m => if (m <? n)%N then (k', v') :: insertIndex n k v rest else (k, v) :: o
      | None => (k, v) :: o
      end
  end.

(** [o[k] = v]: an own property is replaced in place.  Otherwise the key
    [__proto__] reaches the setter of [Object.prototype], which adds no own
    property (it changes the prototype of [o]; the functions below never
    read a collection that they may have assigned to under that key: the
    one collection they both read and assign, the scripts of a client
    export, is assigned only under keys that the read before did not find,
    and [__proto__] is always found); a new array index goes to its place
    among the indices, any other new key to the end. *)
Definition setProp (k : string) (v : V) (o : list (string * V)) : list (string * V) :=
  match getProp k o with
  | Some _ => replaceProp k v o
  | None =>
      if k =? "__proto__" then o
      else match arrayIndex k with
           | Some n => insertIndex n k v o
           | None => o ++ [(k, v)]
           end
  end.

(** [delete o[k]] *)
Definition deleteProp (k : string) (o : list (string * V)) : list (string * V) :=
  filter (fun kv => negb (fst kv =? k)) o.

Definition objectKeys (o : list (string * V)) : list string := map fst o.

End Records.

(** [[...new Set(xs)]]: the first occurrence of each element, in order. *)
Section SetOf.
Context {A : Type} (eqb : A -> A -> bool).

Definition setAdd (acc : list A) (x : A) : list A :=
  if existsb (eqb x) acc then acc else acc ++ [x].

Definition setOf (xs : list A) : list A := fold_left setAdd xs [].

End SetOf.

Definition optStringEqb (a b : option string) : bool :=
  match a, b with
  | Some x, Some y => x =? y
  | None, None => true
  | _, _ => false
  end.

(** ** API types (api/PoliciesApi, api/ScriptApi, api/OAuth2ClientApi) *)

(** A policy condition node.  Only the four properties the code reads are
    kept; an absent property is [None]. *)
Inductive PolicyCondition : Type := mkCondition {
  type : option string;
  scriptId : option string;
  condition : option PolicyCondition;
  conditions : option (list PolicyCondition)
}.

Record PolicySkeleton : Type := mkPolicy {
  policy_id : string;                        (* _id *)
  policy_rev : option string;                (* _rev *)
  policy_name : string;                      (* name *)
  applicationName : string;
  resourceTypeUuid : string;
  policy_condition : option PolicyCondition; (* condition *)
  policy_rest : JsObj
}.

Record ScriptSkeleton : Type := mkScript {
  script_id : string;    (* _id *)
  script_text : JsVal;   (* script: base64 text or an array of lines *)
  script_rest : JsObj
}.

Definition ResourceTypeSkeleton : Type := JsObj.
Definition PolicySetSkeleton : Type := JsObj.
Definition ExportMetaData : Type := JsObj.

(** An OAuth2 client: [_id] and, in [Object.keys] order, every other own
    property ([_rev], [_provider], [_type], [overrideOAuth2ClientConfig],
    [coreOAuth2ClientConfig], ...). *)
Record OAuth2ClientSkeleton : Type := mkClient {
  client_id : string;
  client_attrs : JsObj
}.

(** ** Errors *)

(** [error.response] of a REST error. *)
Record HttpResponse : Type := mkResponse {
  status : Z;
  data_message : option string;                   (* response.data?.message *)
  data_detail_validAttributes : option (list string) (* response.data.detail.validAttributes *)
}.

(** What the code can observe of an error raised by a collaborator. *)
Record Rejection : Type := mkRejection {
  rej_message : string;
  rej_response : option HttpResponse;  (* error.response *)
  rej_httpStatus : option Z;           (* error.httpStatus *)
  rej_httpMessage : option string      (* error.httpMessage *)
}.

Inductive Error : Type :=
| Thrown (r : Rejection)
| TypeError (message : string)
| JsError (message : string)                                (* new Error(message) *)
| FrodoError (message : string) (originalErrors : list Error). (* new FrodoError(message, cause or causes) *)

Definition response (e : Error) : option HttpResponse :=
  match e with
  | Thrown r => rej_response r
  | _ => None
  end.

(** ** Remote calls

    The data of a write that the code takes out of the bundle with
    [record[key]] is logged as what the read found (see [Found]). *)

Inductive Call : Type :=
| GetPolicy (policyId : string)
| PutPolicy (policyId : string) (policyData : PolicySkeleton)
| GetPolicies
| GetPoliciesByPolicySet (policySetId : string)
| GetResourceType (resourceTypeUuid : string)
| ReadPolicySet (policySetName : string)
| UpdatePolicySet (policySetData : Found PolicySetSkeleton)
| UpdateResourceType (resourceTypeUuid : string) (resourceTypeData : Found ResourceTypeSkeleton)
| ReadScript (scriptId : JsVal)
| UpdateScript (scriptId : JsVal) (scriptData : Found ScriptSkeleton)
| GetOAuth2Client (id : string)
| GetOAuth2Clients
| PutOAuth2Client (id : string) (clientData : OAuth2ClientSkeleton)
| ReadOAuth2Provider.

(** One entry of the log: the call and its failure, if it failed. *)
Record Event : Type := mkEvent {
  call : Call;
  failure : option Error
}.

(** The log: the events so far, oldest first. *)
Abbreviation Trace := (list Event).

(** The collaborators.  Each answers from the log of the calls made so far. *)
Record State : Type := mkState {
  getCurrentRealmName : string;
  getMetadata : ExportMetaData;
  convertBase64TextToArray : JsVal -> JsVal;
  frodoErrorHttp : list Error -> option Z * option string;
  _getPolicy : Trace -> string -> Rejection + PolicySkeleton;
  _putPolicy : Trace -> string -> PolicySkeleton -> Rejection + PolicySkeleton;
  _getPolicies : Trace -> Rejection + list PolicySkeleton;
  _getPoliciesByPolicySet : Trace -> string -> Rejection + list PolicySkeleton;
  getResourceType : Trace -> string -> Rejection + ResourceTypeSkeleton;
  readPolicySet : Trace -> string -> Rejection + PolicySetSkeleton;
  updatePolicySet : Trace -> Found PolicySetSkeleton -> Rejection + PolicySetSkeleton;
  updateResourceType : Trace -> string -> Found ResourceTypeSkeleton
                       -> Rejection + ResourceTypeSkeleton;
  readScript : Trace -> JsVal -> Rejection + ScriptSkeleton;
  updateScript : Trace -> JsVal -> Found ScriptSkeleton -> Rejection + ScriptSkeleton;
  _getOAuth2Client : Trace -> string -> Rejection + OAuth2ClientSkeleton;
  _getOAuth2Clients : Trace -> Rejection + list OAuth2ClientSkeleton;
  _putOAuth2Client : Trace -> string -> OAuth2ClientSkeleton -> Rejection + OAuth2ClientSkeleton;
  readOAuth2Provider : Trace -> Rejection + JsVal
}.

(** [error.httpStatus] and [error.httpMessage].  For a [FrodoError] built
    here they are whatever the class (ops/FrodoError) derives from the
    causes. *)
Definition httpStatus (state : State) (e : Error) : option Z :=
  match e with
  | Thrown r => rej_httpStatus r
  | FrodoError _ causes => fst (frodoErrorHttp state causes)
  | _ => None
  end.

Definition httpMessage (state : State) (e : Error) : option string :=
  match e with
  | Thrown r => rej_httpMessage r
  | FrodoError _ causes => snd (frodoErrorHttp state causes)
  | _ => None
  end.

(** [getCurrentRealmName(state) + ' realm'] *)
Definition realm (state : State) : string := getCurrentRealmName state ++ " realm".

(** ** Computations: a log, one mutable object, and exceptions *)

Definition M (S A : Type) : Type := Trace * S -> (Trace * S) * (Error + A).

Section Monad.
Context {S : Type}.

Definition ret {A} (a : A) : M S A := fun w => (w, inr a).

Definition throw {A} (e : Error) : M S A := fun w => (w, inl e).

Definition bind {A B} (m : M S A) (k : A -> M S B) : M S B :=
  fun w => match m w with
           | (w', inr a) => k a w'
           | (w', inl e) => (w', inl e)
           end.

(** [try { m } catch (error) { h error }]: what [m] did before it threw stays done. *)
Definition tryCatch {A} (m : M S A) (h : Error -> M S A) : M S A :=
  fun w => match m w with
           | (w', inr a) => (w', inr a)
           | (w', inl e) => h e w'
           end.

Definition get : M S S := fun w => (w, inr (snd w)).

Definition modify (f : S -> S) : M S unit := fun w => ((fst w, f (snd w)), inr tt).

(** An awaited call of a collaborator, logged with its outcome. *)
Definition remote {A} (c : Call) (answer : Trace -> Rejection + A) : M S A :=
  fun w => match answer (fst w) with
           | inr a => ((fst w ++ [mkEvent c None], snd w), inr a)
           | inl r => ((fst w ++ [mkEvent c (Some (Thrown r))], snd w), inl (Thrown r))
           end.

End Monad.

Declare Scope js_scope.
Delimit Scope js_scope with js.
Notation "x <- m ;; k" := (bind m (fun x => k))
  (at level 61, m at next level, right associativity) : js_scope.
Notation "m ;; k" := (bind m (fun _ => k))
  (at level 61, right associativity) : js_scope.
Open Scope js_scope.

(** [try { await m } catch (error) { errors.push(wrap error) }]: the errors to push. *)
Definition attempt {S A} (m : M S A) (wrap : Error -> Error) : M S (list Error) :=
  tryCatch (m ;; ret []) (fun error => ret [wrap error]).

(** [for (const x of xs) body], threading the local variables [acc]. *)
Fixpoint forOf {S X Acc} (xs : list X) (body : Acc -> X -> M S Acc) (acc : Acc) : M S Acc :=
  match xs with
  | [] => ret acc
  | x :: rest => acc' <- body acc x ;; forOf rest body acc'
  end.

(** Runs [m] on an object created here and dropped on return. *)
Definition withLocal {S L A} (init : L) (m : M L A) : M S A :=
  fun w => match m (fst w, init) with
           | ((t, _), r) => ((t, snd w), r)
           end.

(** Runs [m] on a part of the mutable object (a reference into it). *)
Definition zoom {S P A} (proj : S -> P) (inj : P -> S -> S) (m : M P A) : M S A :=
  fun w => match m (fst w, proj (snd w)) with
           | ((t, p), r) => ((t, inj p (snd w)), r)
           end.

(** Adds a local variable (an [errors] array that a catch clause reads) to
    the mutable state for the duration of [m]. *)
Definition withVar {S L A} (init : L) (m : M (S * L) A) : M S A :=
  fun w => match m (fst w, (snd w, init)) with
           | ((t, (s, _)), r) => ((t, s), r)
           end.

(** A computation on the object, run where a local variable is in scope. *)
Definition outer {S L A} (m : M S A) : M (S * L) A :=
  zoom fst (fun s p => (s, snd p)) m.

Definition getVar {S L} : M (S * L) L := fun w => (w, inr (snd (snd w))).

(** [errors.push(e)] *)
Definition pushError {S} (e : Error) : M (S * list Error) unit :=
  modify (fun p => (fst p, snd p ++ [e])).

(** [try { await m } catch (error) { errors.push(wrap error) }] on the local [errors]. *)
Definition tryPush {S A} (m : M S A) (wrap : Error -> Error) : M (S * list Error) unit :=
  tryCatch (outer m ;; ret tt) (fun error => pushError (wrap error)).

Definition nonEmpty {A} (l : list A) : bool :=
  match l with
  | [] => false
  | _ :: _ => true
  end.

(** The value of a [string | undefined] script id. *)
Definition idVal (id : option string) : JsVal :=
  match id with
  | Some s => JStr s
  | None => JUndefined
  end.

(** ** src/ops/PolicyOps.ts *)

Module PolicyOps.

Record PolicyExportInterface : Type := mkExport {
  meta : option ExportMetaData;
  script : list (string * ScriptSkeleton);
  resourcetype : list (string * ResourceTypeSkeleton);
  policy : list (string * PolicySkeleton);
  policyset : list (string * PolicySetSkeleton)
}.

Record PolicyExportOptions : Type := mkExportOptions {
  deps : bool;
  prereqs : bool;
  useStringArrays : bool
}.

Record PolicyImportOptions : Type := mkImportOptions {
  import_deps : bool;              (* deps *)
  import_prereqs : bool;           (* prereqs *)
  policySetName : option string
}.

Definition setScript (k : string) (v : ScriptSkeleton) (e : PolicyExportInterface) :=
  mkExport (meta e) (setProp k v (script e)) (resourcetype e) (policy e) (policyset e).

Definition setResourceType (k : string) (v : ResourceTypeSkeleton) (e : PolicyExportInterface) :=
  mkExport (meta e) (script e) (setProp k v (resourcetype e)) (policy e) (policyset e).

Definition setPolicy (k : string) (v : PolicySkeleton) (e : PolicyExportInterface) :=
  mkExport (meta e) (script e) (resourcetype e) (setProp k v (policy e)) (policyset e).

Definition setPolicySet (k : string) (v : PolicySetSkeleton) (e : PolicyExportInterface) :=
  mkExport (meta e) (script e) (resourcetype e) (policy e) (setProp k v (policyset e)).

Definition createPolicyExportTemplate (state : State) : PolicyExportInterface :=
  {| meta := Some (getMetadata state);
     script := [];
     policy := [];
     resourcetype := [];
     policyset := [] |}.

Definition readPolicies {S} (state : State) : M S (list PolicySkeleton) :=
  tryCatch
    (remote GetPolicies (_getPolicies state))
    (fun error => throw (FrodoError ("Error reading " ++ realm state ++ " policies") [error])).

Definition readPolicy {S} (state : State) (policyId : string) : M S PolicySkeleton :=
  tryCatch
    (remote (GetPolicy policyId) (fun t => _getPolicy state t policyId))
    (fun error =>
       throw (FrodoError ("Error reading " ++ realm state ++ " policy " ++ policyId) [error])).

Definition readPoliciesByPolicySet {S} (state : State) (policySetId : string)
  : M S (list PolicySkeleton) :=
  tryCatch
    (remote (GetPoliciesByPolicySet policySetId)
       (fun t => _getPoliciesByPolicySet state t policySetId))
    (fun error =>
       throw (FrodoError
                ("Error reading " ++ realm state ++ " policies in set " ++ policySetId)
                [error])).

Definition createPolicy {S} (state : State) (policyId : string) (policyData : PolicySkeleton)
  : M S PolicySkeleton :=
  fun w =>
    match remote (GetPolicy policyId) (fun t => _getPolicy state t policyId) w with
    | (w', inl _) =>
        tryCatch
          (remote (PutPolicy policyId policyData)
             (fun t => _putPolicy state t policyId policyData))
          (fun error =>
             throw (FrodoError
                      ("Error creating " ++ realm state ++ " policy " ++ policyId)
                      [error]))
          w'
    | (w', inr _) => throw (JsError ("Policy " ++ policyId ++ " already exists!")) w'
    end.

Definition updatePolicy {S} (state : State) (policyId : string) (policyData : PolicySkeleton)
  : M S PolicySkeleton :=
  tryCatch
    (remote (PutPolicy policyId policyData)
       (fun t => _putPolicy state t policyId policyData))
    (fun error =>
       throw (FrodoError ("Error updating " ++ realm state ++ " policy " ++ policyId) [error])).

(** [findScriptUuids] on a node ([condition] is not null or undefined). *)
Fixpoint findScriptUuidsOf (c : PolicyCondition) : list (option string) :=
  setOf optStringEqb
    (match type c with
     | Some t =>
         if (t =? "AND") || (t =? "OR") || (t =? "NOT") then
           (match condition c with
            | Some single => findScriptUuidsOf single
            | None => []
            end)
           ++
           (match conditions c with
            | Some conds => flat_map findScriptUuidsOf conds
            | None => []
            end)
         else if t =? "Script" then [scriptId c]
         else []
     | None => []
     end).

Definition findScriptUuids (condition : option PolicyCondition) : list (option string) :=
  match condition with
  | None => []
  | Some c => findScriptUuidsOf c
  end.

Definition getScripts {S} (state : State) (policyData : PolicySkeleton)
  : M S (list ScriptSkeleton) :=
  let scriptUuids := findScriptUuids (policy_condition policyData) in
  acc <- forOf scriptUuids
           (fun (acc : list ScriptSkeleton * list Error) scriptUuid =>
              tryCatch
                (script <- remote (ReadScript (idVal scriptUuid))
                             (fun t => readScript state t (idVal scriptUuid)) ;;
                 ret (fst acc ++ [script], snd acc))
                (fun error =>
                   ret (fst acc,
                        snd acc ++
                        [FrodoError
                           ("Error retrieving " ++ realm state ++ " script "
                            ++ toPropertyKey (idVal scriptUuid)
                            ++ " referenced in policy " ++ policy_name policyData)
                           [error]])))
           ([], []) ;;
  if nonEmpty (snd acc)
  then throw (FrodoError ("Error getting " ++ realm state ++ " policy scripts") (snd acc))
  else ret (fst acc).

Definition exportPolicyPrerequisites (state : State) (policyData : PolicySkeleton)
  : M PolicyExportInterface unit :=
  e1 <- (if negb (resourceTypeUuid policyData =? "")
         then attempt
                (resourceType <- remote (GetResourceType (resourceTypeUuid policyData))
                                   (fun t => getResourceType state t (resourceTypeUuid policyData)) ;;
                 modify (setResourceType (resourceTypeUuid policyData) resourceType))
                (fun error => error)
         else ret []) ;;
  e2 <- (if negb (applicationName policyData =? "")
         then attempt
                (policySet <- remote (ReadPolicySet (applicationName policyData))
                                (fun t => readPolicySet state t (applicationName policyData)) ;;
                 modify (setPolicySet (applicationName policyData) policySet))
                (fun error => error)
         else ret []) ;;
  if nonEmpty (e1 ++ e2)
  then throw (FrodoError ("Error exporting " ++ realm state ++ " policy prerequisites") (e1 ++ e2))
  else ret tt.

Definition exportPolicyDependencies (state : State) (policyData : PolicySkeleton)
  (options : PolicyExportOptions) : M PolicyExportInterface unit :=
  tryCatch
    (scripts <- getScripts state policyData ;;
     forOf scripts
       (fun _ scriptData =>
          let scriptData' :=
            if useStringArrays options
            then mkScript (script_id scriptData)
                   (convertBase64TextToArray state (script_text scriptData))
                   (script_rest scriptData)
            else scriptData in
          modify (setScript (script_id scriptData') scriptData'))
       tt)
    (fun error =>
       throw (FrodoError ("Error exporting " ++ realm state ++ " policy dependencies") [error])).

(** The body of the [for] loop of [exportPolicies] and
    [exportPoliciesByPolicySet], on the export data and the local [errors]. *)
Definition exportPolicyItem (state : State) (options : PolicyExportOptions)
  (policyData : PolicySkeleton) : M (PolicyExportInterface * list Error) unit :=
  outer (modify (setPolicy (policy_id policyData) policyData)) ;;
  (if prereqs options
   then tryPush (exportPolicyPrerequisites state policyData) (fun error => error)
   else ret tt) ;;
  (if deps options
   then tryPush (exportPolicyDependencies state policyData options) (fun error => error)
   else ret tt).

Definition exportPolicy {S} (state : State) (policyId : string) (options : PolicyExportOptions)
  : M S PolicyExportInterface :=
  withLocal (createPolicyExportTemplate state)
    (tryCatch
       (policyData <- remote (GetPolicy policyId) (fun t => _getPolicy state t policyId) ;;
        modify (setPolicy (policy_id policyData) policyData) ;;
        e1 <- (if prereqs options
               then attempt (exportPolicyPrerequisites state policyData) (fun error => error)
               else ret []) ;;
        e2 <- (if deps options
               then attempt (exportPolicyDependencies state policyData options)
                      (fun error => error)
               else ret []) ;;
        if nonEmpty (e1 ++ e2)
        then throw (FrodoError
                      ("Error exporting " ++ realm state ++ " policy " ++ policyId)
                      (e1 ++ e2))
        else get)
       (fun error =>
          throw (FrodoError
                   ("Error exporting " ++ realm state ++ " policy " ++ policyId)
                   [error]))).

(** The [try ... catch] of a batch export on the export data and [errors]:
    the catch clause re-throws when [errors] is not empty. *)
Definition exportBatch (state : State) (options : PolicyExportOptions)
  (read : M (PolicyExportInterface * list Error) (list PolicySkeleton)) (message : string)
  : M (PolicyExportInterface * list Error) PolicyExportInterface :=
  tryCatch
    (policies <- read ;;
     forOf policies (fun _ policyData => exportPolicyItem state options policyData) tt ;;
     errors <- getVar ;;
     if nonEmpty errors
     then throw (FrodoError message errors)
     else outer get)
    (fun error =>
       errors <- getVar ;;
       if nonEmpty errors
       then throw error
       else throw (FrodoError message [error])).

Definition exportPolicies {S} (state : State) (options : PolicyExportOptions)
  : M S PolicyExportInterface :=
  withLocal (createPolicyExportTemplate state)
    (withVar []
       (exportBatch state options (readPolicies state)
          ("Error exporting " ++ realm state ++ " policies"))).

Definition exportPoliciesByPolicySet {S} (state : State) (policySetName : string)
  (options : PolicyExportOptions) : M S PolicyExportInterface :=
  withLocal (createPolicyExportTemplate state)
    (withVar []
       (exportBatch state options (readPoliciesByPolicySet state policySetName)
          ("Error exporting " ++ realm state ++ " policies in set " ++ policySetName))).

Definition importPolicyPrerequisites (state : State) (policyData : PolicySkeleton)
  : M PolicyExportInterface unit :=
  withVar []
    (tryCatch
       (exportData <- outer get ;;
        (match lookup (resourceTypeUuid policyData) (resourcetype exportData) with
         | Absent => ret tt
         | resourceTypeData =>
             tryPush
               (remote (UpdateResourceType (resourceTypeUuid policyData) resourceTypeData)
                  (fun t => updateResourceType state t
                              (resourceTypeUuid policyData) resourceTypeData))
               (fun error =>
                  FrodoError
                    ("Error importing " ++ realm state ++ " prerequisite resource type "
                     ++ resourceTypeUuid policyData)
                    [error])
         end) ;;
        (match lookup (applicationName policyData) (policyset exportData) with
         | Absent => ret tt
         | policySetData =>
             tryPush
               (remote (UpdatePolicySet policySetData)
                  (fun t => updatePolicySet state t policySetData))
               (fun error =>
                  FrodoError
                    ("Error importing " ++ realm state ++ " prerequisite policy set "
                     ++ applicationName policyData)
                    [error])
         end) ;;
        errors <- getVar ;;
        if nonEmpty errors
        then throw (FrodoError
                      ("Error importing " ++ realm state ++ " prerequisites for policy "
                       ++ policy_id policyData)
                      errors)
        else ret tt)
       (fun error =>
          errors <- getVar ;;
          if nonEmpty errors
          then throw error
          else throw (FrodoError
                        ("Error importing " ++ realm state ++ " prerequisites for policy "
                         ++ policy_id policyData)
                        [error]))).

Definition importPolicyDependencies (state : State) (policyData : PolicySkeleton)
  : M PolicyExportInterface unit :=
  withVar []
    (tryCatch
       (exportData <- outer get ;;
        forOf (findScriptUuids (policy_condition policyData))
          (fun _ scriptUuid =>
             tryPush
               (let scriptData :=
                  lookup (toPropertyKey (idVal scriptUuid)) (script exportData) in
                remote (UpdateScript (idVal scriptUuid) scriptData)
                  (fun t => updateScript state t (idVal scriptUuid) scriptData))
               (fun error =>
                  FrodoError
                    ("Error importing " ++ realm state ++ " script "
                     ++ toPropertyKey (idVal scriptUuid)
                     ++ " for policy " ++ policy_id policyData)
                    [error]))
          tt ;;
        errors <- getVar ;;
        if nonEmpty errors
        then throw (FrodoError
                      ("Error importing " ++ realm state ++ " soft dependencies for policy "
                       ++ policy_id policyData)
                      errors)
        else ret tt)
       (fun error =>
          errors <- getVar ;;
          if nonEmpty errors
          then throw error
          else throw (FrodoError
                        ("Error importing " ++ realm state ++ " soft dependencies for policy "
                         ++ policy_id policyData)
                        [error]))).

(** [delete policyData._rev] and the [applicationName] override, on the
    bundle's own object. *)
Definition stripPolicy (options : PolicyImportOptions) (p : PolicySkeleton) : PolicySkeleton :=
  mkPolicy (policy_id p) None (policy_name p)
    (match policySetName options with
     | Some name => if name =? "" then applicationName p else name
     | None => applicationName p
     end)
    (resourceTypeUuid p) (policy_condition p) (policy_rest p).

(** The [try] block that [importPolicy], [importFirstPolicy] and
    [importPolicies] run on the entry [id]: the answer of [updatePolicy] if
    it succeeded, and the errors pushed.  [id] comes from
    [Object.keys(importData.policy)], so that [importData.policy[id]] is an
    own property. *)
Definition importPolicyEntry (state : State) (options : PolicyImportOptions) (id : string)
  : M PolicyExportInterface (option PolicySkeleton * list Error) :=
  tryCatch
    (importData <- get ;;
     match getProp id (policy importData) with
     | None => throw (TypeError "Cannot convert undefined or null to object")
     | Some entry =>
         let policyData := stripPolicy options entry in
         modify (setPolicy id policyData) ;;
         e1 <- (if import_prereqs options
                then attempt (importPolicyPrerequisites state policyData) (fun error => error)
                else ret []) ;;
         r <- tryCatch
                (response <- updatePolicy state (policy_id policyData) policyData ;;
                 ret (Some response, []))
                (fun error => ret (None, [error])) ;;
         e3 <- (if import_deps options
                then attempt (importPolicyDependencies state policyData) (fun error => error)
                else ret []) ;;
         ret (fst r, e1 ++ snd r ++ e3)
     end)
    (fun error => ret (None, [error])).

(** The local variables [response], [errors] and [imported] of
    [importPolicy] and [importFirstPolicy] after the entry [id]. *)
Definition importStep (state : State) (options : PolicyImportOptions)
  (acc : option PolicySkeleton * list Error * list string) (id : string)
  : M PolicyExportInterface (option PolicySkeleton * list Error * list string) :=
  r <- importPolicyEntry state options id ;;
  match acc with
  | (response, errors, imported) =>
      match fst r with
      | Some p => ret (Some p, errors ++ snd r, imported ++ [id])
      | None => ret (response, errors ++ snd r, imported)
      end
  end.

Definition importPolicy (state : State) (policyId : string) (options : PolicyImportOptions)
  : M PolicyExportInterface (option PolicySkeleton) :=
  importData <- get ;;
  acc <- forOf (objectKeys (policy importData))
           (fun acc id =>
              if id =? policyId then importStep state options acc id else ret acc)
           (None, [], []) ;;
  match acc with
  | (response, errors, imported) =>
      if nonEmpty errors
      then throw (FrodoError
                    ("Error importing " ++ realm state ++ " policy " ++ policyId)
                    errors)
      else if (0 =? List.length imported)%nat
      then throw (FrodoError ("Policy " ++ policyId ++ " not found in import data") [])
      else ret response
  end.

Definition importFirstPolicy (state : State) (options : PolicyImportOptions)
  : M PolicyExportInterface (option PolicySkeleton) :=
  importData <- get ;;
  acc <- (match objectKeys (policy importData) with
          | id :: _ => importStep state options (None, [], []) id
          | [] => ret (None, [], [])
          end) ;;
  match acc with
  | (response, errors, imported) =>
      if nonEmpty errors
      then throw (FrodoError ("Error importing first " ++ realm state ++ " policy") errors)
      else if (0 =? List.length imported)%nat
      then throw (FrodoError "No policy found in import data" [])
      else ret response
  end.

Definition importPolicies (state : State) (options : PolicyImportOptions)
  : M PolicyExportInterface (list PolicySkeleton) :=
  importData <- get ;;
  acc <- forOf (objectKeys (policy importData))
           (fun (acc : list PolicySkeleton * list Error) id =>
              r <- importPolicyEntry state options id ;;
              ret (match fst r with
                   | Some p => fst acc ++ [p]
                   | None => fst acc
                   end,
                   snd acc ++ snd r))
           ([], []) ;;
  if nonEmpty (snd acc)
  then throw (FrodoError ("Error importing " ++ realm state ++ " policies") (snd acc))
  else ret (fst acc).

End PolicyOps.

(** ** src/ops/OAuth2ClientOps.ts *)

Module OAuth2ClientOps.

Record OAuth2ClientExportOptions : Type := mkExportOptions {
  useStringArrays : bool;
  deps : bool
}.

Record OAuth2ClientImportOptions : Type := mkImportOptions {
  import_deps : bool   (* deps *)
}.

Record OAuth2ClientExportInterface : Type := mkExport {
  meta : option ExportMetaData;
  script : option (list (string * ScriptSkeleton));
  application : list (string * OAuth2ClientSkeleton)
}.

Definition setScript (k : string) (v : ScriptSkeleton) (e : OAuth2ClientExportInterface) :=
  mkExport (meta e)
    (match script e with
     | Some scripts => Some (setProp k v scripts)
     | None => None
     end)
    (application e).

Definition setApplication (k : string) (v : OAuth2ClientSkeleton)
  (e : OAuth2ClientExportInterface) :=
  mkExport (meta e) (script e) (setProp k v (application e)).

Definition createOAuth2ClientExportTemplate (state : State) : OAuth2ClientExportInterface :=
  {| meta := Some (getMetadata state);
     script := Some [];
     application := [] |}.

Definition notAvailable : string :=
  "This operation is not available in PingOne Advanced Identity Cloud.".

(** [error.response?.status === code && error.response?.data?.message === text] *)
Definition responseIs (code : Z) (text : string) (error : Error) : bool :=
  match response error with
  | Some r =>
      (status r =? code)%Z &&
      match data_message r with
      | Some m => m =? text
      | None => false
      end
  | None => false
  end.

Definition readOAuth2Clients {S} (state : State) : M S (list OAuth2ClientSkeleton) :=
  tryCatch
    (remote GetOAuth2Clients (_getOAuth2Clients state))
    (fun error =>
       if responseIs 403 notAvailable error
       then ret []
       else throw (FrodoError ("Error reading " ++ realm state ++ " oauth2 clients") [error])).

(** The promise of [_getOAuth2Client] is returned without [await]: a
    rejection passes the [catch] clause by and reaches the caller as it is. *)
Definition readOAuth2Client {S} (state : State) (clientId : string)
  : M S OAuth2ClientSkeleton :=
  remote (GetOAuth2Client clientId) (fun t => _getOAuth2Client state t clientId).

(** The pass over [Object.keys(clientData)] that deletes, from every
    property whose [typeof] is ['object'], the attributes not listed in
    [validAttributes]; [Object.keys(null)] throws. *)
Fixpoint removeInvalidItems (validAttributes : list string) (i : nat)
  (items : list (option JsVal)) : list (option JsVal) :=
  match items with
  | [] => []
  | None :: rest => None :: removeInvalidItems validAttributes (S i) rest
  | Some v :: rest =>
      (if existsb (String.eqb (indexKey i)) validAttributes then Some v else None)
      :: removeInvalidItems validAttributes (S i) rest
  end.

Fixpoint removeInvalidAttributes (validAttributes : list string) (attrs : JsObj)
  : JsObj * option Error :=
  match attrs with
  | [] => ([], None)
  | (key, v) :: rest =>
      match v with
      | JNull => ((key, v) :: rest, Some (TypeError "Cannot convert undefined or null to object"))
      | JObj fields =>
          let r := removeInvalidAttributes validAttributes rest in
          ((key, JObj (filter (fun kv => existsb (String.eqb (fst kv)) validAttributes) fields))
             :: fst r,
           snd r)
      | JArr items =>
          let r := removeInvalidAttributes validAttributes rest in
          ((key, JArr (removeInvalidItems validAttributes 0 items)) :: fst r, snd r)
      | _ =>
          let r := removeInvalidAttributes validAttributes rest in
          ((key, v) :: fst r, snd r)
      end
  end.

(** On the client object [clientData], which the repair changes in place. *)
Definition updateOAuth2Client (state : State) (clientId : string)
  : M OAuth2ClientSkeleton OAuth2ClientSkeleton :=
  clientData <- get ;;
  tryCatch
    (remote (PutOAuth2Client clientId clientData)
       (fun t => _putOAuth2Client state t clientId clientData))
    (fun error =>
       if responseIs 400 "Invalid attribute specified." error
       then
         tryCatch
           (validAttributes <-
              (match response error with
               | Some r =>
                   match data_detail_validAttributes r with
                   | Some listed => ret (listed ++ ["_id"])
                   | None => throw (TypeError "Cannot read properties of undefined")
                   end
               | None => throw (TypeError "Cannot read properties of undefined")
               end) ;;
            let r := removeInvalidAttributes validAttributes (client_attrs clientData) in
            modify (fun c => mkClient (client_id c) (fst r)) ;;
            match snd r with
            | Some typeError => throw typeError
            | None =>
                repaired <- get ;;
                remote (PutOAuth2Client clientId repaired)
                  (fun t => _putOAuth2Client state t clientId repaired)
            end)
           (fun error =>
              throw (FrodoError
                       ("Error updating " ++ realm state ++ " oauth2 client " ++ clientId)
                       [error]))
       else
         throw (FrodoError
                  ("Error updating " ++ realm state ++ " oauth2 client " ++ clientId)
                  [error])).

Definition createOAuth2Client (state : State) (clientId : string)
  : M OAuth2ClientSkeleton OAuth2ClientSkeleton :=
  fun w =>
    match readOAuth2Client state clientId w with
    | (w', inl _) =>
        tryCatch
          (updateOAuth2Client state clientId)
          (fun error =>
             throw (FrodoError
                      ("Error creating " ++ realm state ++ " oauth2 client " ++ clientId)
                      [error]))
          w'
    | (w', inr _) =>
        throw (FrodoError (realm state ++ " oAuth2 client " ++ clientId ++ " already exists!") [])
          w'
    end.

(** [clientData['overrideOAuth2ClientConfig']]: the own property of that
    name ([Object.prototype] has no member of that name). *)
Definition overrideOAuth2ClientConfig (clientData : OAuth2ClientSkeleton) : JsVal :=
  match getProp "overrideOAuth2ClientConfig" (client_attrs clientData) with
  | Some v => v
  | None => JUndefined
  end.

(** [error.httpStatus === 403 && error.httpMessage === 'This operation is not available ...'] *)
Definition isNotAvailable (state : State) (error : Error) : bool :=
  match httpStatus state error, httpMessage state error with
  | Some code, Some text => (code =? 403)%Z && (text =? notAvailable)
  | _, _ => false
  end.

(** The body of the loop of [exportOAuth2ClientDependencies], on the key
    [fst entry] and the value [snd entry] found under it. *)
Definition exportReference (state : State) (clientData : OAuth2ClientSkeleton)
  (options : OAuth2ClientExportOptions) (_ : unit) (entry : string * JsVal)
  : M OAuth2ClientExportInterface unit :=
  let key := fst entry in
  if endsWith key "Script"
  then
    let scriptId := snd entry in
    if strictEqStr scriptId "[Empty]"
    then ret tt
    else
      exportData <- get ;;
      match script exportData with
      | None => throw (TypeError "Cannot read properties of undefined")
      | Some scripts =>
          match lookup (toPropertyKey scriptId) scripts with
          | Own _ | Inherited => ret tt
          | Absent =>
              tryCatch
                (scriptData <- remote (ReadScript scriptId)
                                 (fun t => readScript state t scriptId) ;;
                 let scriptData' :=
                   if useStringArrays options
                   then mkScript (script_id scriptData)
                          (convertBase64TextToArray state (script_text scriptData))
                          (script_rest scriptData)
                   else scriptData in
                 modify (setScript (toPropertyKey scriptId) scriptData'))
                (fun error =>
                   if isNotAvailable state error
                   then ret tt
                   else throw (FrodoError
                                 ("Error retrieving " ++ realm state ++ " script "
                                  ++ toPropertyKey scriptId ++ " referenced by " ++ key
                                  ++ " key in client " ++ client_id clientData)
                                 [error]))
          end
      end
  else ret tt.

Definition exportOAuth2ClientDependencies (state : State) (clientData : OAuth2ClientSkeleton)
  (options : OAuth2ClientExportOptions) : M OAuth2ClientExportInterface unit :=
  if truthy (overrideOAuth2ClientConfig clientData)
  then
    forOf (objectEntries (overrideOAuth2ClientConfig clientData))
      (exportReference state clientData options) tt
  else ret tt.

Definition exportOAuth2Clients {S} (state : State) (options : OAuth2ClientExportOptions)
  : M S OAuth2ClientExportInterface :=
  withLocal (createOAuth2ClientExportTemplate state)
    (errors <-
       tryCatch
         (provider <- remote ReadOAuth2Provider (readOAuth2Provider state) ;;
          clients <- readOAuth2Clients state ;;
          forOf clients
            (fun errors client =>
               pushed <-
                 attempt
                   (let client' :=
                      mkClient (client_id client)
                        (setProp "_provider" provider (client_attrs client)) in
                    modify (setApplication (client_id client') client') ;;
                    if deps options
                    then exportOAuth2ClientDependencies state client' options
                    else ret tt)
                   (fun error => error) ;;
               ret (errors ++ pushed))
            [])
         (fun error => ret [error]) ;;
     if nonEmpty errors
     then throw (FrodoError ("Error exporting " ++ realm state ++ " oauth2 clients") errors)
     else get).

Definition exportOAuth2Client {S} (state : State) (clientId : string)
  (options : OAuth2ClientExportOptions) : M S OAuth2ClientExportInterface :=
  withLocal (createOAuth2ClientExportTemplate state)
    (errors <-
       attempt
         (clientData <- readOAuth2Client state clientId ;;
          provider <- remote ReadOAuth2Provider (readOAuth2Provider state) ;;
          let clientData' :=
            mkClient (client_id clientData)
              (setProp "_provider" provider (client_attrs clientData)) in
          modify (setApplication (client_id clientData') clientData') ;;
          if deps options
          then exportOAuth2ClientDependencies state clientData' options
          else ret tt)
         (fun error => error) ;;
     if nonEmpty errors
     then throw (FrodoError
                   ("Error exporting " ++ realm state ++ " oauth2 client " ++ clientId)
                   errors)
     else get).

Definition importOAuth2ClientDependencies (state : State) (clientData : OAuth2ClientSkeleton)
  : M OAuth2ClientExportInterface unit :=
  if truthy (overrideOAuth2ClientConfig clientData)
  then
    forOf (objectEntries (overrideOAuth2ClientConfig clientData))
      (fun _ entry =>
         let key := fst entry in
         if endsWith key "Script"
         then
           let scriptId := snd entry in
           importData <- get ;;
           if strictEqStr scriptId "[Empty]"
           then ret tt
           else
             match script importData with
             | None => ret tt
             | Some scripts =>
                 match lookup (toPropertyKey scriptId) scripts with
                 | Absent => ret tt
                 | scriptData =>
                     tryCatch
                       (remote (UpdateScript scriptId scriptData)
                          (fun t => updateScript state t scriptId scriptData) ;;
                        ret tt)
                       (fun error =>
                          throw (FrodoError
                                   ("Error importing " ++ realm state ++ " script dependency "
                                    ++ toPropertyKey scriptId)
                                   [error]))
                 end
             end
         else ret tt)
      tt
  else ret tt.

(** [delete clientData._provider; delete clientData._rev] *)
Definition stripClient (c : OAuth2ClientSkeleton) : OAuth2ClientSkeleton :=
  mkClient (client_id c) (deleteProp "_rev" (deleteProp "_provider" (client_attrs c))).

(** The reference [importData.application[id]]. *)
Definition entryOf (id : string) (fallback : OAuth2ClientSkeleton)
  (importData : OAuth2ClientExportInterface) : OAuth2ClientSkeleton :=
  match getProp id (application importData) with
  | Some c => c
  | None => fallback
  end.

(** The [try] block that [importOAuth2Client], [importFirstOAuth2Client]
    and [importOAuth2Clients] run on the entry [id]: the answer of
    [updateOAuth2Client], or the error pushed.  [id] comes from
    [Object.keys(importData.application)], so that
    [importData.application[id]] is an own property. *)
Definition importOAuth2ClientEntry (state : State) (options : OAuth2ClientImportOptions)
  (id : string) : M OAuth2ClientExportInterface (Error + OAuth2ClientSkeleton) :=
  tryCatch
    (importData <- get ;;
     match getProp id (application importData) with
     | None => throw (TypeError "Cannot convert undefined or null to object")
     | Some entry =>
         let clientData := stripClient entry in
         modify (setApplication id clientData) ;;
         (if import_deps options
          then importOAuth2ClientDependencies state clientData
          else ret tt) ;;
         response <- zoom (entryOf id clientData) (setApplication id)
                       (updateOAuth2Client state id) ;;
         ret (inr response)
     end)
    (fun error => ret (inl error)).

Definition importStep (state : State) (options : OAuth2ClientImportOptions)
  (acc : option OAuth2ClientSkeleton * list Error * list string) (id : string)
  : M OAuth2ClientExportInterface (option OAuth2ClientSkeleton * list Error * list string) :=
  r <- importOAuth2ClientEntry state options id ;;
  match acc with
  | (response, errors, imported) =>
      match r with
      | inr c => ret (Some c, errors, imported ++ [id])
      | inl error => ret (response, errors ++ [error], imported)
      end
  end.

Definition importOAuth2Client (state : State) (clientId : string)
  (options : OAuth2ClientImportOptions)
  : M OAuth2ClientExportInterface (option OAuth2ClientSkeleton) :=
  importData <- get ;;
  acc <- forOf (objectKeys (application importData))
           (fun acc id =>
              if id =? clientId then importStep state options acc id else ret acc)
           (None, [], []) ;;
  match acc with
  | (response, errors, imported) =>
      if nonEmpty errors
      then throw (FrodoError
                    ("Error importing " ++ realm state ++ " oauth2 client " ++ clientId)
                    errors)
      else if (0 =? List.length imported)%nat
      then throw (FrodoError
                    (realm state ++ " oauth2 client " ++ clientId
                     ++ " not found in import data!")
                    [])
      else ret response
  end.

Definition importFirstOAuth2Client (state : State) (options : OAuth2ClientImportOptions)
  : M OAuth2ClientExportInterface (option OAuth2ClientSkeleton) :=
  importData <- get ;;
  acc <- (match objectKeys (application importData) with
          | id :: _ => importStep state options (None, [], []) id
          | [] => ret (None, [], [])
          end) ;;
  match acc with
  | (response, errors, imported) =>
      if nonEmpty errors
      then throw (FrodoError
                    ("Error importing first " ++ realm state ++ " oauth2 client")
                    errors)
      else if (0 =? List.length imported)%nat
      then throw (FrodoError "No oauth2 clients found in import data!" [])
      else ret response
  end.

Definition importOAuth2Clients (state : State) (options : OAuth2ClientImportOptions)
  : M OAuth2ClientExportInterface (list OAuth2ClientSkeleton) :=
  importData <- get ;;
  acc <- forOf (objectKeys (application importData))
           (fun (acc : list OAuth2ClientSkeleton * list Error) id =>
              r <- importOAuth2ClientEntry state options id ;;
              ret (match r with
                   | inr c => (fst acc ++ [c], snd acc)
                   | inl error => (fst acc, snd acc ++ [error])
                   end))
           ([], []) ;;
  if nonEmpty (snd acc)
  then throw (FrodoError ("Error importing " ++ realm state ++ " oauth2 clients") (snd acc))
  else ret (fst acc).

End OAuth2ClientOps.

(** * Vocabulary of the statements *)

(** ** Condition trees *)

(** The node is a boolean combinator. *)
Definition isCombinator (c : PolicyCondition) : Prop :=
  type c = Some "AND" \/ type c = Some "OR" \/ type c = Some "NOT".

(** [ScriptLeaf c id]: a node of type [Script] whose [scriptId] is [id] is
    [c] itself or is reached from [c] through the [condition] and
    [conditions] of combinator nodes only. *)
Inductive ScriptLeaf : PolicyCondition -> option string -> Prop :=
| leaf_here (c : PolicyCondition) :
    type c = Some "Script" -> ScriptLeaf c (scriptId c)
| leaf_single (c single : PolicyCondition) (id : option string) :
    isCombinator c -> condition c = Some single -> ScriptLeaf single id -> ScriptLeaf c id
| leaf_array (c child : PolicyCondition) (conds : list PolicyCondition) (id : option string) :
    isCombinator c -> conditions c = Some conds -> In child conds ->
    ScriptLeaf child id -> ScriptLeaf c id.

(** The empty object [{}]. *)
Definition emptyCondition : PolicyCondition := mkCondition None None None None.

(** ** Logs and results *)

(** The calls of a piece of log, and the failures recorded in it. *)
Definition calls (evs : list Event) : list Call := map call evs.

Definition failures (evs : list Event) : list Error :=
  flat_map (fun ev => match failure ev with
                      | Some e => [e]
                      | None => []
                      end) evs.

(** The errors at the leaves of an aggregate: what the [FrodoError]s wrap. *)
Fixpoint leaves (e : Error) : list Error :=
  match e with
  | FrodoError _ causes => flat_map leaves causes
  | _ => [e]
  end.

(** [emits m s Q]: started on the object [s], after any log, [m] appends
    some events [evs] to the log and ends with an object [s'] and a result
    [r] such that [Q evs s' r]. *)
Definition emits {S A} (m : M S A) (s : S) (Q : list Event -> S -> Error + A -> Prop) : Prop :=
  forall t, exists evs,
    fst (fst (m (t, s))) = t ++ evs /\ Q evs (snd (fst (m (t, s)))) (snd (m (t, s))).

(** [runs m t s Q]: the same for the run of [m] that starts after the log
    [t], so that [Q] can refer to what the collaborators answer then. *)
Definition runs {S A} (m : M S A) (t : Trace) (s : S)
  (Q : list Event -> S -> Error + A -> Prop) : Prop :=
  exists evs,
    fst (fst (m (t, s))) = t ++ evs /\ Q evs (snd (fst (m (t, s)))) (snd (m (t, s))).

(** [answered answer c t evs a]: the piece of log [evs], which starts after
    [t], has a successful call [c], and [a] is what the collaborator
    answered to it. *)
Definition answered {A} (answer : Trace -> Rejection + A) (c : Call) (t : Trace)
  (evs : list Event) (a : A) : Prop :=
  exists pre post, evs = pre ++ mkEvent c None :: post /\ answer (t ++ pre) = inr a.

(** [accounts errors evs]: the errors collected stand for the failures
    logged: their leaves are the failures, in order, and there is an error
    exactly when a call failed. *)
Definition accounts (errors : list Error) (evs : list Event) : Prop :=
  flat_map leaves errors = failures evs /\ (errors = [] <-> failures evs = []).

(** The result agrees with the log: success when no call failed, otherwise
    an error whose leaves are the failures. *)
Definition reports {A} (r : Error + A) (evs : list Event) : Prop :=
  accounts (match r with
            | inl e => [e]
            | inr _ => []
            end) evs.

(** ** Policy import *)

(** The prerequisite writes of a policy: its resource type, then its policy
    set, each if [record[name]] finds something in the bundle. *)
Definition prerequisiteWrites (b : PolicyOps.PolicyExportInterface)
  (policyData : PolicySkeleton) : list Call :=
  (match lookup (resourceTypeUuid policyData) (PolicyOps.resourcetype b) with
   | Absent => []
   | found => [UpdateResourceType (resourceTypeUuid policyData) found]
   end) ++
  (match lookup (applicationName policyData) (PolicyOps.policyset b) with
   | Absent => []
   | found => [UpdatePolicySet found]
   end).

(** One script write per script id found in the condition, with whatever
    [exportData.script[scriptUuid]] finds. *)
Definition scriptWrites (b : PolicyOps.PolicyExportInterface)
  (policyData : PolicySkeleton) : list Call :=
  map (fun scriptUuid =>
         UpdateScript (idVal scriptUuid)
           (lookup (toPropertyKey (idVal scriptUuid)) (PolicyOps.script b)))
    (PolicyOps.findScriptUuids (policy_condition policyData)).

(** The writes of one policy entry, in order. *)
Definition entryWrites (options : PolicyOps.PolicyImportOptions)
  (b : PolicyOps.PolicyExportInterface) (policyData : PolicySkeleton) : list Call :=
  (if PolicyOps.import_prereqs options then prerequisiteWrites b policyData else []) ++
  [PutPolicy (policy_id policyData) policyData] ++
  (if PolicyOps.import_deps options then scriptWrites b policyData else []).

(** The bundle in which every policy entry has been stripped in place. *)
Definition stripPolicies (options : PolicyOps.PolicyImportOptions)
  (b : PolicyOps.PolicyExportInterface) : PolicyOps.PolicyExportInterface :=
  PolicyOps.mkExport (PolicyOps.meta b) (PolicyOps.script b) (PolicyOps.resourcetype b)
    (map (fun kv => (fst kv, PolicyOps.stripPolicy options (snd kv))) (PolicyOps.policy b))
    (PolicyOps.policyset b).

(** ** Writes *)

Definition isPolicyWrite (c : Call) : bool :=
  match c with
  | PutPolicy _ _ => true
  | _ => false
  end.

(** What an invalid-attribute rejection lists as valid
    ([error.response.data.detail.validAttributes]). *)
Definition listedAttributes (r : Rejection) : option (list string) :=
  match rej_response r with
  | Some resp => data_detail_validAttributes resp
  | None => None
  end.

(** The error of a failed client update. *)
Definition updateFailed (state : State) (clientId : string) (e : Error) : Error :=
  FrodoError ("Error updating " ++ realm state ++ " oauth2 client " ++ clientId) [e].

(** [validAttributes.includes(attribute)] *)
Definition includes (validAttributes : list string) (attribute : string) : bool :=
  existsb (String.eqb attribute) validAttributes.

(** ** OAuth2 client dependencies *)

(** The entries of [overrideOAuth2ClientConfig] that the loops walk
    through: the map's own keys, one level. *)
Definition overrideEntries (c : OAuth2ClientSkeleton) : JsObj :=
  if truthy (OAuth2ClientOps.overrideOAuth2ClientConfig c)
  then objectEntries (OAuth2ClientOps.overrideOAuth2ClientConfig c)
  else [].

(** A key whose name ends in [Script], with a value other than ['[Empty]']. *)
Definition isScriptReference (kv : string * JsVal) : bool :=
  endsWith (fst kv) "Script" && negb (strictEqStr (snd kv) "[Empty]").

(** The script references of a client, in key order. *)
Definition scriptReferencesIn (entries : JsObj) : list JsVal :=
  map snd (filter isScriptReference entries).

Definition scriptReferences (c : OAuth2ClientSkeleton) : list JsVal :=
  scriptReferencesIn (overrideEntries c).

(** The script writes of a client import: one per reference for which
    [importData.script[scriptId]] finds something. *)
Definition scriptImportsOf (b : OAuth2ClientOps.OAuth2ClientExportInterface)
  (references : list JsVal) : list Call :=
  flat_map (fun scriptId =>
              match OAuth2ClientOps.script b with
              | Some scripts =>
                  match lookup (toPropertyKey scriptId) scripts with
                  | Absent => []
                  | found => [UpdateScript scriptId found]
                  end
              | None => []
              end) references.

Definition scriptImports (b : OAuth2ClientOps.OAuth2ClientExportInterface)
  (c : OAuth2ClientSkeleton) : list Call :=
  scriptImportsOf b (scriptReferences c).

Definition isScriptWrite (c : Call) : bool :=
  match c with
  | UpdateScript _ _ => true
  | _ => false
  end.

Definition isScriptRead (c : Call) : bool :=
  match c with
  | ReadScript _ => true
  | _ => false
  end.

Definition isClientWrite (clientId : string) (c : Call) : bool :=
  match c with
  | PutOAuth2Client id _ => id =? clientId
  | _ => false
  end.

(** ** OAuth2 client writes *)

(** The failure sets off the repair of [updateOAuth2Client]: status 400
    with the message "Invalid attribute specified.". *)
Definition setsOffRepair (f : Error) : bool :=
  OAuth2ClientOps.responseIs 400 "Invalid attribute specified." f.

(** The client as the repair leaves it: inside its object-valued properties
    every attribute that is not listed ([_id] apart) is deleted, up to the
    first property that is null. *)
Definition repairedClient (listed : list string) (c : OAuth2ClientSkeleton)
  : OAuth2ClientSkeleton :=
  mkClient (client_id c)
    (fst (OAuth2ClientOps.removeInvalidAttributes (listed ++ ["_id"]) (client_attrs c))).

(** The error that stops the repair: a property of the client is null. *)
Definition repairError (listed : list string) (c : OAuth2ClientSkeleton) : option Error :=
  snd (OAuth2ClientOps.removeInvalidAttributes (listed ++ ["_id"]) (client_attrs c)).

(** [ClientUpdated state id t c puts c' r]: after the log [t],
    [updateOAuth2Client] on the client [c] logs [puts], leaves the client
    as [c'] and ends with [r]. *)
Inductive ClientUpdated (state : State) (id : string) (t : Trace) (c : OAuth2ClientSkeleton)
  : list Event -> OAuth2ClientSkeleton -> Error + OAuth2ClientSkeleton -> Prop :=
| written_at_once (written : OAuth2ClientSkeleton) :
    _putOAuth2Client state t id c = inr written ->
    ClientUpdated state id t c
      [mkEvent (PutOAuth2Client id c) None]
      c (inr written)
| write_rejected (r : Rejection) :
    _putOAuth2Client state t id c = inl r ->
    setsOffRepair (Thrown r) = false ->
    ClientUpdated state id t c
      [mkEvent (PutOAuth2Client id c) (Some (Thrown r))]
      c (inl (updateFailed state id (Thrown r)))
| repair_without_list (r : Rejection) :
    _putOAuth2Client state t id c = inl r ->
    setsOffRepair (Thrown r) = true ->
    listedAttributes r = None ->
    ClientUpdated state id t c
      [mkEvent (PutOAuth2Client id c) (Some (Thrown r))]
      c (inl (updateFailed state id (TypeError "Cannot read properties of undefined")))
| repair_stopped (r : Rejection) (listed : list string) (typeError : Error) :
    _putOAuth2Client state t id c = inl r ->
    setsOffRepair (Thrown r) = true ->
    listedAttributes r = Some listed ->
    repairError listed c = Some typeError ->
    ClientUpdated state id t c
      [mkEvent (PutOAuth2Client id c) (Some (Thrown r))]
      (repairedClient listed c) (inl (updateFailed state id typeError))
| written_repaired (r : Rejection) (listed : list string) (written : OAuth2ClientSkeleton) :
    _putOAuth2Client state t id c = inl r ->
    setsOffRepair (Thrown r) = true ->
    listedAttributes r = Some listed ->
    repairError listed c = None ->
    _putOAuth2Client state (t ++ [mkEvent (PutOAuth2Client id c) (Some (Thrown r))]) id
      (repairedClient listed c) = inr written ->
    ClientUpdated state id t c
      [mkEvent (PutOAuth2Client id c) (Some (Thrown r));
       mkEvent (PutOAuth2Client id (repairedClient listed c)) None]
      (repairedClient listed c) (inr written)
| retry_rejected (r : Rejection) (listed : list string) (r2 : Rejection) :
    _putOAuth2Client state t id c = inl r ->
    setsOffRepair (Thrown r) = true ->
    listedAttributes r = Some listed ->
    repairError listed c = None ->
    _putOAuth2Client state (t ++ [mkEvent (PutOAuth2Client id c) (Some (Thrown r))]) id
      (repairedClient listed c) = inl r2 ->
    ClientUpdated state id t c
      [mkEvent (PutOAuth2Client id c) (Some (Thrown r));
       mkEvent (PutOAuth2Client id (repairedClient listed c)) (Some (Thrown r2))]
      (repairedClient listed c) (inl (updateFailed state id (Thrown r2))).

(** ** OAuth2 client import *)

(** [DependenciesImported state b c scripts d]:
    [importOAuth2ClientDependencies] on the client [c] logs [scripts] and
    ends with [d].  The writes are the script imports of [c], in order: all
    of them, none failing, on a normal return; otherwise up to the first
    that fails, whose failure is raised, wrapped. *)
Definition DependenciesImported (state : State)
  (b : OAuth2ClientOps.OAuth2ClientExportInterface) (c : OAuth2ClientSkeleton)
  (scripts : list Event) (d : Error + unit) : Prop :=
  exists rest,
    scriptImports b c = calls scripts ++ rest /\
    match d with
    | inr _ => rest = [] /\ failures scripts = []
    | inl e =>
        exists done scriptId scriptData f,
          scripts = done ++ [mkEvent (UpdateScript scriptId scriptData) (Some f)] /\
          failures done = [] /\
          e = FrodoError
                ("Error importing " ++ realm state ++ " script dependency "
                 ++ toPropertyKey scriptId)
                [f]
    end.

(** [ClientEntryImported state options b t id entry evs c' x]: after the
    log [t], the visit of the entry [entry] under the key [id] logs [evs],
    leaves the entry as [c'] and ends with the answer of
    [updateOAuth2Client] or with the error to push.  The entry loses
    [_provider] and [_rev]; its scripts are written first (with [deps]);
    [updateOAuth2Client] runs on it only when that went through. *)
Definition ClientEntryImported (state : State)
  (options : OAuth2ClientOps.OAuth2ClientImportOptions)
  (b : OAuth2ClientOps.OAuth2ClientExportInterface) (t : Trace) (id : string)
  (entry : OAuth2ClientSkeleton) (evs : list Event) (c' : OAuth2ClientSkeleton)
  (x : Error + OAuth2ClientSkeleton) : Prop :=
  let c := OAuth2ClientOps.stripClient entry in
  exists scripts puts d,
    evs = scripts ++ puts /\
    (if OAuth2ClientOps.import_deps options
     then DependenciesImported state b c scripts d
     else scripts = [] /\ d = inr tt) /\
    match d with
    | inl e => puts = [] /\ c' = c /\ x = inl e
    | inr _ => ClientUpdated state id (t ++ scripts) c puts c' x
    end.

(** The result of [importOAuth2Client] and [importFirstOAuth2Client] after
    the visit of their entry. *)
Definition selectedResult (message : string) (x : Error + OAuth2ClientSkeleton)
  : Error + option OAuth2ClientSkeleton :=
  match x with
  | inr written => inr (Some written)
  | inl e => inl (FrodoError message [e])
  end.

(** One visit of [importOAuth2Clients]: its piece of the log, the entry as
    it is left, and its outcome. *)
Record Visit : Type := mkVisit {
  visit_events : list Event;
  visit_client : OAuth2ClientSkeleton;
  visit_outcome : Error + OAuth2ClientSkeleton
}.

(** The visits of the entries, one after the other, from the log [t] on. *)
Fixpoint ClientsImported (state : State)
  (options : OAuth2ClientOps.OAuth2ClientImportOptions)
  (b : OAuth2ClientOps.OAuth2ClientExportInterface) (t : Trace)
  (entries : list (string * OAuth2ClientSkeleton)) (visits : list Visit) : Prop :=
  match entries, visits with
  | [], [] => True
  | (id, entry) :: entries', visit :: visits' =>
      ClientEntryImported state options b t id entry
        (visit_events visit) (visit_client visit) (visit_outcome visit) /\
      ClientsImported state options b (t ++ visit_events visit) entries' visits'
  | _, _ => False
  end.

Definition visitErrors (visits : list Visit) : list Error :=
  flat_map (fun v => match visit_outcome v with
                     | inl e => [e]
                     | inr _ => []
                     end) visits.

Definition visitResponses (visits : list Visit) : list OAuth2ClientSkeleton :=
  flat_map (fun v => match visit_outcome v with
                     | inl _ => []
                     | inr written => [written]
                     end) visits.

(** The entries as the visits leave them, under their keys. *)
Definition visitedEntries (entries : list (string * OAuth2ClientSkeleton))
  (visits : list Visit) : list (string * OAuth2ClientSkeleton) :=
  map (fun p => (fst (fst p), visit_client (snd p))) (combine entries visits).

(** The entry of the bundle after an import, read off the log: stripped of
    [_provider] and [_rev] and, if the first write of the client was
    rejected for an invalid attribute with a list of the valid ones,
    repaired with that list. *)
Definition entryAfterImport (id : string) (entry : OAuth2ClientSkeleton) (evs : list Event)
  : OAuth2ClientSkeleton :=
  let c := OAuth2ClientOps.stripClient entry in
  match filter (fun ev => isClientWrite id (call ev)) evs with
  | mkEvent _ (Some (Thrown r)) :: _ =>
      if setsOffRepair (Thrown r)
      then match listedAttributes r with
           | Some listed => repairedClient listed c
           | None => c
           end
      else c
  | _ => c
  end.
(** ** Policy export *)

(** The prerequisite reads of a policy: its resource type, then its policy
    set, each if the policy names one. *)
Definition prerequisiteReads (policyData : PolicySkeleton) : list Call :=
  (if negb (resourceTypeUuid policyData =? "")
   then [GetResourceType (resourceTypeUuid policyData)]
   else []) ++
  (if negb (applicationName policyData =? "")
   then [ReadPolicySet (applicationName policyData)]
   else []).

(** One script read per script id found in the condition. *)
Definition scriptReads (policyData : PolicySkeleton) : list Call :=
  map (fun scriptUuid => ReadScript (idVal scriptUuid))
    (PolicyOps.findScriptUuids (policy_condition policyData)).

(** The reads of one item of a batch export. *)
Definition policyReads (options : PolicyOps.PolicyExportOptions) (policyData : PolicySkeleton)
  : list Call :=
  (if PolicyOps.prereqs options then prerequisiteReads policyData else []) ++
  (if PolicyOps.deps options then scriptReads policyData else []).

(** ** OAuth2 client export *)

(** Every failure logged is the capability-absence signal
    (status 403, "This operation is not available ..."). *)
Definition tolerated (state : State) (evs : list Event) : Prop :=
  Forall (fun f => OAuth2ClientOps.isNotAvailable state f = true) (failures evs).

(** A script whose property key is [k] has been asked for. *)
Definition fetched (evs : list Event) (k : string) : Prop :=
  exists v, In (ReadScript v) (calls evs) /\ toPropertyKey v = k.

(** The read of a script with the property key [k] failed. *)
Definition fetchFailed (evs : list Event) (k : string) : Prop :=
  exists v f, In (mkEvent (ReadScript v) (Some f)) evs /\ toPropertyKey v = k.

(** The failures logged that are not the capability-absence signal. *)
Definition untolerated (state : State) (evs : list Event) : list Error :=
  filter (fun f => negb (OAuth2ClientOps.isNotAvailable state f)) (failures evs).

(** The script as an export stores it: with [useStringArrays] its text has
    gone through [convertBase64TextToArray]. *)
Definition exportedScript (state : State) (useStringArrays : bool)
  (scriptData : ScriptSkeleton) : ScriptSkeleton :=
  if useStringArrays
  then mkScript (script_id scriptData)
         (convertBase64TextToArray state (script_text scriptData))
         (script_rest scriptData)
  else scriptData.

(** [scriptFetched state useStringArrays t evs k s]: a successful read of a
    script whose property key is [k] is logged in [evs], after [t], and [s]
    is what [readScript] answered, as the export stores it. *)
Definition scriptFetched (state : State) (useStringArrays : bool) (t : Trace)
  (evs : list Event) (k : string) (s : ScriptSkeleton) : Prop :=
  exists v a,
    toPropertyKey v = k /\
    answered (fun t' => readScript state t' v) (ReadScript v) t evs a /\
    s = exportedScript state useStringArrays a.

(** What [exportOAuth2ClientDependencies] does for the client [clientData]
    whose override entries are [entries], from a bundle whose script
    collection is [scripts].  It reads references only, and none that
    [exportData.script[scriptId]] finds.  On a normal return every failure
    is the capability-absence signal and every reference was found or asked
    for; otherwise the log ends with the read whose failure, which is not
    that signal, is raised, wrapped. *)
Definition dependenciesExported (state : State) (clientData : OAuth2ClientSkeleton)
  (entries : JsObj) (scripts : list (string * ScriptSkeleton)) (evs : list Event)
  (r : Error + unit) : Prop :=
  Forall (fun cl => exists v, cl = ReadScript v /\ In v (scriptReferencesIn entries) /\
                              lookup (toPropertyKey v) scripts = Absent)
    (calls evs) /\
  (forall v, head (scriptReferencesIn entries) = Some v ->
             lookup (toPropertyKey v) scripts <> Absent \/ fetched evs (toPropertyKey v)) /\
  match r with
  | inr _ =>
      tolerated state evs /\
      forall v, In v (scriptReferencesIn entries) ->
                lookup (toPropertyKey v) scripts <> Absent \/ fetched evs (toPropertyKey v)
  | inl e =>
      exists evs0 key v rejection,
        evs = evs0 ++ [mkEvent (ReadScript v) (Some (Thrown rejection))] /\
        tolerated state evs0 /\
        OAuth2ClientOps.isNotAvailable state (Thrown rejection) = false /\
        In (key, v) entries /\ isScriptReference (key, v) = true /\
        e = FrodoError
              ("Error retrieving " ++ realm state ++ " script " ++ toPropertyKey v
               ++ " referenced by " ++ key ++ " key in client " ++ client_id clientData)
              [Thrown rejection]
  end.

(** What [exportOAuth2ClientDependencies] does to the script collection:
    it keeps what was there; what it adds is, under the property key of a
    reference, what the read of that reference answered; and on a normal
    return every reference is found in the collection, unless its read
    failed. *)
Definition scriptsExported (state : State) (useStringArrays : bool) (t : Trace)
  (entries : JsObj) (scripts : list (string * ScriptSkeleton)) (evs : list Event)
  (scripts' : list (string * ScriptSkeleton)) (r : Error + unit) : Prop :=
  (forall k s, getProp k scripts = Some s -> getProp k scripts' = Some s) /\
  (forall k s, getProp k scripts' = Some s ->
               getProp k scripts = Some s \/
               (scriptFetched state useStringArrays t evs k s /\
                exists v, In v (scriptReferencesIn entries) /\ toPropertyKey v = k)) /\
  (forall u, r = inr u ->
   forall v, In v (scriptReferencesIn entries) ->
             lookup (toPropertyKey v) scripts' <> Absent \/
             fetchFailed evs (toPropertyKey v)).

(** What [readOAuth2Clients] returns after the log [t]: the clients listed,
    none on the capability-absence signal, nothing on any other failure. *)
Definition listedClients (state : State) (t : Trace) : option (list OAuth2ClientSkeleton) :=
  match _getOAuth2Clients state t with
  | inr clients => Some clients
  | inl r =>
      if OAuth2ClientOps.responseIs 403 OAuth2ClientOps.notAvailable (Thrown r)
      then Some []
      else None
  end.

(** The event that the listing call logs after [t]. *)
Definition listingEvent (state : State) (t : Trace) : Event :=
  mkEvent GetOAuth2Clients
    (match _getOAuth2Clients state t with
     | inr _ => None
     | inl r => Some (Thrown r)
     end).

(** The outcome of a batch export of policies, against the log of its items. *)
Definition batchOutcome {A} (message : string) (r : Error + A) (evs : list Event) : Prop :=
  match r with
  | inr _ => failures evs = []
  | inl e =>
      exists errors,
        e = FrodoError message errors /\ errors <> [] /\
        flat_map leaves errors = failures evs /\ failures evs <> []
  end.
(** * Sample tenants and bundles *)

Module Examples.

Definition rejection (message : string) : Rejection :=
  mkRejection message None None None.

(** A REST error with a response; [httpStatus] and [httpMessage] mirror it. *)
Definition httpRejection (code : Z) (text : string) (valid : option (list string))
  : Rejection :=
  mkRejection text (Some (mkResponse code (Some text) valid)) (Some code) (Some text).

(** A tenant where every call succeeds, except the ones given; a script
    write without script data is rejected. *)
Definition tenantWith
  (putClient : Trace -> string -> OAuth2ClientSkeleton -> Rejection + OAuth2ClientSkeleton)
  (getClients : Trace -> Rejection + list OAuth2ClientSkeleton)
  (getScript : Trace -> JsVal -> Rejection + ScriptSkeleton)
  (putPolicy : Trace -> string -> PolicySkeleton -> Rejection + PolicySkeleton)
  (getPolicies : Trace -> Rejection + list PolicySkeleton) : State :=
  {| getCurrentRealmName := "alpha";
     getMetadata := [];
     convertBase64TextToArray := fun text => JArr [Some text];
     frodoErrorHttp := fun _ => (None, None);
     _getPolicy := fun _ _ => inl (rejection "Not Found");
     _putPolicy := putPolicy;
     _getPolicies := getPolicies;
     _getPoliciesByPolicySet := fun t _ => getPolicies t;
     getResourceType := fun _ _ => inr [];
     readPolicySet := fun _ _ => inr [];
     updatePolicySet := fun _ policySetData =>
                          match policySetData with
                          | Own s => inr s
                          | _ => inl (rejection "Bad Request")
                          end;
     updateResourceType := fun _ _ resourceTypeData =>
                             match resourceTypeData with
                             | Own s => inr s
                             | _ => inl (rejection "Bad Request")
                             end;
     readScript := getScript;
     updateScript := fun _ _ scriptData =>
                       match scriptData with
                       | Own s => inr s
                       | _ => inl (rejection "Cannot read properties of undefined")
                       end;
     _getOAuth2Client := fun _ _ => inl (rejection "Not Found");
     _getOAuth2Clients := getClients;
     _putOAuth2Client := putClient;
     readOAuth2Provider := fun _ => inr (JObj []) |}.

Definition script1 : ScriptSkeleton := mkScript "s1" (JStr "Y29kZQ==") [].

Definition scriptLeaf (id : string) : PolicyCondition :=
  mkCondition (Some "Script") (Some id) None None.

(** AND [ Script s1, NOT (Script s2) ] *)
Definition condition1 : PolicyCondition :=
  mkCondition (Some "AND") None None
    (Some [scriptLeaf "s1"; mkCondition (Some "NOT") None (Some (scriptLeaf "s2")) None]).

Definition policy1 : PolicySkeleton :=
  mkPolicy "p1" (Some "rev1") "p1" "set1" "rt1" (Some condition1) [].

Definition policy2 : PolicySkeleton :=
  mkPolicy "p2" (Some "rev7") "p2" "set1" "rt1" (Some (scriptLeaf "s1")) [].

(** A bundle with two policies, their resource type and policy set, and
    the script s1 only: s2, referenced by p1, is missing. *)
Definition policyBundle : PolicyOps.PolicyExportInterface :=
  PolicyOps.mkExport None
    [("s1", script1)]
    [("rt1", [("uuid", JStr "rt1")])]
    [("p1", policy1); ("p2", policy2)]
    [("set1", [("name", JStr "set1")])].

Definition client1 : OAuth2ClientSkeleton :=
  mkClient "c1"
    [("_rev", JStr "1");
     ("_provider", JObj []);
     ("overrideOAuth2ClientConfig",
      JObj [("accessTokenModificationScript", JStr "s1");
            ("oidcClaimsScript", JStr "[Empty]");
            ("issueRefreshToken", JBool true);
            ("nested", JObj [("innerScript", JStr "s9")])]);
     ("coreOAuth2ClientConfig",
      JObj [("clientName", JStr "c1"); ("legacyFlag", JNum "1")])].

Definition clientBundle : OAuth2ClientOps.OAuth2ClientExportInterface :=
  OAuth2ClientOps.mkExport None (Some [("s1", script1)]) [("c1", client1)].

(** A client whose override names the script "constructor": no bundle
    holds it, every object inherits a member of that name. *)
Definition client2 : OAuth2ClientSkeleton :=
  mkClient "c2"
    [("_rev", JStr "3");
     ("overrideOAuth2ClientConfig",
      JObj [("accessTokenModificationScript", JStr "constructor")])].

Definition clientBundle2 : OAuth2ClientOps.OAuth2ClientExportInterface :=
  OAuth2ClientOps.mkExport None (Some []) [("c2", client2)].

Definition tenant : State :=
  tenantWith
    (fun _ _ clientData => inr clientData)
    (fun _ => inr [client1])
    (fun _ scriptId => inr (mkScript (toPropertyKey scriptId) (JStr "Y29kZQ==") []))
    (fun _ _ policyData => inr policyData)
    (fun _ => inr [policy1; policy2]).

Definition invalidAttribute : Rejection :=
  httpRejection 400 "Invalid attribute specified." (Some ["clientName"]).

Definition serverError : Rejection :=
  httpRejection 500 "Internal Server Error" None.

(** The first write of a client is rejected for an invalid attribute, the
    second one for another reason. *)
Definition tenantRejectingTwice : State :=
  tenantWith
    (fun t _ _ => match t with
                  | [] => inl invalidAttribute
                  | _ :: _ => inl serverError
                  end)
    (fun _ => inr [client1])
    (fun _ scriptId => inr (mkScript (toPropertyKey scriptId) (JStr "Y29kZQ==") []))
    (fun _ _ policyData => inr policyData)
    (fun _ => inr [policy1; policy2]).

Definition notAvailableSignal : Rejection :=
  httpRejection 403 OAuth2ClientOps.notAvailable None.

(** Scripts cannot be read: every read answers the capability-absence signal. *)
Definition tenantWithoutScripts : State :=
  tenantWith
    (fun _ _ clientData => inr clientData)
    (fun _ => inr [client1])
    (fun _ _ => inl notAvailableSignal)
    (fun _ _ policyData => inr policyData)
    (fun _ => inr [policy1; policy2]).

(** Scripts cannot be read: every read answers a server error. *)
Definition tenantBrokenScripts : State :=
  tenantWith
    (fun _ _ clientData => inr clientData)
    (fun _ => inr [client1])
    (fun _ _ => inl serverError)
    (fun _ _ policyData => inr policyData)
    (fun _ => inr [policy1; policy2]).

(** Clients cannot be listed: the listing answers the capability-absence signal. *)
Definition tenantWithoutClients : State :=
  tenantWith
    (fun _ _ clientData => inr clientData)
    (fun _ => inl notAvailableSignal)
    (fun _ scriptId => inr (mkScript (toPropertyKey scriptId) (JStr "Y29kZQ==") []))
    (fun _ _ policyData => inr policyData)
    (fun _ => inr [policy1; policy2]).

Definition allOptions : PolicyOps.PolicyImportOptions :=
  PolicyOps.mkImportOptions true true None.

End Examples.


(** * Further vocabulary *)

(** ** Condition trees, in traversal order *)

(** The [scriptId]s of the [Script] nodes of a tree in the order the
    traversal meets them: below a combinator its [condition] first, then
    its [conditions] from left to right.  Repetitions are kept. *)
Fixpoint scriptIdsOf (c : PolicyCondition) : list (option string) :=
  match type c with
  | Some t =>
      if (t =? "AND") || (t =? "OR") || (t =? "NOT") then
        (match condition c with
         | Some single => scriptIdsOf single
         | None => []
         end)
        ++
        (match conditions c with
         | Some conds => flat_map scriptIdsOf conds
         | None => []
         end)
      else if t =? "Script" then [scriptId c]
      else []
  | None => []
  end.


(** ** Policy export *)

(** [exportData.policy] after the policies have been stored, in order, each
    under its [_id]. *)
Definition storedPolicies (policies : list PolicySkeleton)
  (stored : list (string * PolicySkeleton)) : list (string * PolicySkeleton) :=
  fold_left (fun acc policyData => setProp (policy_id policyData) policyData acc)
    policies stored.

(** The record has an own entry under the key, if an assignment can make
    one (the key [__proto__] reaches the prototype instead). *)
Definition stored {V} (k : string) (o : list (string * V)) : Prop :=
  k <> "__proto__" -> In k (objectKeys o).

(** [resourceTypeFetched state t evs k v]: [v] is what [getResourceType]
    answered to a read of [k] logged in [evs], after [t]; likewise for
    policy sets and scripts (a script is stored under its own [_id]). *)
Definition resourceTypeFetched (state : State) (t : Trace) (evs : list Event)
  (k : string) (v : ResourceTypeSkeleton) : Prop :=
  answered (fun t' => getResourceType state t' k) (GetResourceType k) t evs v.

Definition policySetFetched (state : State) (t : Trace) (evs : list Event)
  (k : string) (v : PolicySetSkeleton) : Prop :=
  answered (fun t' => readPolicySet state t' k) (ReadPolicySet k) t evs v.

Definition policyScriptFetched (state : State) (useStringArrays : bool) (t : Trace)
  (evs : list Event) (k : string) (s : ScriptSkeleton) : Prop :=
  exists id a,
    answered (fun t' => readScript state t' id) (ReadScript id) t evs a /\
    k = script_id a /\ s = exportedScript state useStringArrays a.

(** What an export step does to the bundle besides storing policies: it
    keeps the metadata and the keys that are there, and whatever the
    dependency collections hold afterwards was there before or is what the
    server answered to a read of the step. *)
Definition extended (state : State) (options : PolicyOps.PolicyExportOptions)
  (t : Trace) (evs : list Event) (b b' : PolicyOps.PolicyExportInterface) : Prop :=
  PolicyOps.meta b' = PolicyOps.meta b /\
  (forall k, In k (objectKeys (PolicyOps.resourcetype b)) ->
             In k (objectKeys (PolicyOps.resourcetype b'))) /\
  (forall k, In k (objectKeys (PolicyOps.policyset b)) ->
             In k (objectKeys (PolicyOps.policyset b'))) /\
  (forall k, In k (objectKeys (PolicyOps.script b)) ->
             In k (objectKeys (PolicyOps.script b'))) /\
  (forall k v, getProp k (PolicyOps.resourcetype b') = Some v ->
               getProp k (PolicyOps.resourcetype b) = Some v \/
               resourceTypeFetched state t evs k v) /\
  (forall k v, getProp k (PolicyOps.policyset b') = Some v ->
               getProp k (PolicyOps.policyset b) = Some v \/
               policySetFetched state t evs k v) /\
  (forall k s, getProp k (PolicyOps.script b') = Some s ->
               getProp k (PolicyOps.script b) = Some s \/
               policyScriptFetched state (PolicyOps.useStringArrays options) t evs k s).

(** The bundle holds the prerequisites that the policy names. *)
Definition prerequisitesStored (policyData : PolicySkeleton)
  (b : PolicyOps.PolicyExportInterface) : Prop :=
  (resourceTypeUuid policyData <> "" ->
   stored (resourceTypeUuid policyData) (PolicyOps.resourcetype b)) /\
  (applicationName policyData <> "" ->
   stored (applicationName policyData) (PolicyOps.policyset b)).

(** The bundle holds the scripts that the condition of the policy names:
    each was read, and what the read answered is stored under its [_id]. *)
Definition dependenciesStored (state : State) (t : Trace) (evs : list Event)
  (policyData : PolicySkeleton) (b : PolicyOps.PolicyExportInterface) : Prop :=
  forall scriptUuid,
    In scriptUuid (PolicyOps.findScriptUuids (policy_condition policyData)) ->
    exists a,
      answered (fun t' => readScript state t' (idVal scriptUuid))
        (ReadScript (idVal scriptUuid)) t evs a /\
      stored (script_id a) (PolicyOps.script b).

(** What a policy export that returns has put in the bundle for the
    policies [policies]: the metadata, the policies under their ids, and
    dependency collections that hold answers of the server only, and those
    of every prerequisite (with [prereqs]) and script (with [deps]) of
    every policy. *)
Definition policiesExported (state : State) (options : PolicyOps.PolicyExportOptions)
  (t : Trace) (evs : list Event) (policies : list PolicySkeleton)
  (bundle : PolicyOps.PolicyExportInterface) : Prop :=
  PolicyOps.meta bundle = Some (getMetadata state) /\
  PolicyOps.policy bundle = storedPolicies policies [] /\
  (forall k v, getProp k (PolicyOps.resourcetype bundle) = Some v ->
               resourceTypeFetched state t evs k v) /\
  (forall k v, getProp k (PolicyOps.policyset bundle) = Some v ->
               policySetFetched state t evs k v) /\
  (forall k s, getProp k (PolicyOps.script bundle) = Some s ->
               policyScriptFetched state (PolicyOps.useStringArrays options) t evs k s) /\
  (PolicyOps.prereqs options = true ->
   Forall (fun p => prerequisitesStored p bundle) policies) /\
  (PolicyOps.deps options = true ->
   Forall (fun p => dependenciesStored state t evs p bundle) policies).

(** ** OAuth2 client export *)

(** The client as the export stores it: with the provider under [_provider]. *)
Definition withProvider (provider : JsVal) (c : OAuth2ClientSkeleton) : OAuth2ClientSkeleton :=
  mkClient (client_id c) (setProp "_provider" provider (client_attrs c)).

(** [exportData.application] after the clients have been stored, in order,
    each under its [_id]. *)
Definition storedClients (provider : JsVal) (clients : list OAuth2ClientSkeleton)
  (stored : list (string * OAuth2ClientSkeleton)) : list (string * OAuth2ClientSkeleton) :=
  fold_left (fun acc c => setProp (client_id c) (withProvider provider c) acc) clients stored.

(** [k] is the property key of a script reference of one of the clients. *)
Definition referencedBy (clients : list OAuth2ClientSkeleton) (k : string) : Prop :=
  exists c v, In c clients /\ In v (scriptReferences c) /\ toPropertyKey v = k.

(** What a client export that returns has put in the bundle for the clients
    [clients]: the metadata, the clients under their ids with the provider
    attached, and a script collection that holds, under the property keys
    of script references of these clients, what the server answered to the
    reads of them (with [deps]: every reference is found there, unless its
    read failed). *)
Definition clientsExported (state : State) (options : OAuth2ClientOps.OAuth2ClientExportOptions)
  (provider : JsVal) (t : Trace) (evs : list Event) (clients : list OAuth2ClientSkeleton)
  (bundle : OAuth2ClientOps.OAuth2ClientExportInterface) : Prop :=
  OAuth2ClientOps.meta bundle = Some (getMetadata state) /\
  OAuth2ClientOps.application bundle = storedClients provider clients [] /\
  exists scripts,
    OAuth2ClientOps.script bundle = Some scripts /\
    (forall k s, getProp k scripts = Some s ->
                 scriptFetched state (OAuth2ClientOps.useStringArrays options) t evs k s /\
                 referencedBy clients k) /\
    (OAuth2ClientOps.deps options = true ->
     forall c v, In c clients -> In v (scriptReferences c) ->
                 lookup (toPropertyKey v) scripts <> Absent \/
                 fetchFailed evs (toPropertyKey v)) /\
    (OAuth2ClientOps.deps options = false -> scripts = []).
(** * Lemmas *)

(** ** Sets and condition trees *)

Section PolicyConditionInduction.
Variable P : PolicyCondition -> Prop.
Hypothesis step :
  forall t s single conds,
    (forall x, single = Some x -> P x) ->
    (forall l, conds = Some l -> Forall P l) ->
    P (mkCondition t s single conds).

Fixpoint PolicyCondition_nested_ind (c : PolicyCondition) : P c :=
  match c with
  | mkCondition t s single conds =>
      step t s single conds
        (fun x (e : single = Some x) =>
           match single as o return o = Some x -> P x with
           | Some y => fun e' => match e' in _ = z return
                                   match z with Some x' => P x' | None => True end
                                 with eq_refl => PolicyCondition_nested_ind y end
           | None => fun e' => match e' in _ = z return
                                 match z with Some x' => P x' | None => True end
                               with eq_refl => I end
           end e)
        (fun l (e : conds = Some l) =>
           match conds as o return o = Some l -> Forall P l with
           | Some l' => fun e' =>
               match e' in _ = z return
                 match z with Some l0 => Forall P l0 | None => True end
               with eq_refl =>
                 (fix all (xs : list PolicyCondition) : Forall P xs :=
                    match xs with
                    | [] => Forall_nil P
                    | x :: rest => Forall_cons x (PolicyCondition_nested_ind x) (all rest)
                    end) l'
               end
           | None => fun e' => match e' in _ = z return
                                 match z with Some l0 => Forall P l0 | None => True end
                               with eq_refl => I end
           end e)
  end.

End PolicyConditionInduction.

Section SetOfFacts.
Context {A : Type} (eqb : A -> A -> bool).
Hypothesis eqb_eq : forall x y, eqb x y = true <-> x = y.

Lemma existsb_eqb_In (x : A) (acc : list A) : existsb (eqb x) acc = true <-> In x acc.
Proof.
  rewrite existsb_exists. split.
  - intros [y [Hy He]]. apply eqb_eq in He. now subst.
  - intros H. exists x. split; [exact H | now apply eqb_eq].
Qed.

Lemma setAdd_In (acc : list A) (x y : A) : In y (setAdd eqb acc x) <-> In y acc \/ y = x.
Proof.
  unfold setAdd. destruct (existsb (eqb x) acc) eqn:E.
  - apply existsb_eqb_In in E. split; [now left | intros [H | ->]; assumption].
  - rewrite in_app_iff. simpl. intuition.
Qed.

Lemma setAdd_NoDup (acc : list A) (x : A) : NoDup acc -> NoDup (setAdd eqb acc x).
Proof.
  intros H. unfold setAdd. destruct (existsb (eqb x) acc) eqn:E; [exact H |].
  assert (Hx : ~ In x acc).
  { intros Hin. apply existsb_eqb_In in Hin. congruence. }
  clear E. induction H as [| a l Ha Hl IH]; simpl.
  - constructor; [intros [] | constructor].
  - constructor.
    + rewrite in_app_iff. simpl. intros [Hin | [-> | []]].
      * now apply Ha.
      * apply Hx. now left.
    + apply IH. intros Hin. apply Hx. now right.
Qed.

Lemma fold_setAdd_In (xs acc : list A) (y : A) :
  In y (fold_left (setAdd eqb) xs acc) <-> In y acc \/ In y xs.
Proof.
  revert acc. induction xs as [| x xs IH]; intros acc; simpl.
  - intuition.
  - rewrite IH, setAdd_In. intuition; subst; auto.
Qed.

Lemma fold_setAdd_NoDup (xs acc : list A) :
  NoDup acc -> NoDup (fold_left (setAdd eqb) xs acc).
Proof.
  revert acc. induction xs as [| x xs IH]; intros acc H; simpl.
  - exact H.
  - apply IH. now apply setAdd_NoDup.
Qed.

Lemma setOf_In (xs : list A) (y : A) : In y (setOf eqb xs) <-> In y xs.
Proof.
  unfold setOf. rewrite fold_setAdd_In. simpl. intuition.
Qed.

Lemma setOf_NoDup (xs : list A) : NoDup (setOf eqb xs).
Proof.
  unfold setOf. apply fold_setAdd_NoDup. constructor.
Qed.

End SetOfFacts.

Lemma optStringEqb_eq (a b : option string) : optStringEqb a b = true <-> a = b.
Proof.
  destruct a as [x |], b as [y |]; simpl; try (split; congruence).
  rewrite String.eqb_eq. split; congruence.
Qed.

Lemma findScriptUuidsOf_In (c : PolicyCondition) (id : option string) :
  In id (PolicyOps.findScriptUuidsOf c) <-> ScriptLeaf c id.
Proof.
  revert id. induction c as [t s single conds IHs IHc] using PolicyCondition_nested_ind.
  intros id. simpl. rewrite (setOf_In _ optStringEqb_eq).
  destruct t as [t |].
  2:{ split; [intros [] |].
      inversion 1 as [c0 Ht | c0 x i [Ht | [Ht | Ht]] | c0 x l i [Ht | [Ht | Ht]]];
        subst; simpl in *; discriminate. }
  destruct ((t =? "AND") || (t =? "OR") || (t =? "NOT")) eqn:Ecomb.
  - assert (Hcomb : isCombinator (mkCondition (Some t) s single conds)).
    { unfold isCombinator; simpl.
      apply orb_true_iff in Ecomb. destruct Ecomb as [Ecomb | E3].
      - apply orb_true_iff in Ecomb. destruct Ecomb as [E1 | E2].
        + apply String.eqb_eq in E1. subst. now left.
        + apply String.eqb_eq in E2. subst. right. now left.
      - apply String.eqb_eq in E3. subst. right. now right. }
    rewrite in_app_iff. split.
    + intros [H | H].
      * destruct single as [x |]; [| destruct H].
        apply (IHs x eq_refl) in H.
        apply (leaf_single _ x); [exact Hcomb | reflexivity | exact H].
      * destruct conds as [l |]; [| destruct H].
        apply in_flat_map in H. destruct H as [child [Hin H]].
        specialize (IHc l eq_refl). rewrite Forall_forall in IHc.
        apply (IHc child Hin) in H.
        apply (leaf_array _ child l); [exact Hcomb | reflexivity | exact Hin | exact H].
    + inversion 1 as [c0 Ht | c0 x i _ Hc Hl | c0 x l i _ Hc Hin Hl]; subst; simpl in *.
      * injection Ht as ->. simpl in Ecomb. discriminate.
      * subst single. left. now apply (IHs x eq_refl).
      * subst conds. right. apply in_flat_map. exists x. split; [exact Hin |].
        specialize (IHc l eq_refl). rewrite Forall_forall in IHc. now apply (IHc x Hin).
  - assert (Hnot : ~ isCombinator (mkCondition (Some t) s single conds)).
    { unfold isCombinator; simpl. intros [H | [H | H]]; injection H as ->;
        simpl in Ecomb; discriminate. }
    destruct (t =? "Script") eqn:Es.
    + apply String.eqb_eq in Es. subst t. simpl. split.
      * intros [<- | []]. now apply (leaf_here (mkCondition (Some "Script") s single conds)).
      * inversion 1; subst; simpl in *; [now left | contradiction | contradiction].
    + split; [intros [] |].
      inversion 1; subst; simpl in *; try contradiction.
      match goal with H : Some _ = Some "Script" |- _ => injection H as -> end.
      simpl in Es. discriminate.
Qed.

Lemma findScriptUuidsOf_NoDup (c : PolicyCondition) : NoDup (PolicyOps.findScriptUuidsOf c).
Proof.
  destruct c as [t s single conds]. simpl. apply (setOf_NoDup _ optStringEqb_eq).
Qed.

(** ** Records *)

Section RecordFacts.
Context {V : Type}.
Implicit Types (o : list (string * V)) (k : string).

Lemma getProp_cons_same k (v : V) o : getProp k ((k, v) :: o) = Some v.
Proof. cbn [getProp]. now rewrite String.eqb_refl. Qed.

Lemma getProp_app_notin k o1 o2 :
  ~ In k (objectKeys o1) -> getProp k (o1 ++ o2) = getProp k o2.
Proof.
  induction o1 as [| [k' v'] o1 IH]; intros H; [reflexivity |].
  cbn [app getProp]. destruct (k' =? k) eqn:E.
  - apply String.eqb_eq in E. subst. exfalso. apply H. now left.
  - apply IH. intros Hin. apply H. now right.
Qed.

Lemma getProp_None k o : getProp k o = None <-> ~ In k (objectKeys o).
Proof.
  induction o as [| [k' v'] o IH]; cbn [getProp objectKeys map In fst].
  - split; [intros _ [] | reflexivity].
  - destruct (k' =? k) eqn:E.
    + apply String.eqb_eq in E. subst. split; [discriminate | intros H; exfalso; auto].
    + apply String.eqb_neq in E. rewrite IH. unfold objectKeys. intuition.
Qed.

Lemma getProp_Some_key k (v : V) o : getProp k o = Some v -> In k (objectKeys o).
Proof.
  intros H. destruct (in_dec string_dec k (objectKeys o)) as [Hin | Hout]; [exact Hin |].
  apply getProp_None in Hout. congruence.
Qed.

Lemma getProp_In k (v : V) o : getProp k o = Some v -> In (k, v) o.
Proof.
  induction o as [| [k' v'] o IH]; cbn [getProp]; [discriminate |].
  destruct (k' =? k) eqn:E.
  - apply String.eqb_eq in E. intros [= ->]. subst. now left.
  - intros H. right. auto.
Qed.

Lemma lookup_Absent k o :
  lookup k o = Absent <-> getProp k o = None /\ inherited k = false.
Proof.
  unfold lookup. destruct (getProp k o); [split; [discriminate | intros [H _]; discriminate] |].
  destruct (inherited k); split; try discriminate; auto. intros [_ H]. discriminate.
Qed.

(** *** Replacing an own property *)

Lemma replaceProp_cons_same k (v v' : V) o : replaceProp k v ((k, v') :: o) = (k, v) :: o.
Proof. cbn [replaceProp]. now rewrite String.eqb_refl. Qed.

Lemma replaceProp_app_notin k (v : V) o1 o2 :
  ~ In k (objectKeys o1) -> replaceProp k v (o1 ++ o2) = o1 ++ replaceProp k v o2.
Proof.
  induction o1 as [| [k' v'] o1 IH]; intros H; [reflexivity |].
  cbn [app replaceProp]. destruct (k' =? k) eqn:E.
  - apply String.eqb_eq in E. subst. exfalso. apply H. now left.
  - f_equal. apply IH. intros Hin. apply H. now right.
Qed.

Lemma objectKeys_replaceProp k (v : V) o : objectKeys (replaceProp k v o) = objectKeys o.
Proof.
  induction o as [| [k' v'] o IH]; [reflexivity |]. cbn [replaceProp].
  destruct (k' =? k) eqn:E; cbn [objectKeys map fst].
  - apply String.eqb_eq in E. now subst.
  - f_equal. exact IH.
Qed.

Lemma getProp_replaceProp_same k (v v0 : V) o :
  getProp k o = Some v0 -> getProp k (replaceProp k v o) = Some v.
Proof.
  induction o as [| [k' v'] o IH]; cbn [getProp replaceProp]; [discriminate |].
  destruct (k' =? k) eqn:E; cbn [getProp].
  - intros _. now rewrite String.eqb_refl.
  - rewrite E. exact IH.
Qed.

Lemma getProp_replaceProp_other k k0 (v : V) o :
  k0 <> k -> getProp k (replaceProp k0 v o) = getProp k o.
Proof.
  intros Hne. induction o as [| [k' v'] o IH]; cbn [replaceProp getProp]; [reflexivity |].
  destruct (k' =? k0) eqn:E; cbn [getProp].
  - apply String.eqb_eq in E. subst k'. apply String.eqb_neq in Hne. now rewrite Hne.
  - destruct (k' =? k); [reflexivity | exact IH].
Qed.

Lemma replaceProp_replaceProp k (v v' : V) o :
  replaceProp k v (replaceProp k v' o) = replaceProp k v o.
Proof.
  induction o as [| [k0 v0] o IH]; cbn [replaceProp]; [reflexivity |].
  destruct (k0 =? k) eqn:E; cbn [replaceProp].
  - now rewrite String.eqb_refl.
  - now rewrite E, IH.
Qed.

Lemma In_replaceProp kv k (v : V) o : In kv (replaceProp k v o) -> kv = (k, v) \/ In kv o.
Proof.
  induction o as [| [k' v'] o IH]; cbn [replaceProp]; [intros [] |].
  destruct (k' =? k); cbn [In].
  - intros [<- | H]; auto.
  - intros [<- | H]; auto. destruct (IH H); auto.
Qed.

(** *** A new array index *)

Lemma objectKeys_insertIndex_In n k k' (v : V) o :
  In k' (objectKeys (insertIndex n k v o)) <-> k' = k \/ In k' (objectKeys o).
Proof.
  induction o as [| [k0 v0] o IH]; cbn [insertIndex objectKeys map fst In].
  - intuition.
  - destruct (arrayIndex k0) as [m |]; [destruct (m <? n)%N |];
      cbn [map fst In]; unfold objectKeys in IH; try rewrite IH; intuition.
Qed.

Lemma In_insertIndex n kv k (v : V) o :
  In kv (insertIndex n k v o) <-> kv = (k, v) \/ In kv o.
Proof.
  induction o as [| [k0 v0] o IH]; cbn [insertIndex In].
  - intuition.
  - destruct (arrayIndex k0) as [m |]; [destruct (m <? n)%N |];
      cbn [In]; try rewrite IH; intuition.
Qed.

Lemma getProp_insertIndex_same n k (v : V) o :
  getProp k o = None -> getProp k (insertIndex n k v o) = Some v.
Proof.
  induction o as [| [k0 v0] o IH]; cbn [insertIndex getProp].
  - intros _. now rewrite String.eqb_refl.
  - destruct (k0 =? k) eqn:E; [discriminate |]. intros H.
    destruct (arrayIndex k0) as [m |]; [destruct (m <? n)%N |]; cbn [getProp];
      rewrite ?E, ?String.eqb_refl; auto.
Qed.

Lemma getProp_insertIndex_other n k k0 (v : V) o :
  k0 <> k -> getProp k (insertIndex n k0 v o) = getProp k o.
Proof.
  intros Hne. apply String.eqb_neq in Hne.
  induction o as [| [k1 v1] o IH]; cbn [insertIndex getProp].
  - now rewrite Hne.
  - destruct (arrayIndex k1) as [m |]; [destruct (m <? n)%N |]; cbn [getProp];
      rewrite ?Hne, ?IH; reflexivity.
Qed.

(** *** Assignment *)

Lemma setProp_present k (v v0 : V) o :
  getProp k o = Some v0 -> setProp k v o = replaceProp k v o.
Proof. intros H. unfold setProp. now rewrite H. Qed.

Lemma setProp_named k (v : V) o :
  getProp k o = None -> k <> "__proto__" -> arrayIndex k = None ->
  setProp k v o = o ++ [(k, v)].
Proof.
  intros H Hp Hi. unfold setProp. rewrite H, Hi.
  apply String.eqb_neq in Hp. now rewrite Hp.
Qed.

Lemma setProp_cons_same k (v v' : V) o : setProp k v ((k, v') :: o) = (k, v) :: o.
Proof.
  rewrite (setProp_present k v v'); [apply replaceProp_cons_same | apply getProp_cons_same].
Qed.

(** The property [k] of the second part is replaced where it is. *)
Lemma setProp_app_present k (v v' : V) o1 o2 :
  ~ In k (objectKeys o1) ->
  setProp k v (o1 ++ (k, v') :: o2) = o1 ++ (k, v) :: o2.
Proof.
  intros H. rewrite (setProp_present k v v').
  - rewrite (replaceProp_app_notin _ _ _ _ H). now rewrite replaceProp_cons_same.
  - rewrite (getProp_app_notin _ _ _ H). apply getProp_cons_same.
Qed.

Lemma objectKeys_setProp_present k (v : V) o :
  In k (objectKeys o) -> objectKeys (setProp k v o) = objectKeys o.
Proof.
  intros H. destruct (getProp k o) as [v0 |] eqn:E.
  - rewrite (setProp_present k v v0 o E). apply objectKeys_replaceProp.
  - apply getProp_None in E. contradiction.
Qed.

Lemma getProp_setProp_present k (v v0 : V) o :
  getProp k o = Some v0 -> getProp k (setProp k v o) = Some v.
Proof.
  intros H. rewrite (setProp_present k v v0 o H). now apply (getProp_replaceProp_same k v v0).
Qed.

Lemma getProp_setProp_same k (v : V) o :
  k <> "__proto__" -> getProp k (setProp k v o) = Some v.
Proof.
  intros Hp. destruct (getProp k o) as [v0 |] eqn:E.
  - now apply (getProp_setProp_present k v v0).
  - unfold setProp. rewrite E. apply String.eqb_neq in Hp. rewrite Hp.
    destruct (arrayIndex k) as [n |].
    + now apply getProp_insertIndex_same.
    + assert (Hout : ~ In k (objectKeys o)) by now apply getProp_None.
      rewrite (getProp_app_notin _ _ _ Hout). apply getProp_cons_same.
Qed.

Lemma setProp_setProp k (v v' v0 : V) o :
  getProp k o = Some v0 -> setProp k v (setProp k v' o) = setProp k v o.
Proof.
  intros H. rewrite (setProp_present k v v0 o H), (setProp_present k v' v0 o H).
  rewrite (setProp_present k v v').
  - apply replaceProp_replaceProp.
  - now apply (getProp_replaceProp_same k v' v0).
Qed.

Lemma getProp_setProp_other k k0 (v : V) o : k0 <> k -> getProp k (setProp k0 v o) = getProp k o.
Proof.
  intros Hne. unfold setProp. destruct (getProp k0 o) as [v0 |] eqn:E.
  - now apply getProp_replaceProp_other.
  - destruct (k0 =? "__proto__"); [reflexivity |].
    destruct (arrayIndex k0) as [n |].
    + now apply getProp_insertIndex_other.
    + clear E. induction o as [| [k1 v1] o IH]; cbn [app getProp].
      * apply String.eqb_neq in Hne. now rewrite Hne.
      * destruct (k1 =? k); [reflexivity | exact IH].
Qed.

Lemma In_setProp kv k (v : V) o : In kv (setProp k v o) -> kv = (k, v) \/ In kv o.
Proof.
  unfold setProp. destruct (getProp k o).
  - apply In_replaceProp.
  - destruct (k =? "__proto__"); [now right |].
    destruct (arrayIndex k) as [n |].
    + apply In_insertIndex.
    + intros H. apply in_app_or in H. destruct H as [H | [<- | []]]; auto.
Qed.

Lemma objectKeys_setProp_In k k0 (v : V) o :
  In k (objectKeys (setProp k0 v o)) -> k = k0 \/ In k (objectKeys o).
Proof.
  unfold objectKeys. intros H. apply in_map_iff in H. destruct H as [[k' v'] [<- H]].
  apply In_setProp in H. destruct H as [[= -> ->] | H]; [now left | right].
  apply in_map_iff. now exists (k', v').
Qed.

Lemma objectKeys_setProp_same k (v : V) o :
  k <> "__proto__" -> In k (objectKeys (setProp k v o)).
Proof.
  intros Hp. apply (getProp_Some_key k v). now apply getProp_setProp_same.
Qed.

Lemma objectKeys_setProp_keeps k k0 (v : V) o :
  In k (objectKeys o) -> In k (objectKeys (setProp k0 v o)).
Proof.
  intros H. destruct (string_dec k0 k) as [-> | Hne].
  - now rewrite objectKeys_setProp_present.
  - destruct (getProp k o) as [v0 |] eqn:E.
    + apply (getProp_Some_key k v0). now rewrite getProp_setProp_other.
    + apply getProp_None in E. contradiction.
Qed.

Lemma Forall_setProp (P : string * V -> Prop) k (v : V) o :
  Forall P o -> P (k, v) -> Forall P (setProp k v o).
Proof.
  intros Ho Hv. apply Forall_forall. intros kv H.
  apply In_setProp in H. destruct H as [-> | H]; [exact Hv |].
  rewrite Forall_forall in Ho. now apply Ho.
Qed.

Lemma deleteProp_absent k o : getProp k o = None -> deleteProp k o = o.
Proof.
  unfold deleteProp. induction o as [| [k' v'] o IH]; cbn [getProp filter fst]; [reflexivity |].
  destruct (k' =? k); [discriminate |]. cbn [negb]. intros H. now rewrite IH.
Qed.




Lemma objectKeys_deleteProp k k' o :
  In k' (objectKeys (deleteProp k o)) <-> k' <> k /\ In k' (objectKeys o).
Proof.
  unfold objectKeys, deleteProp. rewrite !in_map_iff. split.
  - intros [[k0 v0] [<- H]]. apply filter_In in H. destruct H as [H Hk]. cbn [fst] in *.
    apply negb_true_iff, String.eqb_neq in Hk. split; [exact Hk |]. now exists (k0, v0).
  - intros [Hne [[k0 v0] [<- H]]]. exists (k0, v0). split; [reflexivity |].
    apply filter_In. split; [exact H |]. cbn [fst] in *.
    now apply negb_true_iff, String.eqb_neq.
Qed.


(** *** What a read finds after an assignment *)

Lemma inherited_proto : inherited "__proto__" = true.
Proof. reflexivity. Qed.

Lemma lookup_Absent_named k o : lookup k o = Absent -> k <> "__proto__".
Proof.
  intros H. apply lookup_Absent in H. destruct H as [_ H]. intros ->.
  rewrite inherited_proto in H. discriminate.
Qed.

Lemma getProp_setProp_inv k k0 (v s : V) o :
  getProp k (setProp k0 v o) = Some s -> (k = k0 /\ s = v) \/ getProp k o = Some s.
Proof.
  intros H. destruct (string_dec k0 k) as [-> | Hne].
  - destruct (string_dec k "__proto__") as [-> | Hp].
    + unfold setProp in H. destruct (getProp "__proto__" o) as [v0 |] eqn:E.
      * rewrite (getProp_replaceProp_same _ _ v0 _ E) in H. left. split; congruence.
      * cbn in H. right. congruence.
    + rewrite (getProp_setProp_same _ _ _ Hp) in H. left. split; congruence.
  - right. now rewrite (getProp_setProp_other _ _ _ _ Hne) in H.
Qed.

Lemma getProp_setProp_keeps k k0 (v s : V) o :
  getProp k0 o = None -> getProp k o = Some s -> getProp k (setProp k0 v o) = Some s.
Proof.
  intros H0 H. rewrite getProp_setProp_other; [exact H |]. intros ->. congruence.
Qed.

Lemma lookup_setProp_inv k k0 (v : V) o :
  lookup k (setProp k0 v o) <> Absent -> k = k0 \/ lookup k o <> Absent.
Proof.
  intros H. destruct (string_dec k0 k) as [-> | Hne]; [now left | right].
  unfold lookup in *. now rewrite (getProp_setProp_other _ _ _ _ Hne) in H.
Qed.

Lemma lookup_own k (s : V) o : getProp k o = Some s -> lookup k o <> Absent.
Proof. intros H. unfold lookup. rewrite H. discriminate. Qed.

Lemma lookup_kept k o o' :
  (forall s : V, getProp k o = Some s -> getProp k o' = Some s) ->
  lookup k o <> Absent -> lookup k o' <> Absent.
Proof.
  intros Hk. unfold lookup. destruct (getProp k o) as [s |].
  - rewrite (Hk s eq_refl). discriminate.
  - destruct (getProp k o'); [discriminate |]. auto.
Qed.

Lemma NoDup_objectKeys_replaceProp k (v : V) o :
  NoDup (objectKeys o) -> NoDup (objectKeys (replaceProp k v o)).
Proof. now rewrite objectKeys_replaceProp. Qed.

Lemma NoDup_objectKeys_insertIndex n k (v : V) o :
  ~ In k (objectKeys o) -> NoDup (objectKeys o) -> NoDup (objectKeys (insertIndex n k v o)).
Proof.
  induction o as [| [k0 v0] o IH]; intros Hout Hnd; cbn [insertIndex].
  - repeat constructor. intros [].
  - destruct (arrayIndex k0) as [m |].
    + destruct (m <? n)%N.
      * cbn [objectKeys map fst] in *. inversion Hnd as [| k' ks Hk Hnd']; subst.
        constructor.
        -- intros Hin. apply (objectKeys_insertIndex_In n k k0 v o) in Hin.
           destruct Hin as [-> | Hin]; [apply Hout; now left | contradiction].
        -- apply IH; [intros Hin; apply Hout; now right | exact Hnd'].
      * cbn [objectKeys map fst] in *. now constructor.
    + cbn [objectKeys map fst] in *. now constructor.
Qed.

(** An assignment keeps the keys distinct. *)
Lemma NoDup_objectKeys_setProp k (v : V) o :
  NoDup (objectKeys o) -> NoDup (objectKeys (setProp k v o)).
Proof.
  intros Hnd. unfold setProp. destruct (getProp k o) as [v0 |] eqn:E.
  - now apply NoDup_objectKeys_replaceProp.
  - destruct (k =? "__proto__"); [exact Hnd |].
    apply getProp_None in E.
    destruct (arrayIndex k) as [n |].
    + now apply NoDup_objectKeys_insertIndex.
    + unfold objectKeys in *. rewrite map_app. cbn [map fst].
      apply NoDup_app_remove_l with (l := []). cbn [app].
      apply Permutation.Permutation_NoDup with (l := k :: map fst o).
      * apply Permutation.Permutation_cons_append.
      * now constructor.
Qed.

End RecordFacts.
(** ** Computations *)

Lemma emits_mono {S A} (m : M S A) s (Q Q' : list Event -> S -> Error + A -> Prop) :
  emits m s Q -> (forall evs s' r, Q evs s' r -> Q' evs s' r) -> emits m s Q'.
Proof.
  intros H HQ t. destruct (H t) as [evs [Ht HQ0]]. exists evs. auto.
Qed.

Lemma emits_ret {S A} (a : A) (s : S) Q : Q [] s (inr a) -> emits (ret a) s Q.
Proof. intros H t. exists []. simpl. rewrite app_nil_r. auto. Qed.

Lemma emits_throw {S A} (e : Error) (s : S) (Q : list Event -> S -> Error + A -> Prop) :
  Q [] s (inl e) -> emits (throw e) s Q.
Proof. intros H t. exists []. simpl. rewrite app_nil_r. auto. Qed.

Lemma emits_get {S} (s : S) Q : Q [] s (inr s) -> emits get s Q.
Proof. intros H t. exists []. simpl. rewrite app_nil_r. auto. Qed.

Lemma emits_modify {S} (f : S -> S) (s : S) Q : Q [] (f s) (inr tt) -> emits (modify f) s Q.
Proof. intros H t. exists []. simpl. rewrite app_nil_r. auto. Qed.

Lemma emits_remote {S A} (c : Call) (answer : Trace -> Rejection + A) (s : S) Q :
  (forall a, Q [mkEvent c None] s (inr a)) ->
  (forall r, Q [mkEvent c (Some (Thrown r))] s (inl (Thrown r))) ->
  emits (remote c answer) s Q.
Proof.
  intros Hok Hfail t. unfold remote. cbn [fst snd].
  destruct (answer t) as [r | a]; eexists; cbn [fst snd]; eauto.
Qed.

Lemma emits_bind {S A B} (m : M S A) (k : A -> M S B) s Q :
  emits m s (fun evs1 s1 r1 =>
               match r1 with
               | inr a => emits (k a) s1 (fun evs2 s2 r => Q (evs1 ++ evs2) s2 r)
               | inl e => Q evs1 s1 (inl e)
               end) ->
  emits (bind m k) s Q.
Proof.
  intros H t. destruct (H t) as [evs1 [Ht H1]]. unfold bind.
  destruct (m (t, s)) as [[t1 s1] [e | a]]; cbn [fst snd] in *; subst t1.
  - exists evs1. auto.
  - destruct (H1 (t ++ evs1)) as [evs2 [Ht2 H2]].
    exists (evs1 ++ evs2). rewrite app_assoc. auto.
Qed.

Lemma emits_tryCatch {S A} (m : M S A) (h : Error -> M S A) s Q :
  emits m s (fun evs1 s1 r1 =>
               match r1 with
               | inr a => Q evs1 s1 (inr a)
               | inl e => emits (h e) s1 (fun evs2 s2 r => Q (evs1 ++ evs2) s2 r)
               end) ->
  emits (tryCatch m h) s Q.
Proof.
  intros H t. destruct (H t) as [evs1 [Ht H1]]. unfold tryCatch.
  destruct (m (t, s)) as [[t1 s1] [e | a]]; cbn [fst snd] in *; subst t1.
  - destruct (H1 (t ++ evs1)) as [evs2 [Ht2 H2]].
    exists (evs1 ++ evs2). rewrite app_assoc. auto.
  - exists evs1. auto.
Qed.

(** A loop, by an invariant [I done acc evs s] on the items done, the
    local variables, the events so far and the object. *)
Lemma emits_forOf {S X Acc} (body : Acc -> X -> M S Acc)
  (I : list X -> Acc -> list Event -> S -> Prop)
  (Q : list Event -> S -> Error + Acc -> Prop) (xs : list X) :
  (forall done x rest acc evs s,
     xs = done ++ x :: rest ->
     I done acc evs s ->
     emits (body acc x) s
       (fun evs2 s2 r => match r with
                         | inr acc' => I (done ++ [x]) acc' (evs ++ evs2) s2
                         | inl e => Q (evs ++ evs2) s2 (inl e)
                         end)) ->
  (forall acc evs s, I xs acc evs s -> Q evs s (inr acc)) ->
  forall acc s, I [] acc [] s -> emits (forOf xs body acc) s Q.
Proof.
  intros Hbody Hend.
  assert (G : forall rest done, xs = done ++ rest ->
              forall acc evs s, I done acc evs s ->
                emits (forOf rest body acc) s (fun evs2 s2 r => Q (evs ++ evs2) s2 r)).
  { induction rest as [| x rest IH]; intros done Hxs acc evs s HI.
    - rewrite app_nil_r in Hxs. subst done. apply emits_ret.
      rewrite app_nil_r. now apply Hend.
    - cbn [forOf]. apply emits_bind.
      eapply emits_mono; [apply (Hbody done x rest acc evs s Hxs HI) |].
      intros evs2 s2 [e | acc'] H; [exact H |].
      eapply emits_mono.
      + apply (IH (done ++ [x])); [| exact H].
        rewrite <- app_assoc. exact Hxs.
      + intros evs3 s3 r H3. cbn beta in H3. now rewrite app_assoc. }
  intros acc s HI. now apply (G xs [] eq_refl acc [] s).
Qed.

Lemma emits_withLocal {S L A} (init : L) (m : M L A) (s : S) Q :
  emits m init (fun evs _ r => Q evs s r) -> emits (withLocal init m) s Q.
Proof.
  intros H t. destruct (H t) as [evs [Ht HQ]]. exists evs. unfold withLocal.
  cbn [fst snd]. destruct (m (t, init)) as [[t' l] r]. cbn [fst snd] in *. auto.
Qed.

Lemma emits_zoom {S P A} (proj : S -> P) (inj : P -> S -> S) (m : M P A) (s : S) Q :
  emits m (proj s) (fun evs p r => Q evs (inj p s) r) -> emits (zoom proj inj m) s Q.
Proof.
  intros H t. destruct (H t) as [evs [Ht HQ]]. exists evs. unfold zoom.
  cbn [fst snd]. destruct (m (t, proj s)) as [[t' p] r]. cbn [fst snd] in *. auto.
Qed.

Lemma emits_withVar {S L A} (init : L) (m : M (S * L) A) (s : S) Q :
  emits m (s, init) (fun evs sl r => Q evs (fst sl) r) -> emits (withVar init m) s Q.
Proof.
  intros H t. destruct (H t) as [evs [Ht HQ]]. exists evs. unfold withVar.
  cbn [fst snd]. destruct (m (t, (s, init))) as [[t' [s' l]] r]. cbn [fst snd] in *. auto.
Qed.

Lemma emits_outer {S L A} (m : M S A) (sl : S * L) Q :
  emits m (fst sl) (fun evs s' r => Q evs (s', snd sl) r) -> emits (outer m) sl Q.
Proof. intros H. unfold outer. apply emits_zoom. exact H. Qed.

Lemma emits_getVar {S L} (sl : S * L) Q : Q [] sl (inr (snd sl)) -> emits getVar sl Q.
Proof. intros H t. exists []. simpl. rewrite app_nil_r. auto. Qed.

Lemma emits_pushError {S} (e : Error) (sl : S * list Error) Q :
  Q [] (fst sl, snd sl ++ [e]) (inr tt) -> emits (pushError e) sl Q.
Proof. intros H. unfold pushError. now apply emits_modify. Qed.

Lemma emits_attempt {S A} (m : M S A) (wrap : Error -> Error) (s : S) Q :
  emits m s (fun evs s' r => match r with
                             | inr _ => Q evs s' (inr [])
                             | inl e => Q evs s' (inr [wrap e])
                             end) ->
  emits (attempt m wrap) s Q.
Proof.
  intros H. unfold attempt. apply emits_tryCatch, emits_bind.
  eapply emits_mono; [exact H |].
  intros evs s' [e | a] H'.
  - apply emits_ret. now rewrite app_nil_r.
  - apply emits_ret. now rewrite app_nil_r.
Qed.

Lemma emits_tryPush {S A} (m : M S A) (wrap : Error -> Error) (sl : S * list Error) Q :
  emits m (fst sl)
    (fun evs s' r => match r with
                     | inr _ => Q evs (s', snd sl) (inr tt)
                     | inl e => Q evs (s', snd sl ++ [wrap e]) (inr tt)
                     end) ->
  emits (tryPush m wrap) sl Q.
Proof.
  intros H. unfold tryPush. apply emits_tryCatch, emits_bind, emits_outer.
  eapply emits_mono; [exact H |].
  intros evs s' [e | a] H'.
  - apply emits_pushError. now rewrite app_nil_r.
  - apply emits_ret. now rewrite app_nil_r.
Qed.

Lemma failures_app (a b : list Event) : failures (a ++ b) = failures a ++ failures b.
Proof. unfold failures. apply flat_map_app. Qed.

Lemma calls_app (a b : list Event) : calls (a ++ b) = calls a ++ calls b.
Proof. unfold calls. apply map_app. Qed.

Lemma remote_ok {S A} (c : Call) (answer : Trace -> Rejection + A) (t : Trace) (s : S) a :
  answer t = inr a -> remote c answer (t, s) = ((t ++ [mkEvent c None], s), inr a).
Proof. intros H. unfold remote. cbn [fst snd]. now rewrite H. Qed.

Lemma remote_fail {S A} (c : Call) (answer : Trace -> Rejection + A) (t : Trace) (s : S) r :
  answer t = inl r ->
  remote c answer (t, s) = ((t ++ [mkEvent c (Some (Thrown r))], s), inl (Thrown r)).
Proof. intros H. unfold remote. cbn [fst snd]. now rewrite H. Qed.


(** One step of a computation, by its head. *)
Ltac estep :=
  lazymatch goal with
  | |- emits (bind _ _) _ _ => apply emits_bind
  | |- emits (tryCatch _ _) _ _ => apply emits_tryCatch
  | |- emits (ret _) _ _ => apply emits_ret
  | |- emits (throw _) _ _ => apply emits_throw
  | |- emits get _ _ => apply emits_get
  | |- emits (modify _) _ _ => apply emits_modify
  | |- emits (remote _ _) _ _ => apply emits_remote
  | |- emits (outer _) _ _ => apply emits_outer
  | |- emits getVar _ _ => apply emits_getVar
  | |- emits (withVar _ _) _ _ => apply emits_withVar
  | |- emits (withLocal _ _) _ _ => apply emits_withLocal
  | |- emits (attempt _ _) _ _ => apply emits_attempt
  | |- emits (tryPush _ _) _ _ => apply emits_tryPush
  | |- emits (zoom _ _ _) _ _ => apply emits_zoom
  | |- emits (pushError _) _ _ => apply emits_pushError
  end.


(** ** Runs after a given log *)

Lemma runs_of_emits {S A} (m : M S A) (t : Trace) (s : S) Q : emits m s Q -> runs m t s Q.
Proof. intros H. exact (H t). Qed.

Lemma emits_of_runs {S A} (m : M S A) (s : S) Q : (forall t, runs m t s Q) -> emits m s Q.
Proof. intros H t. exact (H t). Qed.

Lemma runs_mono {S A} (m : M S A) t s (Q Q' : list Event -> S -> Error + A -> Prop) :
  runs m t s Q -> (forall evs s' r, Q evs s' r -> Q' evs s' r) -> runs m t s Q'.
Proof. intros [evs [Ht HQ]] H. exists evs. auto. Qed.

(** Two facts about one run hold together. *)
Lemma runs_conj {S A} (m : M S A) t (s : S) (Q1 Q2 : list Event -> S -> Error + A -> Prop) :
  runs m t s Q1 -> runs m t s Q2 -> runs m t s (fun evs s' r => Q1 evs s' r /\ Q2 evs s' r).
Proof.
  intros [evs1 [E1 P1]] [evs2 [E2 P2]].
  exists evs1. split; [exact E1 |]. split; [exact P1 |].
  rewrite E1 in E2. apply app_inv_head in E2. now subst evs2.
Qed.

Lemma runs_ret {S A} (a : A) t (s : S) Q : Q [] s (inr a) -> runs (ret a) t s Q.
Proof. intros H. exists []. simpl. rewrite app_nil_r. auto. Qed.

Lemma runs_throw {S A} (e : Error) t (s : S) (Q : list Event -> S -> Error + A -> Prop) :
  Q [] s (inl e) -> runs (throw e) t s Q.
Proof. intros H. exists []. simpl. rewrite app_nil_r. auto. Qed.

Lemma runs_get {S} t (s : S) Q : Q [] s (inr s) -> runs get t s Q.
Proof. intros H. exists []. simpl. rewrite app_nil_r. auto. Qed.

Lemma runs_modify {S} (f : S -> S) t (s : S) Q : Q [] (f s) (inr tt) -> runs (modify f) t s Q.
Proof. intros H. exists []. simpl. rewrite app_nil_r. auto. Qed.

Lemma runs_remote {S A} (c : Call) (answer : Trace -> Rejection + A) t (s : S) Q :
  match answer t with
  | inr a => Q [mkEvent c None] s (inr a)
  | inl r => Q [mkEvent c (Some (Thrown r))] s (inl (Thrown r))
  end ->
  runs (remote c answer) t s Q.
Proof.
  intros H. unfold runs, remote. cbn [fst snd].
  destruct (answer t) as [r | a]; eexists; cbn [fst snd]; eauto.
Qed.

Lemma runs_bind {S A B} (m : M S A) (k : A -> M S B) t s Q :
  runs m t s (fun evs1 s1 r1 =>
                match r1 with
                | inr a => runs (k a) (t ++ evs1) s1 (fun evs2 s2 r => Q (evs1 ++ evs2) s2 r)
                | inl e => Q evs1 s1 (inl e)
                end) ->
  runs (bind m k) t s Q.
Proof.
  intros [evs1 [Ht H1]]. unfold runs, bind.
  destruct (m (t, s)) as [[t1 s1] [e | a]]; cbn [fst snd] in *; subst t1.
  - exists evs1. auto.
  - destruct H1 as [evs2 [Ht2 H2]].
    exists (evs1 ++ evs2). rewrite app_assoc. auto.
Qed.

Lemma runs_tryCatch {S A} (m : M S A) (h : Error -> M S A) t s Q :
  runs m t s (fun evs1 s1 r1 =>
                match r1 with
                | inr a => Q evs1 s1 (inr a)
                | inl e => runs (h e) (t ++ evs1) s1 (fun evs2 s2 r => Q (evs1 ++ evs2) s2 r)
                end) ->
  runs (tryCatch m h) t s Q.
Proof.
  intros [evs1 [Ht H1]]. unfold runs, tryCatch.
  destruct (m (t, s)) as [[t1 s1] [e | a]]; cbn [fst snd] in *; subst t1.
  - destruct H1 as [evs2 [Ht2 H2]].
    exists (evs1 ++ evs2). rewrite app_assoc. auto.
  - exists evs1. auto.
Qed.

(** A loop, by an invariant [I done acc evs s] on the items done, the
    local variables, the events since [t] and the object. *)
Lemma runs_forOf {S X Acc} (body : Acc -> X -> M S Acc) (t : Trace)
  (I : list X -> Acc -> list Event -> S -> Prop)
  (Q : list Event -> S -> Error + Acc -> Prop) (xs : list X) :
  (forall done x rest acc evs s,
     xs = done ++ x :: rest ->
     I done acc evs s ->
     runs (body acc x) (t ++ evs) s
       (fun evs2 s2 r => match r with
                         | inr acc' => I (done ++ [x]) acc' (evs ++ evs2) s2
                         | inl e => Q (evs ++ evs2) s2 (inl e)
                         end)) ->
  (forall acc evs s, I xs acc evs s -> Q evs s (inr acc)) ->
  forall acc s, I [] acc [] s -> runs (forOf xs body acc) t s Q.
Proof.
  intros Hbody Hend.
  assert (G : forall rest done, xs = done ++ rest ->
              forall acc evs s, I done acc evs s ->
                runs (forOf rest body acc) (t ++ evs) s
                  (fun evs2 s2 r => Q (evs ++ evs2) s2 r)).
  { induction rest as [| x rest IH]; intros done Hxs acc evs s HI.
    - rewrite app_nil_r in Hxs. subst done. apply runs_ret.
      rewrite app_nil_r. now apply Hend.
    - cbn [forOf]. apply runs_bind.
      eapply runs_mono; [apply (Hbody done x rest acc evs s Hxs HI) |].
      intros evs2 s2 [e | acc'] H; [exact H |].
      rewrite <- app_assoc.
      eapply runs_mono.
      + apply (IH (done ++ [x])); [| exact H].
        rewrite <- app_assoc. exact Hxs.
      + intros evs3 s3 r H3. cbn beta in H3. now rewrite app_assoc. }
  intros acc s HI. specialize (G xs [] eq_refl acc [] s HI).
  rewrite app_nil_r in G. exact G.
Qed.

Lemma runs_withLocal {S L A} (init : L) (m : M L A) t (s : S) Q :
  runs m t init (fun evs _ r => Q evs s r) -> runs (withLocal init m) t s Q.
Proof.
  intros [evs [Ht HQ]]. exists evs. unfold withLocal.
  cbn [fst snd]. destruct (m (t, init)) as [[t' l] r]. cbn [fst snd] in *. auto.
Qed.

Lemma runs_zoom {S P A} (proj : S -> P) (inj : P -> S -> S) (m : M P A) t (s : S) Q :
  runs m t (proj s) (fun evs p r => Q evs (inj p s) r) -> runs (zoom proj inj m) t s Q.
Proof.
  intros [evs [Ht HQ]]. exists evs. unfold zoom.
  cbn [fst snd]. destruct (m (t, proj s)) as [[t' p] r]. cbn [fst snd] in *. auto.
Qed.

Lemma runs_withVar {S L A} (init : L) (m : M (S * L) A) t (s : S) Q :
  runs m t (s, init) (fun evs sl r => Q evs (fst sl) r) -> runs (withVar init m) t s Q.
Proof.
  intros [evs [Ht HQ]]. exists evs. unfold withVar.
  cbn [fst snd]. destruct (m (t, (s, init))) as [[t' [s' l]] r]. cbn [fst snd] in *. auto.
Qed.

Lemma runs_outer {S L A} (m : M S A) t (sl : S * L) Q :
  runs m t (fst sl) (fun evs s' r => Q evs (s', snd sl) r) -> runs (outer m) t sl Q.
Proof. intros H. unfold outer. apply runs_zoom. exact H. Qed.

Lemma runs_getVar {S L} t (sl : S * L) Q : Q [] sl (inr (snd sl)) -> runs getVar t sl Q.
Proof. intros H. exists []. simpl. rewrite app_nil_r. auto. Qed.

Lemma runs_pushError {S} (e : Error) t (sl : S * list Error) Q :
  Q [] (fst sl, snd sl ++ [e]) (inr tt) -> runs (pushError e) t sl Q.
Proof. intros H. unfold pushError. now apply runs_modify. Qed.

Lemma runs_attempt {S A} (m : M S A) (wrap : Error -> Error) t (s : S) Q :
  runs m t s (fun evs s' r => match r with
                              | inr _ => Q evs s' (inr [])
                              | inl e => Q evs s' (inr [wrap e])
                              end) ->
  runs (attempt m wrap) t s Q.
Proof.
  intros H. unfold attempt. apply runs_tryCatch, runs_bind.
  eapply runs_mono; [exact H |].
  intros evs s' [e | a] H'.
  - apply runs_ret. now rewrite app_nil_r.
  - apply runs_ret. now rewrite app_nil_r.
Qed.

Lemma runs_tryPush {S A} (m : M S A) (wrap : Error -> Error) t (sl : S * list Error) Q :
  runs m t (fst sl)
    (fun evs s' r => match r with
                     | inr _ => Q evs (s', snd sl) (inr tt)
                     | inl e => Q evs (s', snd sl ++ [wrap e]) (inr tt)
                     end) ->
  runs (tryPush m wrap) t sl Q.
Proof.
  intros H. unfold tryPush. apply runs_tryCatch, runs_bind, runs_outer.
  eapply runs_mono; [exact H |].
  intros evs s' [e | a] H'.
  - apply runs_pushError. now rewrite app_nil_r.
  - apply runs_ret. now rewrite app_nil_r.
Qed.

(** One step of a run, by its head. *)
Ltac rstep :=
  lazymatch goal with
  | |- runs (bind _ _) _ _ _ => apply runs_bind
  | |- runs (tryCatch _ _) _ _ _ => apply runs_tryCatch
  | |- runs (ret _) _ _ _ => apply runs_ret
  | |- runs (throw _) _ _ _ => apply runs_throw
  | |- runs get _ _ _ => apply runs_get
  | |- runs (modify _) _ _ _ => apply runs_modify
  | |- runs (remote _ _) _ _ _ => apply runs_remote
  | |- runs (outer _) _ _ _ => apply runs_outer
  | |- runs getVar _ _ _ => apply runs_getVar
  | |- runs (withVar _ _) _ _ _ => apply runs_withVar
  | |- runs (withLocal _ _) _ _ _ => apply runs_withLocal
  | |- runs (attempt _ _) _ _ _ => apply runs_attempt
  | |- runs (tryPush _ _) _ _ _ => apply runs_tryPush
  | |- runs (zoom _ _ _) _ _ _ => apply runs_zoom
  | |- runs (pushError _) _ _ _ => apply runs_pushError
  end.

(** What a log holds stays in it when the log grows. *)
Lemma answered_app_r {A} (answer : Trace -> Rejection + A) c t evs evs' a :
  answered answer c t evs a -> answered answer c t (evs ++ evs') a.
Proof.
  intros [pre [post [-> H]]]. exists pre, (post ++ evs').
  split; [now rewrite <- app_assoc | exact H].
Qed.

Lemma answered_app_l {A} (answer : Trace -> Rejection + A) c t evs evs' a :
  answered answer c (t ++ evs) evs' a -> answered answer c t (evs ++ evs') a.
Proof.
  intros [pre [post [-> H]]]. exists (evs ++ pre), post.
  split; [now rewrite <- app_assoc | now rewrite app_assoc].
Qed.

Lemma answered_here {A} (answer : Trace -> Rejection + A) c t a :
  answer t = inr a -> answered answer c t [mkEvent c None] a.
Proof. intros H. exists [], []. split; [reflexivity | now rewrite app_nil_r]. Qed.
(** ** Errors collected and failures logged *)

Lemma accounts_nil : accounts [] [].
Proof. split; [reflexivity | split; reflexivity]. Qed.

Lemma accounts_app e1 v1 e2 v2 :
  accounts e1 v1 -> accounts e2 v2 -> accounts (e1 ++ e2) (v1 ++ v2).
Proof.
  intros [L1 N1] [L2 N2]. split.
  - now rewrite flat_map_app, failures_app, L1, L2.
  - rewrite failures_app. split.
    + intros H. apply app_eq_nil in H. destruct H as [H1 H2].
      apply N1 in H1. apply N2 in H2. now rewrite H1, H2.
    + intros H. apply app_eq_nil in H. destruct H as [H1 H2].
      apply N1 in H1. apply N2 in H2. now subst.
Qed.

Lemma accounts_ok (c : Call) : accounts [] [mkEvent c None].
Proof. split; [reflexivity | split; reflexivity]. Qed.

Lemma accounts_fail (c : Call) (r : Rejection) :
  accounts [Thrown r] [mkEvent c (Some (Thrown r))].
Proof. split; [reflexivity | split; discriminate]. Qed.

Lemma accounts_wrap (m : string) errors evs :
  accounts errors evs -> errors <> [] -> accounts [FrodoError m errors] evs.
Proof.
  intros [L N] Hne. split.
  - cbn [flat_map leaves]. now rewrite app_nil_r.
  - split; [discriminate |]. intros H. apply N in H. contradiction.
Qed.

Lemma accounts_wrap1 (m : string) e evs :
  accounts [e] evs -> accounts [FrodoError m [e]] evs.
Proof. intros H. apply accounts_wrap; [exact H | discriminate]. Qed.

Lemma nonEmpty_false {A} (l : list A) : nonEmpty l = false -> l = [].
Proof. destruct l; [reflexivity | discriminate]. Qed.

Lemma nonEmpty_true {A} (l : list A) : nonEmpty l = true -> l <> [].
Proof. destruct l; [discriminate | intros _; discriminate]. Qed.

(** A guarded remote call whose failure is pushed, wrapped. *)
Lemma tryPush_remote_emits {S A} (c : Call) (answer : Trace -> Rejection + A) (m : string)
  (sl : S * list Error) :
  emits (tryPush (remote c answer) (fun error => FrodoError m [error])) sl
    (fun evs sl' r =>
       r = inr tt /\ fst sl' = fst sl /\ calls evs = [c] /\
       exists pushed, snd sl' = snd sl ++ pushed /\ accounts pushed evs).
Proof.
  apply emits_tryPush, emits_remote; cbn [fst snd]; intros; repeat split.
  - exists []. rewrite app_nil_r. split; [reflexivity | apply accounts_ok].
  - eexists. split; [reflexivity |]. apply accounts_wrap1, accounts_fail.
Qed.

(** The end of a block that collects errors: throw the aggregate if there are any. *)
Lemma aggregate_emits {S} (m : string) (sl : S * list Error) (evs0 : list Event) Q :
  accounts (snd sl) evs0 ->
  (forall r : Error + unit, reports r evs0 -> Q [] sl r) ->
  emits (errors <- getVar ;;
         if nonEmpty errors then throw (FrodoError m errors) else ret tt) sl Q.
Proof.
  intros Hacc HQ. apply emits_bind, emits_getVar.
  destruct (nonEmpty (snd sl)) eqn:E.
  - apply emits_throw. cbn [app]. apply HQ. apply accounts_wrap; [exact Hacc |].
    now apply nonEmpty_true.
  - apply emits_ret. cbn [app]. apply HQ. apply nonEmpty_false in E.
    unfold reports. now rewrite <- E.
Qed.

(** The catch clause that re-throws when [errors] is not empty. *)
Lemma rethrow_emits {S} (m : string) (error : Error) (sl : S * list Error) Q :
  snd sl <> [] ->
  Q [] sl (inl error) ->
  emits (errors <- getVar ;;
         if nonEmpty errors then throw error else throw (FrodoError m [error])) sl
    (Q : list Event -> S * list Error -> Error + unit -> Prop).
Proof.
  intros Hne HQ. apply emits_bind, emits_getVar.
  destruct (snd sl) as [| e l] eqn:E; [contradiction |].
  cbn [nonEmpty]. now apply emits_throw.
Qed.

(** ** Policy import *)

Module PolicyImportFacts.
Import PolicyOps.

Lemma importPolicyPrerequisites_emits state policyData b :
  emits (importPolicyPrerequisites state policyData) b
    (fun evs b' r => b' = b /\ calls evs = prerequisiteWrites b policyData /\ reports r evs).
Proof.
  unfold importPolicyPrerequisites.
  apply emits_withVar, emits_tryCatch.
  apply emits_bind, emits_outer, emits_get. cbn [fst snd app].
  apply emits_bind.
  apply emits_mono with
    (Q := fun evs1 (sl : PolicyExportInterface * list Error) (r : Error + unit) =>
            r = inr tt /\ fst sl = b /\
            calls evs1 = (match lookup (resourceTypeUuid policyData) (resourcetype b) with
                          | Absent => []
                          | found =>
                              [UpdateResourceType (resourceTypeUuid policyData)
                                 found]
                          end) /\
            accounts (snd sl) evs1).
  { destruct (lookup (resourceTypeUuid policyData) (resourcetype b)) as [d | |]; cbv zeta.
    - eapply emits_mono; [apply tryPush_remote_emits |].
      intros evs sl r [-> [Hb [Hc [pushed [Hp Ha]]]]]. cbn [fst snd] in *.
      rewrite Hp. cbn [app]. auto.
    - eapply emits_mono; [apply tryPush_remote_emits |].
      intros evs sl r [-> [Hb [Hc [pushed [Hp Ha]]]]]. cbn [fst snd] in *.
      rewrite Hp. cbn [app]. auto.
    - apply emits_ret. split; [reflexivity | split; [reflexivity | split; [reflexivity |]]].
      apply accounts_nil. }
  intros evs1 [b1 errs1] r1 [-> [Hb1 [Hc1 Ha1]]]. cbn [fst snd] in *. subst b1.
  apply emits_bind.
  apply emits_mono with
    (Q := fun evs2 (sl : PolicyExportInterface * list Error) (r : Error + unit) =>
            r = inr tt /\ fst sl = b /\
            calls evs2 = (match lookup (applicationName policyData) (policyset b) with
                          | Absent => []
                          | found => [UpdatePolicySet found]
                          end) /\
            accounts (snd sl) (evs1 ++ evs2)).
  { destruct (lookup (applicationName policyData) (policyset b)) as [d | |]; cbv zeta.
    - eapply emits_mono; [apply tryPush_remote_emits |].
      intros evs sl r [-> [Hb [Hc [pushed [Hp Ha]]]]]. cbn [fst snd] in *.
      rewrite Hp. split; [reflexivity | split; [assumption | split; [assumption |]]].
      now apply accounts_app.
    - eapply emits_mono; [apply tryPush_remote_emits |].
      intros evs sl r [-> [Hb [Hc [pushed [Hp Ha]]]]]. cbn [fst snd] in *.
      rewrite Hp. split; [reflexivity | split; [assumption | split; [assumption |]]].
      now apply accounts_app.
    - apply emits_ret. split; [reflexivity | split; [reflexivity | split; [reflexivity |]]].
      cbn [snd]. now rewrite app_nil_r. }
  intros evs2 [b2 errs2] r2 [-> [Hb2 [Hc2 Ha2]]]. cbn [fst snd] in *. subst b2.
  assert (Hcalls : calls (evs1 ++ evs2) = prerequisiteWrites b policyData).
  { rewrite calls_app, Hc1, Hc2. reflexivity. }
  eapply emits_mono; [apply (aggregate_emits _ _ (evs1 ++ evs2) (fun evs sl r => evs = [] /\ sl = (b, errs2) /\ reports r (evs1 ++ evs2))); [exact Ha2 | auto] |].
  intros evs3 sl3 r3 [-> [-> Hr]]. rewrite !app_nil_r.
  destruct r3 as [e | []].
  - apply rethrow_emits.
    + cbn [snd]. intros ->. destruct Hr as [_ [_ Hr]]. destruct Ha2 as [_ [Ha2 _]].
      specialize (Ha2 eq_refl). specialize (Hr Ha2). discriminate.
    + rewrite !app_nil_r. cbn [fst]. auto.
  - cbn [fst]. auto.
Qed.

Lemma importPolicyDependencies_emits state policyData b :
  emits (importPolicyDependencies state policyData) b
    (fun evs b' r => b' = b /\ calls evs = scriptWrites b policyData /\ reports r evs).
Proof.
  unfold importPolicyDependencies, scriptWrites.
  estep. estep. estep. estep. estep. cbn [fst snd app].
  estep.
  apply emits_forOf with
    (I := fun done (_ : unit) evs (sl : PolicyExportInterface * list Error) =>
            fst sl = b /\
            calls evs = map (fun scriptUuid =>
                               UpdateScript (idVal scriptUuid)
                                 (lookup (toPropertyKey (idVal scriptUuid)) (script b)))
                          done /\
            accounts (snd sl) evs).
  - intros done x rest [] evs sl _ [Hb [Hc Ha]]. cbv zeta.
    eapply emits_mono; [apply tryPush_remote_emits |].
    intros evs2 sl2 r [-> [Hb2 [Hc2 [pushed [Hp Ha2]]]]].
    split; [congruence | split].
    + now rewrite calls_app, map_app, Hc, Hc2.
    + rewrite Hp. now apply accounts_app.
  - intros [] evs [b1 errs] [Hb [Hc Ha]]. cbn [fst snd] in *. subst b1.
    eapply emits_mono;
      [apply (aggregate_emits _ _ evs
                (fun evs' sl r => evs' = [] /\ sl = (b, errs) /\ reports r evs));
       [exact Ha | auto] |].
    intros evs3 sl3 r3 [-> [-> Hr]]. rewrite !app_nil_r.
    destruct r3 as [e | []].
    + apply rethrow_emits.
      * cbn [snd]. intros ->. destruct Hr as [_ [_ Hr]]. destruct Ha as [_ [Ha _]].
        specialize (Ha eq_refl). specialize (Hr Ha). discriminate.
      * rewrite !app_nil_r. cbn [fst]. auto.
    + cbn [fst]. auto.
  - split; [reflexivity | split; [reflexivity | apply accounts_nil]].
Qed.

Lemma updatePolicy_emits {S} state policyId policyData (s : S) :
  emits (updatePolicy state policyId policyData) s
    (fun evs s' r => s' = s /\ calls evs = [PutPolicy policyId policyData] /\ reports r evs).
Proof.
  unfold updatePolicy. estep. estep.
  - intros a. split; [reflexivity | split; [reflexivity | apply accounts_ok]].
  - intros r. estep. split; [reflexivity | split; [reflexivity |]].
    apply accounts_wrap1, accounts_fail.
Qed.

Lemma importPolicyEntry_emits state options id b entry :
  getProp id (policy b) = Some entry ->
  emits (importPolicyEntry state options id) b
    (fun evs b' r =>
       b' = setPolicy id (stripPolicy options entry) b /\
       calls evs = entryWrites options b (stripPolicy options entry) /\
       exists response errors,
         r = inr (response, errors) /\ accounts errors evs /\
         (response = None -> errors <> [])).
Proof.
  intros Hget. unfold importPolicyEntry, entryWrites.
  set (pd := stripPolicy options entry).
  estep. estep. estep. cbn [app]. rewrite Hget. fold pd.
  estep. estep. cbn [app].
  set (b1 := setPolicy id pd b).
  (* prerequisites *)
  estep.
  apply emits_mono with
    (Q := fun evs1 b' (r : Error + list Error) =>
            b' = b1 /\
            calls evs1 = (if import_prereqs options then prerequisiteWrites b pd else []) /\
            exists e1, r = inr e1 /\ accounts e1 evs1).
  { destruct (import_prereqs options).
    - estep. eapply emits_mono; [apply importPolicyPrerequisites_emits |].
      intros evs1 b' r [-> [Hc Hr]].
      destruct r as [e | []]; (split; [reflexivity | split; [exact Hc |]]); eauto. 
    - estep. split; [reflexivity | split; [reflexivity |]].
      exists []. split; [reflexivity | apply accounts_nil]. }
  intros evs1 b' r1 [-> [Hc1 [e1 [-> Ha1]]]].
  (* the policy itself *)
  estep. estep. estep.
  eapply emits_mono; [apply updatePolicy_emits |].
  intros evs2 b' r2 [-> [Hc2 Hr2]].
  assert (G : forall (resp : option PolicySkeleton) (e2 : list Error),
             accounts e2 evs2 -> (resp = None -> e2 <> []) ->
             emits
               (e3 <- (if import_deps options
                       then attempt (importPolicyDependencies state pd) (fun error => error)
                       else ret []) ;;
                ret (fst (resp, e2), e1 ++ snd (resp, e2) ++ e3)) b1
               (fun evs3 b' r =>
                  b' = b1 /\
                  calls (evs1 ++ evs2 ++ evs3) =
                    (if import_prereqs options then prerequisiteWrites b pd else []) ++
                    [PutPolicy (policy_id pd) pd] ++
                    (if import_deps options then scriptWrites b pd else []) /\
                  exists response errors,
                    r = inr (response, errors) /\ accounts errors (evs1 ++ evs2 ++ evs3) /\
                    (response = None -> errors <> []))).
  { intros resp e2 Ha2 Hresp. estep.
    apply emits_mono with
      (Q := fun evs3 b' (r : Error + list Error) =>
              b' = b1 /\
              calls evs3 = (if import_deps options then scriptWrites b pd else []) /\
              exists e3, r = inr e3 /\ accounts e3 evs3).
    { destruct (import_deps options).
      - estep. eapply emits_mono; [apply importPolicyDependencies_emits |].
        intros evs3 b' r [-> [Hc Hr]].
        destruct r as [e | []]; (split; [reflexivity | split; [exact Hc |]]); eauto.
      - estep. split; [reflexivity | split; [reflexivity |]].
        exists []. split; [reflexivity | apply accounts_nil]. }
    intros evs3 b' r3 [-> [Hc3 [e3 [-> Ha3]]]].
    estep. rewrite app_nil_r. split; [reflexivity | split].
    - now rewrite !calls_app, Hc1, Hc2, Hc3.
    - exists resp, (e1 ++ e2 ++ e3). cbn [fst snd]. split; [reflexivity | split].
      + apply accounts_app; [exact Ha1 | now apply accounts_app].
      + intros Hn H. apply app_eq_nil in H. destruct H as [_ H].
        apply app_eq_nil in H. destruct H as [H _]. now apply Hresp. }
  destruct r2 as [e | p].
  - estep. eapply emits_mono; [apply (G None [e] Hr2); intros _; discriminate |].
    intros evs3 b' r [-> [Hc [resp [errs [-> [Ha Hn]]]]]].
    rewrite !app_nil_r. cbn [app] in Hc.
    split; [reflexivity | split; [exact Hc | exists resp, errs; auto]].
  - estep. eapply emits_mono; [apply (G (Some p) [] Hr2); intros; discriminate |].
    intros evs3 b' r [-> [Hc [resp [errs [-> [Ha Hn]]]]]].
    rewrite !app_nil_r. cbn [app] in Hc.
    split; [reflexivity | split; [exact Hc | exists resp, errs; auto]].
Qed.

Lemma importPolicyStep_emits state options id b entry response0 errors0 imported0 :
  getProp id (policy b) = Some entry ->
  emits (importStep state options (response0, errors0, imported0) id) b
    (fun evs b' r =>
       b' = setPolicy id (stripPolicy options entry) b /\
       calls evs = entryWrites options b (stripPolicy options entry) /\
       exists response errors,
         accounts errors evs /\ (response = None -> errors <> []) /\
         r = inr (match response with
                  | Some p => (Some p, errors0 ++ errors, imported0 ++ [id])
                  | None => (response0, errors0 ++ errors, imported0)
                  end)).
Proof.
  intros Hget. unfold importStep. estep.
  eapply emits_mono; [apply (importPolicyEntry_emits _ _ _ _ _ Hget) |].
  intros evs b' r [-> [Hc [response [errors [-> [Ha Hn]]]]]].
  cbn [fst snd].
  destruct response as [p |]; estep; rewrite app_nil_r;
    (split; [reflexivity | split; [exact Hc |]]).
  - exists (Some p), errors. auto.
  - exists None, errors. auto.
Qed.

Lemma skipped_loop_emits {S Acc} (policyId : string) (step : Acc -> string -> M S Acc)
  (ks : list string) (acc : Acc) (s : S) :
  ~ In policyId ks ->
  emits (forOf ks (fun acc id => if id =? policyId then step acc id else ret acc) acc) s
    (fun evs s' r => evs = [] /\ s' = s /\ r = inr acc).
Proof.
  induction ks as [| k ks IH]; intros Hn; cbn [forOf].
  - estep. auto.
  - estep. destruct (k =? policyId) eqn:E.
    + apply String.eqb_eq in E. subst. exfalso. apply Hn. now left.
    + estep. eapply emits_mono; [apply IH; intros H; apply Hn; now right |].
      intros evs s' r [-> [-> ->]]. auto.
Qed.

Lemma importPolicy_loop_emits state options policyId b entry ks response0 errors0 imported0 :
  NoDup ks -> In policyId ks ->
  getProp policyId (policy b) = Some entry ->
  emits (forOf ks
           (fun acc id => if id =? policyId then importStep state options acc id else ret acc)
           (response0, errors0, imported0)) b
    (fun evs b' r =>
       b' = setPolicy policyId (stripPolicy options entry) b /\
       calls evs = entryWrites options b (stripPolicy options entry) /\
       exists response errors,
         accounts errors evs /\ (response = None -> errors <> []) /\
         r = inr (match response with
                  | Some p => (Some p, errors0 ++ errors, imported0 ++ [policyId])
                  | None => (response0, errors0 ++ errors, imported0)
                  end)).
Proof.
  induction ks as [| k ks IH]; intros Hnd Hin Hget; [destruct Hin |].
  cbn [forOf]. estep. inversion Hnd as [| k' ks' Hk Hnd']; subst.
  destruct (k =? policyId) eqn:E.
  - apply String.eqb_eq in E. subst k.
    eapply emits_mono; [apply (importPolicyStep_emits _ _ _ _ _ _ _ _ Hget) |].
    intros evs b' r [-> [Hc [response [errors [Ha [Hn ->]]]]]].
    eapply emits_mono; [apply skipped_loop_emits; exact Hk |].
    intros evs2 b2 r2 [-> [-> ->]]. rewrite app_nil_r.
    split; [reflexivity | split; [exact Hc |]]. exists response, errors. auto.
  - apply String.eqb_neq in E. destruct Hin as [-> | Hin]; [contradiction |].
    estep. eapply emits_mono; [apply (IH Hnd' Hin Hget) |].
    intros evs b' r H. exact H.
Qed.

Lemma importPolicy_emits state policyId options b :
  NoDup (objectKeys (policy b)) ->
  emits (importPolicy state policyId options) b
    (fun evs b' r =>
       match getProp policyId (policy b) with
       | None =>
           evs = [] /\ b' = b /\
           r = inl (FrodoError ("Policy " ++ policyId ++ " not found in import data") [])
       | Some entry =>
           b' = setPolicy policyId (stripPolicy options entry) b /\
           calls evs = entryWrites options b (stripPolicy options entry) /\
           reports r evs
       end).
Proof.
  intros Hnd. unfold importPolicy. estep. estep. cbn [app]. estep.
  destruct (getProp policyId (policy b)) as [entry |] eqn:Hget.
  - assert (Hin : In policyId (objectKeys (policy b))).
    { destruct (in_dec string_dec policyId (objectKeys (policy b))) as [H | H]; [exact H |].
      apply getProp_None in H. congruence. }
    eapply emits_mono; [apply (importPolicy_loop_emits _ _ _ _ _ _ _ _ _ Hnd Hin Hget) |].
    intros evs b' r [-> [Hc [response [errors [Ha [Hn ->]]]]]]. cbn [app] in *.
    destruct response as [p |].
    + destruct (nonEmpty errors) eqn:E; cbn [app List.length Nat.eqb]; estep;
        rewrite app_nil_r; (split; [reflexivity | split; [exact Hc |]]).
      * apply accounts_wrap; [exact Ha | now apply nonEmpty_true].
      * apply nonEmpty_false in E. subst errors. exact Ha.
    + specialize (Hn eq_refl). destruct errors as [| e errors]; [contradiction |].
      cbn [nonEmpty]. estep. rewrite app_nil_r.
      split; [reflexivity | split; [exact Hc |]].
      apply accounts_wrap; [exact Ha | discriminate].
  - apply getProp_None in Hget.
    eapply emits_mono; [apply skipped_loop_emits; exact Hget |].
    intros evs b' r [-> [-> ->]]. cbn [nonEmpty List.length Nat.eqb]. estep. auto.
Qed.

Lemma importFirstPolicy_emits state options b :
  emits (importFirstPolicy state options) b
    (fun evs b' r =>
       match policy b with
       | [] =>
           evs = [] /\ b' = b /\ r = inl (FrodoError "No policy found in import data" [])
       | (id, entry) :: _ =>
           b' = setPolicy id (stripPolicy options entry) b /\
           calls evs = entryWrites options b (stripPolicy options entry) /\
           reports r evs
       end).
Proof.
  unfold importFirstPolicy. estep. estep. cbn [app]. estep.
  destruct (policy b) as [| [id entry] rest] eqn:Hp; cbn [objectKeys map fst].
  - estep. cbn [nonEmpty List.length Nat.eqb]. estep. auto.
  - assert (Hget : getProp id (policy b) = Some entry).
    { rewrite Hp. apply getProp_cons_same. }
    eapply emits_mono; [apply (importPolicyStep_emits _ _ _ _ _ _ _ _ Hget) |].
    intros evs b' r [-> [Hc [response [errors [Ha [Hn ->]]]]]]. cbn [app] in *.
    destruct response as [p |].
    + destruct (nonEmpty errors) eqn:E; cbn [app List.length Nat.eqb]; estep;
        rewrite app_nil_r; (split; [reflexivity | split; [exact Hc |]]).
      * apply accounts_wrap; [exact Ha | now apply nonEmpty_true].
      * apply nonEmpty_false in E. subst errors. exact Ha.
    + specialize (Hn eq_refl). destruct errors as [| e errors]; [contradiction |].
      cbn [nonEmpty]. estep. rewrite app_nil_r.
      split; [reflexivity | split; [exact Hc |]].
      apply accounts_wrap; [exact Ha | discriminate].
Qed.

Lemma importPolicies_loop_emits state options b0 :
  forall rest done b acc evs0,
    policy b = done ++ rest ->
    script b = script b0 -> resourcetype b = resourcetype b0 ->
    policyset b = policyset b0 -> meta b = meta b0 ->
    NoDup (objectKeys (done ++ rest)) ->
    accounts (snd acc) evs0 ->
    emits (forOf (objectKeys rest)
             (fun (acc : list PolicySkeleton * list Error) id =>
                r <- importPolicyEntry state options id ;;
                ret (match fst r with
                     | Some p => fst acc ++ [p]
                     | None => fst acc
                     end,
                     snd acc ++ snd r))
             acc) b
      (fun evs b' r =>
         b' = mkExport (meta b0) (script b0) (resourcetype b0)
                (done ++ map (fun kv => (fst kv, stripPolicy options (snd kv))) rest)
                (policyset b0) /\
         calls evs =
           flat_map (fun kv => entryWrites options b0 (stripPolicy options (snd kv))) rest /\
         exists acc', r = inr acc' /\ accounts (snd acc') (evs0 ++ evs)).
Proof.
  induction rest as [| [k entry] rest IH];
    intros done b acc evs0 Hp Hs Hr Hps Hm Hnd Hacc; cbn [objectKeys map fst forOf].
  - estep. rewrite !app_nil_r in *. split; [| split; [reflexivity | eauto]].
    destruct b; cbn in *; congruence.
  - assert (Hk : ~ In k (objectKeys done)).
    { unfold objectKeys in *. rewrite map_app in Hnd. cbn [map fst] in Hnd.
      apply NoDup_remove_2 in Hnd. intros H. apply Hnd. apply in_or_app. now left. }
    assert (Hget : getProp k (policy b) = Some entry).
    { rewrite Hp, (getProp_app_notin _ _ _ Hk). apply getProp_cons_same. }
    estep. estep.
    eapply emits_mono; [apply (importPolicyEntry_emits _ _ _ _ _ Hget) |].
    intros evs1 b1 r [-> [Hc1 [response [errors [-> [Ha Hn]]]]]].
    estep. cbn [fst snd]. rewrite app_nil_r.
    set (pd := stripPolicy options entry) in *.
    eapply emits_mono.
    + apply (IH (done ++ [(k, pd)]) (setPolicy k pd b) _ (evs0 ++ evs1)).
      * cbn [policy setPolicy]. rewrite Hp, (setProp_app_present _ _ _ _ _ Hk).
        now rewrite <- app_assoc.
      * exact Hs.
      * exact Hr.
      * exact Hps.
      * exact Hm.
      * rewrite <- app_assoc. cbn [app]. unfold objectKeys in *.
        rewrite map_app in *. exact Hnd.
      * cbn [snd]. now apply accounts_app.
    + intros evs2 b2 r2 [-> [Hc2 [acc' [-> Ha2]]]].
      rewrite <- !app_assoc. cbn [app map flat_map fst snd]. fold pd.
      split; [reflexivity | split].
      * rewrite calls_app, Hc2, Hc1. f_equal.
        unfold entryWrites, prerequisiteWrites, scriptWrites. now rewrite Hs, Hr, Hps.
      * exists acc'. split; [reflexivity |]. now rewrite app_assoc.
Qed.

Lemma importPolicies_emits state options b :
  NoDup (objectKeys (policy b)) ->
  emits (importPolicies state options) b
    (fun evs b' r =>
       b' = stripPolicies options b /\
       calls evs =
         flat_map (fun kv => entryWrites options b (stripPolicy options (snd kv))) (policy b) /\
       reports r evs /\
       match r with
       | inr _ => True
       | inl e =>
           exists errors,
             e = FrodoError ("Error importing " ++ realm state ++ " policies") errors
       end).
Proof.
  intros Hnd. unfold importPolicies. estep. estep. cbn [app]. estep.
  eapply emits_mono.
  - apply (importPolicies_loop_emits state options b (policy b) [] b ([], []) []);
      try reflexivity; [exact Hnd | apply accounts_nil].
  - intros evs b' r [-> [Hc [acc' [-> Ha]]]]. cbn [app] in *.
    destruct (nonEmpty (snd acc')) eqn:E; estep; rewrite app_nil_r;
      (split; [reflexivity | split; [exact Hc | split]]).
    + apply accounts_wrap; [exact Ha | now apply nonEmpty_true].
    + now exists (snd acc').
    + apply nonEmpty_false in E. unfold reports. now rewrite <- E.
    + exact I.
Qed.

End PolicyImportFacts.
(** ** OAuth2 client import *)

Module OAuth2ImportFacts.
Import OAuth2ClientOps.

Lemma scriptReferencesIn_cons key v entries :
  scriptReferencesIn ((key, v) :: entries) =
  if endsWith key "Script" && negb (strictEqStr v "[Empty]")
  then v :: scriptReferencesIn entries
  else scriptReferencesIn entries.
Proof.
  unfold scriptReferencesIn. cbn [filter]. unfold isScriptReference at 1. cbn [fst snd].
  now destruct (endsWith key "Script" && negb (strictEqStr v "[Empty]")).
Qed.

Lemma scriptImportsOf_cons b v references :
  scriptImportsOf b (v :: references) =
  (match script b with
   | Some scripts =>
       match lookup (toPropertyKey v) scripts with
       | Absent => []
       | found => [UpdateScript v found]
       end
   | None => []
   end) ++ scriptImportsOf b references.
Proof. reflexivity. Qed.

Lemma importDependencies_loop_emits state (b : OAuth2ClientExportInterface) :
  forall entries,
    emits (forOf entries
             (fun (_ : unit) entry =>
                let key := fst entry in
                if endsWith key "Script"
                then
                  let scriptId := snd entry in
                  importData <- get ;;
                  if strictEqStr scriptId "[Empty]"
                  then ret tt
                  else
                    match script importData with
                    | None => ret tt
                    | Some scripts =>
                        match lookup (toPropertyKey scriptId) scripts with
                        | Absent => ret tt
                        | scriptData =>
                            tryCatch
                              (remote (UpdateScript scriptId scriptData)
                                 (fun t => updateScript state t scriptId scriptData) ;;
                               ret tt)
                              (fun error =>
                                 throw (FrodoError
                                          ("Error importing " ++ realm state
                                           ++ " script dependency "
                                           ++ toPropertyKey scriptId)
                                          [error]))
                        end
                    end
                else ret tt)
             tt) b
      (fun evs b' r =>
         b' = b /\ reports r evs /\
         exists rest,
           scriptImportsOf b (scriptReferencesIn entries) = calls evs ++ rest /\
           match r with
           | inr _ => rest = [] /\ failures evs = []
           | inl e =>
               exists done v d f,
                 evs = done ++ [mkEvent (UpdateScript v d) (Some f)] /\
                 failures done = [] /\
                 e = FrodoError
                       ("Error importing " ++ realm state ++ " script dependency "
                        ++ toPropertyKey v)
                       [f]
           end).
Proof.
  induction entries as [| [key scriptId] entries IH]; cbn [forOf].
  - estep. split; [reflexivity | split; [apply accounts_nil |]].
    exists []. auto.
  - estep. cbn [fst snd].
    rewrite scriptReferencesIn_cons.
    destruct (endsWith key "Script"); cbn [andb].
    2:{ estep. exact IH. }
    estep. estep. cbn [app].
    destruct (strictEqStr scriptId "[Empty]"); cbn [negb].
    { estep. exact IH. }
    rewrite scriptImportsOf_cons.
    destruct (script b) as [scripts |] eqn:Hs.
    2:{ estep. exact IH. }
    assert (Hfound : forall found : Found ScriptSkeleton,
              emits
                (tryCatch
                   (remote (UpdateScript scriptId found)
                      (fun t => updateScript state t scriptId found) ;;
                    ret tt)
                   (fun error =>
                      throw (FrodoError
                               ("Error importing " ++ realm state ++ " script dependency "
                                ++ toPropertyKey scriptId)
                               [error])))
                b
                (fun evs1 s1 r1 =>
                   match r1 with
                   | inr a =>
                       emits (forOf entries
                                (fun (_ : unit) entry =>
                                   let key := fst entry in
                                   if endsWith key "Script"
                                   then
                                     let scriptId := snd entry in
                                     importData <- get ;;
                                     if strictEqStr scriptId "[Empty]"
                                     then ret tt
                                     else
                                       match script importData with
                                       | None => ret tt
                                       | Some scripts =>
                                           match lookup (toPropertyKey scriptId) scripts with
                                           | Absent => ret tt
                                           | scriptData =>
                                               tryCatch
                                                 (remote (UpdateScript scriptId scriptData)
                                                    (fun t => updateScript state t scriptId
                                                                scriptData) ;;
                                                  ret tt)
                                                 (fun error =>
                                                    throw (FrodoError
                                                             ("Error importing " ++ realm state
                                                              ++ " script dependency "
                                                              ++ toPropertyKey scriptId)
                                                             [error]))
                                           end
                                       end
                                   else ret tt)
                                a) s1
                         (fun evs2 s2 r =>
                            s2 = b /\ reports r (evs1 ++ evs2) /\
                            exists rest,
                              [UpdateScript scriptId found]
                                ++ scriptImportsOf b (scriptReferencesIn entries) =
                                calls (evs1 ++ evs2) ++ rest /\
                              match r with
                              | inr _ => rest = [] /\ failures (evs1 ++ evs2) = []
                              | inl e =>
                                  exists done v d f,
                                    evs1 ++ evs2 = done ++ [mkEvent (UpdateScript v d) (Some f)] /\
                                    failures done = [] /\
                                    e = FrodoError
                                          ("Error importing " ++ realm state
                                           ++ " script dependency " ++ toPropertyKey v)
                                          [f]
                              end)
                   | inl e =>
                       s1 = b /\ reports (@inl Error unit e) evs1 /\
                       exists rest,
                         [UpdateScript scriptId found]
                           ++ scriptImportsOf b (scriptReferencesIn entries) =
                           calls evs1 ++ rest /\
                         exists done v d f,
                           evs1 = done ++ [mkEvent (UpdateScript v d) (Some f)] /\
                           failures done = [] /\
                           e = FrodoError
                                 ("Error importing " ++ realm state
                                  ++ " script dependency " ++ toPropertyKey v)
                                 [f]
                   end)).
    { intros found. estep. estep. estep.
      - intros a. estep. eapply emits_mono; [apply IH |].
        intros evs b' r [-> [Hr [rest [Hi Hrest]]]]. rewrite app_nil_r.
        split; [reflexivity | split].
        + apply (accounts_app [] [_] _ evs); [apply accounts_ok | exact Hr].
        + exists rest. split; [cbn [app calls map call]; f_equal; exact Hi |].
          destruct r as [e | u].
          * destruct Hrest as [done [v [d [f [-> [Hd ->]]]]]].
            exists (mkEvent (UpdateScript scriptId found) None :: done), v, d, f.
            split; [reflexivity | split; [exact Hd | reflexivity]].
          * exact Hrest.
      - intros rj. estep. rewrite app_nil_r.
        split; [reflexivity | split].
        + apply accounts_wrap1, accounts_fail.
        + eexists. split; [reflexivity |].
          exists [], scriptId, found, (Thrown rj). auto. }
    destruct (lookup (toPropertyKey scriptId) scripts) as [d | |] eqn:Hl.
    + apply Hfound.
    + apply Hfound.
    + estep. exact IH.
Qed.

Lemma importOAuth2ClientDependencies_emits state c b :
  emits (importOAuth2ClientDependencies state c) b
    (fun evs b' r => b' = b /\ reports r evs /\ DependenciesImported state b c evs r).
Proof.
  unfold importOAuth2ClientDependencies, DependenciesImported, scriptImports,
    scriptReferences, overrideEntries.
  destruct (truthy (overrideOAuth2ClientConfig c)).
  - apply importDependencies_loop_emits.
  - estep. split; [reflexivity | split; [apply accounts_nil |]].
    exists []. auto.
Qed.

Lemma removeInvalidAttributes_keys validAttributes attrs :
  objectKeys (fst (removeInvalidAttributes validAttributes attrs)) = objectKeys attrs.
Proof.
  induction attrs as [| [key v] attrs IH]; [reflexivity |].
  cbn [removeInvalidAttributes].
  destruct v; cbn [fst objectKeys map]; try reflexivity;
    unfold objectKeys in IH; now rewrite IH.
Qed.

Lemma updateOAuth2Client_emits state clientId c :
  emits (updateOAuth2Client state clientId) c
    (fun evs c' r =>
       client_id c' = client_id c /\
       objectKeys (client_attrs c') = objectKeys (client_attrs c) /\
       Forall (fun cl => isClientWrite clientId cl = true) (calls evs) /\
       1 <= List.length (calls evs) <= 2).
Proof.
  assert (Hw : forall payload, isClientWrite clientId (PutOAuth2Client clientId payload) = true).
  { intros payload. cbn [isClientWrite]. apply String.eqb_refl. }
  unfold updateOAuth2Client. estep. estep. cbn [app]. estep. estep.
  - intros a. repeat split; cbn; auto.
  - intros r. destruct (responseIs 400 "Invalid attribute specified." (Thrown r)).
    2:{ estep. rewrite app_nil_r. repeat split; cbn; auto. }
    estep. estep.
    apply emits_mono with
      (Q := fun evs c' (r0 : Error + list string) => evs = [] /\ c' = c).
    { destruct (response (Thrown r)) as [resp |]; [| estep; auto].
      destruct (data_detail_validAttributes resp); estep; auto. }
    intros evs c' [e | validAttributes] [-> ->].
    { estep. repeat split; cbn; auto. }
    estep. estep.
    destruct (snd (removeInvalidAttributes validAttributes (client_attrs c))) as [te |].
    + estep. estep. cbn [client_id client_attrs].
      rewrite removeInvalidAttributes_keys. repeat split; cbn; auto.
    + estep. estep. cbn [app]. estep.
      * intros a. cbn [client_id client_attrs].
        rewrite removeInvalidAttributes_keys. repeat split; cbn; auto.
      * intros r2. estep. cbn [client_id client_attrs].
        rewrite removeInvalidAttributes_keys. repeat split; cbn; auto.
Qed.

(** [updateOAuth2Client], case by case. *)
Lemma updateOAuth2Client_runs state clientId t c :
  runs (updateOAuth2Client state clientId) t c (ClientUpdated state clientId t c).
Proof.
  unfold updateOAuth2Client. rstep. rstep. cbn [app]. rewrite app_nil_r.
  rstep. rstep.
  destruct (_putOAuth2Client state t clientId c) as [r | written] eqn:Hput.
  2:{ now apply written_at_once. }
  fold (setsOffRepair (Thrown r)).
  destruct (setsOffRepair (Thrown r)) eqn:Hrepair.
  2:{ rstep. rewrite app_nil_r. now apply write_rejected. }
  rstep. rstep.
  set (put1 := mkEvent (PutOAuth2Client clientId c) (Some (Thrown r))).
  assert (Hcases :
            (listedAttributes r = None /\
             match response (Thrown r) with
             | Some r0 =>
                 match data_detail_validAttributes r0 with
                 | Some listed => ret (listed ++ ["_id"])
                 | None => throw (TypeError "Cannot read properties of undefined")
                 end
             | None => throw (TypeError "Cannot read properties of undefined")
             end = (throw (TypeError "Cannot read properties of undefined")
                    : M OAuth2ClientSkeleton (list string))) \/
            (exists listed,
               listedAttributes r = Some listed /\
               match response (Thrown r) with
               | Some r0 =>
                   match data_detail_validAttributes r0 with
                   | Some listed => ret (listed ++ ["_id"])
                   | None => throw (TypeError "Cannot read properties of undefined")
                   end
               | None => throw (TypeError "Cannot read properties of undefined")
               end = (ret (listed ++ ["_id"]) : M OAuth2ClientSkeleton (list string)))).
  { unfold listedAttributes. cbn [response].
    destruct (rej_response r) as [resp |]; [| now left].
    destruct (data_detail_validAttributes resp) as [listed |]; [| now left].
    right. now exists listed. }
  destruct Hcases as [[Hl ->] | [listed [Hl ->]]].
  - rstep. rstep. rewrite !app_nil_r. now apply repair_without_list.
  - rstep. rstep. rstep. cbn [app]. rewrite !app_nil_r.
    fold (repairError listed c).
    destruct (repairError listed c) as [te |] eqn:Hte.
    + rstep. rstep. rewrite !app_nil_r. fold (repairedClient listed c).
      now apply (repair_stopped _ _ _ _ r listed te).
    + rstep. rstep. rstep. cbn [app]. rewrite !app_nil_r. fold (repairedClient listed c).
      destruct (_putOAuth2Client state (t ++ [put1]) clientId (repairedClient listed c))
        as [r2 | written] eqn:Hput2.
      * rstep. now apply (retry_rejected _ _ _ _ r listed r2).
      * now apply (written_repaired _ _ _ _ r listed written).
Qed.

Lemma importOAuth2ClientEntry_runs state options id t b entry :
  getProp id (application b) = Some entry ->
  runs (importOAuth2ClientEntry state options id) t b
    (fun evs b' r =>
       exists c' x,
         r = inr x /\ b' = setApplication id c' b /\
         ClientEntryImported state options b t id entry evs c' x).
Proof.
  intros Hget. unfold importOAuth2ClientEntry, ClientEntryImported.
  set (cd := stripClient entry).
  rstep. rstep. rstep. cbn [app]. rewrite Hget. fold cd.
  rstep. rstep. cbn [app]. rewrite !app_nil_r.
  set (b1 := setApplication id cd b).
  rstep.
  apply runs_mono with
    (Q := fun evs1 b' (d : Error + unit) =>
            b' = b1 /\
            if import_deps options
            then DependenciesImported state b cd evs1 d
            else evs1 = [] /\ d = inr tt).
  { destruct (import_deps options).
    - apply runs_of_emits.
      eapply emits_mono; [apply importOAuth2ClientDependencies_emits |].
      intros evs1 b' r [-> [_ H]]. split; [reflexivity | exact H].
    - rstep. auto. }
  intros evs1 b' [e | []] [-> Hdeps].
  - (* a script write failed: the client is not written *)
    rstep. rewrite app_nil_r. exists cd, (inl e).
    split; [reflexivity | split; [reflexivity |]].
    exists evs1, [], (inl e). rewrite app_nil_r. auto.
  - rstep. rstep.
    assert (Hentry : entryOf id cd b1 = cd).
    { unfold entryOf, b1. cbn [application setApplication].
      now rewrite (getProp_setProp_present _ _ _ _ Hget). }
    rewrite Hentry.
    eapply runs_mono; [apply updateOAuth2Client_runs |].
    intros evs2 c' r Hupdated.
    assert (Hb : setApplication id c' b1 = setApplication id c' b).
    { unfold b1, setApplication. cbn [meta script application]. f_equal.
      apply (setProp_setProp _ _ _ _ _ Hget). }
    assert (Hrun : exists scripts puts d,
               evs1 ++ evs2 = scripts ++ puts /\
               (if import_deps options
                then DependenciesImported state b cd scripts d
                else scripts = [] /\ d = inr tt) /\
               match d with
               | inl e => puts = [] /\ c' = cd /\ r = inl e
               | inr _ => ClientUpdated state id (t ++ scripts) cd puts c' r
               end).
    { exists evs1, evs2, (inr tt). auto. }
    destruct r as [e | written].
    + rstep. rewrite app_nil_r. exists c', (inl e). rewrite Hb. auto.
    + rstep. rewrite app_nil_r. exists c', (inr written). rewrite Hb. auto.
Qed.

Lemma importClientStep_runs state options id t b entry response0 errors0 imported0 :
  getProp id (application b) = Some entry ->
  runs (importStep state options (response0, errors0, imported0) id) t b
    (fun evs b' r =>
       exists c' x,
         b' = setApplication id c' b /\
         ClientEntryImported state options b t id entry evs c' x /\
         r = inr (match x with
                  | inr c => (Some c, errors0, imported0 ++ [id])
                  | inl error => (response0, errors0 ++ [error], imported0)
                  end)).
Proof.
  intros Hget. unfold importStep. rstep.
  eapply runs_mono; [apply (importOAuth2ClientEntry_runs _ _ _ _ _ _ Hget) |].
  intros evs b' r [c' [x [-> [-> Hrun]]]].
  destruct x as [e | c]; rstep; rewrite app_nil_r.
  - exists c', (inl e). auto.
  - exists c', (inr c). auto.
Qed.

(** A loop that runs its step on the one key that matches. *)
Lemma selected_loop_runs {S Acc} (target : string) (step : Acc -> string -> M S Acc)
  (ks : list string) (acc : Acc) t (s : S) Q :
  NoDup ks -> In target ks ->
  runs (step acc target) t s Q ->
  runs (forOf ks (fun acc id => if id =? target then step acc id else ret acc) acc) t s Q.
Proof.
  induction ks as [| k ks IH]; intros Hnd Hin Hstep; [destruct Hin |].
  cbn [forOf]. rstep. inversion Hnd as [| k' ks' Hk Hnd']; subst.
  destruct (k =? target) eqn:E.
  - apply String.eqb_eq in E. subst k.
    eapply runs_mono; [exact Hstep |].
    intros evs s' r H. destruct r as [e | acc']; [exact H |].
    eapply runs_mono;
      [apply runs_of_emits, PolicyImportFacts.skipped_loop_emits; exact Hk |].
    intros evs2 s2 r2 [-> [-> ->]]. now rewrite app_nil_r.
  - apply String.eqb_neq in E. destruct Hin as [-> | Hin]; [contradiction |].
    rstep. rewrite app_nil_r. eapply runs_mono; [apply (IH Hnd' Hin Hstep) |].
    intros evs s' r H. exact H.
Qed.

Lemma importOAuth2Client_runs state clientId options t b :
  NoDup (objectKeys (application b)) ->
  runs (importOAuth2Client state clientId options) t b
    (fun evs b' r =>
       match getProp clientId (application b) with
       | None =>
           evs = [] /\ b' = b /\
           r = inl (FrodoError
                      (realm state ++ " oauth2 client " ++ clientId
                       ++ " not found in import data!")
                      [])
       | Some entry =>
           exists c' x,
             b' = setApplication clientId c' b /\
             ClientEntryImported state options b t clientId entry evs c' x /\
             r = selectedResult
                   ("Error importing " ++ realm state ++ " oauth2 client " ++ clientId) x
       end).
Proof.
  intros Hnd. unfold importOAuth2Client. rstep. rstep. cbn [app]. rewrite app_nil_r. rstep.
  destruct (getProp clientId (application b)) as [entry |] eqn:Hget.
  - assert (Hin : In clientId (objectKeys (application b))).
    { now apply (getProp_Some_key _ entry). }
    apply (selected_loop_runs _ (importStep state options) _ _ _ _ _ Hnd Hin).
    eapply runs_mono; [apply (importClientStep_runs _ _ _ _ _ _ _ _ _ Hget) |].
    intros evs b' r [c' [x [-> [Hrun ->]]]].
    destruct x as [e | c]; cbn [app nonEmpty List.length Nat.eqb]; rstep;
      rewrite app_nil_r; eauto.
  - apply getProp_None in Hget.
    eapply runs_mono;
      [apply runs_of_emits, PolicyImportFacts.skipped_loop_emits; exact Hget |].
    intros evs b' r [-> [-> ->]]. cbn [nonEmpty List.length Nat.eqb]. rstep. auto.
Qed.

Lemma importFirstOAuth2Client_runs state options t b :
  runs (importFirstOAuth2Client state options) t b
    (fun evs b' r =>
       match application b with
       | [] =>
           evs = [] /\ b' = b /\
           r = inl (FrodoError "No oauth2 clients found in import data!" [])
       | (id, entry) :: _ =>
           exists c' x,
             b' = setApplication id c' b /\
             ClientEntryImported state options b t id entry evs c' x /\
             r = selectedResult ("Error importing first " ++ realm state ++ " oauth2 client") x
       end).
Proof.
  unfold importFirstOAuth2Client. rstep. rstep. cbn [app]. rewrite app_nil_r. rstep.
  destruct (application b) as [| [id entry] rest] eqn:Hp; cbn [objectKeys map fst].
  - rstep. cbn [nonEmpty List.length Nat.eqb]. rstep. auto.
  - assert (Hget : getProp id (application b) = Some entry).
    { rewrite Hp. apply getProp_cons_same. }
    eapply runs_mono; [apply (importClientStep_runs _ _ _ _ _ _ _ _ _ Hget) |].
    intros evs b' r [c' [x [-> [Hrun ->]]]].
    destruct x as [e | c]; cbn [app nonEmpty List.length Nat.eqb]; rstep;
      rewrite app_nil_r; eauto.
Qed.

Lemma importOAuth2Clients_loop_runs state options b0 :
  forall rest done b acc t,
    application b = done ++ rest ->
    meta b = meta b0 -> script b = script b0 ->
    NoDup (objectKeys (done ++ rest)) ->
    runs (forOf (objectKeys rest)
            (fun (acc : list OAuth2ClientSkeleton * list Error) id =>
               r <- importOAuth2ClientEntry state options id ;;
               ret (match r with
                    | inr c => (fst acc ++ [c], snd acc)
                    | inl error => (fst acc, snd acc ++ [error])
                    end))
            acc) t b
      (fun evs b' r =>
         exists visits,
           ClientsImported state options b0 t rest visits /\
           evs = flat_map visit_events visits /\
           b' = mkExport (meta b0) (script b0) (done ++ visitedEntries rest visits) /\
           r = inr (fst acc ++ visitResponses visits, snd acc ++ visitErrors visits)).
Proof.
  induction rest as [| [k entry] rest IH]; intros done b acc t Hp Hm Hs Hnd;
    cbn [objectKeys map fst forOf].
  - rstep. exists []. cbn. rewrite !app_nil_r. rewrite app_nil_r in Hp.
    split; [exact I | split; [reflexivity | split]].
    + destruct b; cbn in *; congruence.
    + now destruct acc.
  - assert (Hk : ~ In k (objectKeys done)).
    { unfold objectKeys in *. rewrite map_app in Hnd. cbn [map fst] in Hnd.
      apply NoDup_remove_2 in Hnd. intros H. apply Hnd. apply in_or_app. now left. }
    assert (Hget : getProp k (application b) = Some entry).
    { rewrite Hp, (getProp_app_notin _ _ _ Hk). apply getProp_cons_same. }
    rstep. rstep.
    eapply runs_mono; [apply (importOAuth2ClientEntry_runs _ _ _ _ _ _ Hget) |].
    intros evs1 b1 r [c' [x [-> [-> Hrun]]]].
    rstep. rewrite app_nil_r.
    eapply runs_mono.
    + apply (IH (done ++ [(k, c')]) (setApplication k c' b)).
      * cbn [application setApplication].
        rewrite Hp, (setProp_app_present _ _ _ _ _ Hk). now rewrite <- app_assoc.
      * exact Hm.
      * exact Hs.
      * rewrite <- app_assoc. cbn [app]. unfold objectKeys in *.
        rewrite map_app in *. exact Hnd.
    + intros evs2 b2 r2 [visits [Hvisits [-> [-> ->]]]].
      exists (mkVisit evs1 c' x :: visits).
      split; [| split; [| split]].
      * cbn [ClientsImported visit_events visit_client visit_outcome].
        split; [| exact Hvisits].
        unfold ClientEntryImported in *. destruct Hrun as [scripts [puts [d [He [Hd Hu]]]]].
        exists scripts, puts, d. split; [exact He | split; [| exact Hu]].
        destruct (import_deps options); [| exact Hd].
        unfold DependenciesImported, scriptImports, scriptImportsOf in *.
        now rewrite <- Hs.
      * reflexivity.
      * rewrite <- app_assoc. reflexivity.
      * cbn [visitResponses visitErrors flat_map visit_outcome].
        destruct x as [e | c]; cbn [fst snd app]; now rewrite <- ?app_assoc.
Qed.

Lemma importOAuth2Clients_runs state options t b :
  NoDup (objectKeys (application b)) ->
  runs (importOAuth2Clients state options) t b
    (fun evs b' r =>
       exists visits,
         ClientsImported state options b t (application b) visits /\
         evs = flat_map visit_events visits /\
         b' = mkExport (meta b) (script b) (visitedEntries (application b) visits) /\
         r = match visitErrors visits with
             | [] => inr (visitResponses visits)
             | errors =>
                 inl (FrodoError ("Error importing " ++ realm state ++ " oauth2 clients")
                        errors)
             end).
Proof.
  intros Hnd. unfold importOAuth2Clients. rstep. rstep. cbn [app]. rewrite app_nil_r. rstep.
  eapply runs_mono.
  - apply (importOAuth2Clients_loop_runs state options b (application b) [] b ([], []));
      try reflexivity. exact Hnd.
  - intros evs b' r [visits [Hvisits [-> [-> ->]]]]. cbn [app fst snd].
    destruct (visitErrors visits) as [| e errors] eqn:E; cbn [nonEmpty]; rstep;
      rewrite app_nil_r; exists visits; rewrite E; auto.
Qed.

(** *** What the log of a visit holds *)

Lemma scriptImportsOf_writes b references :
  Forall (fun cl => isScriptWrite cl = true) (scriptImportsOf b references).
Proof.
  unfold scriptImportsOf. apply Forall_forall. intros cl H.
  apply in_flat_map in H. destruct H as [v [_ H]].
  destruct (script b) as [scripts |]; [| destruct H].
  destruct (lookup (toPropertyKey v) scripts); cbn [In] in H;
    try (destruct H as [<- | []]; reflexivity). destruct H.
Qed.

Lemma DependenciesImported_writes state b c scripts d :
  DependenciesImported state b c scripts d ->
  Forall (fun ev => isScriptWrite (call ev) = true) scripts.
Proof.
  intros [rest [Hi _]].
  pose proof (scriptImportsOf_writes b (scriptReferences c)) as H.
  fold (scriptImports b c) in H. rewrite Hi in H.
  apply Forall_app in H. destruct H as [H _].
  unfold calls in H. now apply Forall_map in H.
Qed.

Lemma DependenciesImported_failed state b c scripts d :
  DependenciesImported state b c scripts d ->
  (failures scripts = [] <-> exists u, d = inr u).
Proof.
  intros [rest [_ H]]. destruct d as [e | u].
  - destruct H as [done [v [sd [f [-> [Hd _]]]]]]. split.
    + rewrite failures_app. cbn. intros H. apply app_eq_nil in H.
      destruct H as [_ H]. discriminate.
    + intros [u H]. discriminate.
  - split; [eauto | intros _; apply H].
Qed.

Lemma scriptWrites_no_clientWrite id (evs : list Event) :
  Forall (fun ev => isScriptWrite (call ev) = true) evs ->
  filter (fun ev => isClientWrite id (call ev)) evs = [].
Proof.
  induction 1 as [| ev evs Hev _ IH]; [reflexivity |].
  cbn [filter]. destruct (call ev); try discriminate. cbn [isClientWrite]. exact IH.
Qed.

Lemma ClientUpdated_puts state id t c puts c' r :
  ClientUpdated state id t c puts c' r ->
  (exists rest, puts = mkEvent (PutOAuth2Client id c) (failure (hd (mkEvent GetPolicies None) puts))
                       :: rest) /\
  Forall (fun ev => isClientWrite id (call ev) = true) puts /\
  List.length puts <= 2.
Proof.
  assert (Hw : forall payload failure,
             isClientWrite id (call (mkEvent (PutOAuth2Client id payload) failure)) = true).
  { intros payload f. cbn [isClientWrite call]. apply String.eqb_refl. }
  intros H. inversion H; subst; cbn [hd failure List.length];
    (split; [eexists; reflexivity | split; [repeat constructor; apply Hw | lia]]).
Qed.

Lemma ClientUpdated_other state id id' t c puts c' r :
  ClientUpdated state id' t c puts c' r -> id' <> id ->
  filter (fun ev => isClientWrite id (call ev)) puts = [].
Proof.
  intros H Hne. apply String.eqb_neq in Hne.
  inversion H; subst; cbn [filter call isClientWrite]; now rewrite Hne.
Qed.

Lemma ClientUpdated_after state id t entry puts c' r post :
  ClientUpdated state id t (stripClient entry) puts c' r ->
  entryAfterImport id entry (puts ++ post) = c'.
Proof.
  intros H. unfold entryAfterImport.
  inversion H; subst; cbn [app filter call isClientWrite]; rewrite String.eqb_refl;
    try reflexivity;
    match goal with
    | Hr : setsOffRepair _ = _ |- _ => rewrite Hr
    end; try reflexivity;
    match goal with
    | Hl : listedAttributes _ = _ |- _ => now rewrite Hl
    end.
Qed.

Lemma filter_nil_app {A} (f : A -> bool) (l1 l2 : list A) :
  filter f l1 = [] -> filter f (l1 ++ l2) = filter f l2.
Proof. intros H. now rewrite filter_app, H. Qed.

Lemma entryAfterImport_app id entry pre evs :
  filter (fun ev => isClientWrite id (call ev)) pre = [] ->
  entryAfterImport id entry (pre ++ evs) = entryAfterImport id entry evs.
Proof. intros H. unfold entryAfterImport. now rewrite (filter_nil_app _ _ _ H). Qed.

Lemma entryAfterImport_none id entry evs :
  filter (fun ev => isClientWrite id (call ev)) evs = [] ->
  entryAfterImport id entry evs = stripClient entry.
Proof. intros H. unfold entryAfterImport. now rewrite H. Qed.

(** The visit of another key logs no write of the client [id]. *)
Lemma ClientEntryImported_other state options b t id id' entry evs c' x :
  ClientEntryImported state options b t id' entry evs c' x -> id' <> id ->
  filter (fun ev => isClientWrite id (call ev)) evs = [].
Proof.
  intros [scripts [puts [d [-> [Hd Hu]]]]] Hne. rewrite filter_app.
  assert (Hs : filter (fun ev => isClientWrite id (call ev)) scripts = []).
  { destruct (import_deps options).
    - apply scriptWrites_no_clientWrite. now apply (DependenciesImported_writes _ _ _ _ _ Hd).
    - destruct Hd as [-> _]. reflexivity. }
  rewrite Hs. destruct d as [e | u].
  - destruct Hu as [-> _]. reflexivity.
  - now apply (ClientUpdated_other _ _ _ _ _ _ _ _ Hu).
Qed.

(** The entry as its visit leaves it can be read off any log that holds the
    visit and no other write of the client. *)
Lemma ClientEntryImported_after state options b t id entry evs c' x pre post :
  ClientEntryImported state options b t id entry evs c' x ->
  filter (fun ev => isClientWrite id (call ev)) pre = [] ->
  filter (fun ev => isClientWrite id (call ev)) post = [] ->
  entryAfterImport id entry (pre ++ evs ++ post) = c'.
Proof.
  intros [scripts [puts [d [-> [Hd Hu]]]]] Hpre Hpost.
  rewrite (entryAfterImport_app _ _ _ _ Hpre), <- app_assoc.
  assert (Hs : filter (fun ev => isClientWrite id (call ev)) scripts = []).
  { destruct (import_deps options).
    - apply scriptWrites_no_clientWrite. now apply (DependenciesImported_writes _ _ _ _ _ Hd).
    - destruct Hd as [-> _]. reflexivity. }
  rewrite (entryAfterImport_app _ _ _ _ Hs).
  destruct d as [e | u].
  - destruct Hu as [-> [-> _]]. cbn [app]. now apply entryAfterImport_none.
  - now apply (ClientUpdated_after _ _ _ _ _ _ _ _ Hu).
Qed.

(** The visits of the other keys log no write of the client [id]. *)
Lemma ClientsImported_other state options b id :
  forall entries visits t,
    ClientsImported state options b t entries visits ->
    ~ In id (objectKeys entries) ->
    filter (fun ev => isClientWrite id (call ev)) (flat_map visit_events visits) = [].
Proof.
  induction entries as [| [k entry] entries IH]; intros [| v visits] t H Hout;
    cbn [ClientsImported] in H; try contradiction; [reflexivity |].
  destruct H as [Hv Hrest]. cbn [flat_map]. rewrite filter_app.
  rewrite (ClientEntryImported_other _ _ _ _ id _ _ _ _ _ Hv).
  - cbn [app]. apply (IH _ _ Hrest). intros Hin. apply Hout. now right.
  - intros ->. apply Hout. now left.
Qed.

Lemma ClientsImported_after state options b :
  forall entries visits t pre,
    ClientsImported state options b t entries visits ->
    NoDup (objectKeys entries) ->
    (forall id, In id (objectKeys entries) ->
                filter (fun ev => isClientWrite id (call ev)) pre = []) ->
    visitedEntries entries visits =
    map (fun kv => (fst kv,
                    entryAfterImport (fst kv) (snd kv) (pre ++ flat_map visit_events visits)))
      entries.
Proof.
  induction entries as [| [k entry] entries IH]; intros [| v visits] t pre H Hnd Hpre;
    cbn [ClientsImported] in H; try contradiction; [reflexivity |].
  destruct H as [Hv Hrest]. inversion Hnd as [| k' ks Hk Hnd']; subst.
  cbn [visitedEntries combine map fst snd flat_map]. f_equal.
  - f_equal. symmetry.
    apply (ClientEntryImported_after _ _ _ _ _ _ _ _ _ _ _ Hv).
    + apply Hpre. now left.
    + apply (ClientsImported_other _ _ _ _ _ _ _ Hrest Hk).
  - fold (visitedEntries entries visits).
    rewrite (IH visits _ (pre ++ visit_events v) Hrest Hnd').
    + apply map_ext. intros kv. now rewrite <- app_assoc.
    + intros id Hin. rewrite filter_app, (Hpre id (or_intror Hin)). cbn [app].
      apply (ClientEntryImported_other _ _ _ _ id _ _ _ _ _ Hv).
      intros ->. contradiction.
Qed.




End OAuth2ImportFacts.
(** ** OAuth2 client export *)

Module OAuth2ExportFacts.
Import OAuth2ClientOps.

Lemma fetched_app_l evs1 evs2 k : fetched evs1 k -> fetched (evs1 ++ evs2) k.
Proof.
  intros [v [H E]]. exists v. split; [| exact E]. rewrite calls_app. apply in_or_app. now left.
Qed.

Lemma fetched_app_r evs1 evs2 k : fetched evs2 k -> fetched (evs1 ++ evs2) k.
Proof.
  intros [v [H E]]. exists v. split; [| exact E]. rewrite calls_app. apply in_or_app. now right.
Qed.

Lemma fetched_here (ev : Event) evs v : call ev = ReadScript v -> fetched (ev :: evs) (toPropertyKey v).
Proof. intros H. exists v. split; [| reflexivity]. cbn [calls map]. left. exact H. Qed.

Lemma fetchFailed_app_l evs1 evs2 k : fetchFailed evs1 k -> fetchFailed (evs1 ++ evs2) k.
Proof. intros [v [f [H E]]]. exists v, f. split; [apply in_or_app; now left | exact E]. Qed.

Lemma fetchFailed_app_r evs1 evs2 k : fetchFailed evs2 k -> fetchFailed (evs1 ++ evs2) k.
Proof. intros [v [f [H E]]]. exists v, f. split; [apply in_or_app; now right | exact E]. Qed.

Lemma tolerated_nil state : tolerated state [].
Proof. constructor. Qed.

Lemma tolerated_app state evs1 evs2 :
  tolerated state evs1 -> tolerated state evs2 -> tolerated state (evs1 ++ evs2).
Proof.
  unfold tolerated. rewrite failures_app. intros H1 H2. apply Forall_app. now split.
Qed.

Lemma tolerated_untolerated state evs : tolerated state evs <-> untolerated state evs = [].
Proof.
  unfold tolerated, untolerated. induction (failures evs) as [| f fs IH]; cbn [filter].
  - split; [reflexivity | constructor].
  - split.
    + intros H. inversion H as [| f' fs' Hf Hfs]; subst. rewrite Hf. cbn [negb]. now apply IH.
    + destruct (isNotAvailable state f) eqn:E; cbn [negb]; [| discriminate].
      intros H. constructor; [exact E | now apply IH].
Qed.

Lemma untolerated_app state evs1 evs2 :
  untolerated state (evs1 ++ evs2) = untolerated state evs1 ++ untolerated state evs2.
Proof. unfold untolerated. now rewrite failures_app, filter_app. Qed.

Lemma scriptFetched_app_r state usa t evs evs' k s :
  scriptFetched state usa t evs k s -> scriptFetched state usa t (evs ++ evs') k s.
Proof.
  intros [v [a [Hk [Ha Hs]]]]. exists v, a.
  split; [exact Hk | split; [now apply answered_app_r | exact Hs]].
Qed.

Lemma scriptFetched_app_l state usa t evs evs' k s :
  scriptFetched state usa (t ++ evs) evs' k s -> scriptFetched state usa t (evs ++ evs') k s.
Proof.
  intros [v [a [Hk [Ha Hs]]]]. exists v, a.
  split; [exact Hk | split; [now apply answered_app_l | exact Hs]].
Qed.

Lemma isScriptReference_cons key v entries :
  scriptReferencesIn ((key, v) :: entries) =
  if isScriptReference (key, v) then v :: scriptReferencesIn entries
  else scriptReferencesIn entries.
Proof. apply OAuth2ImportFacts.scriptReferencesIn_cons. Qed.

Lemma lookup_Absent_setProp {V} k k0 (v : V) o :
  getProp k0 o = None -> lookup k (setProp k0 v o) = Absent -> lookup k o = Absent.
Proof.
  intros H0 H. destruct (lookup k o) eqn:E; [| | reflexivity]; exfalso.
  - assert (Hk : getProp k o = Some v0).
    { unfold lookup in E. destruct (getProp k o); [congruence |].
      destruct (inherited k); discriminate. }
    apply (lookup_own k v0 (setProp k0 v o)); [| exact H].
    now apply getProp_setProp_keeps.
  - apply lookup_Absent in H. destruct H as [_ H].
    unfold lookup in E. destruct (getProp k o); [discriminate |].
    rewrite H in E. discriminate.
Qed.

(** *** One reference more: what the log says *)

Lemma dependenciesExported_skip state c key v entries scripts evs r :
  isScriptReference (key, v) = false ->
  dependenciesExported state c entries scripts evs r ->
  dependenciesExported state c ((key, v) :: entries) scripts evs r.
Proof.
  intros Href [Hc [Hh Hr]]. unfold dependenciesExported.
  rewrite isScriptReference_cons, Href. split; [exact Hc | split; [exact Hh |]].
  destruct r as [e | u]; [| exact Hr].
  destruct Hr as [evs0 [key' [v' [f [He [Ht [Hna [Hin Hrest]]]]]]]].
  exists evs0, key', v', f. repeat split; try tauto. now right.
Qed.

Lemma dependenciesExported_found state c key v entries scripts evs r :
  isScriptReference (key, v) = true ->
  lookup (toPropertyKey v) scripts <> Absent ->
  dependenciesExported state c entries scripts evs r ->
  dependenciesExported state c ((key, v) :: entries) scripts evs r.
Proof.
  intros Href Hl [Hc [Hh Hr]]. unfold dependenciesExported.
  rewrite isScriptReference_cons, Href. split; [| split].
  - eapply Forall_impl; [| exact Hc]. intros cl [v' [-> [Hv Ha]]]. exists v'.
    split; [reflexivity | split; [now right | exact Ha]].
  - intros v' [= <-]. now left.
  - destruct r as [e | u].
    + destruct Hr as [evs0 [key' [v' [f [He [Ht [Hna [Hin Hrest]]]]]]]].
      exists evs0, key', v', f. repeat split; try tauto. now right.
    + destruct Hr as [Ht Hall]. split; [exact Ht |].
      intros v' [<- | Hv]; [now left | now apply Hall].
Qed.

Lemma dependenciesExported_read state c key v added entries scripts evs r :
  isScriptReference (key, v) = true ->
  lookup (toPropertyKey v) scripts = Absent ->
  dependenciesExported state c entries (setProp (toPropertyKey v) added scripts) evs r ->
  dependenciesExported state c ((key, v) :: entries) scripts
    (mkEvent (ReadScript v) None :: evs) r.
Proof.
  intros Href Hl [Hc [Hh Hr]]. unfold dependenciesExported.
  assert (Hnone : getProp (toPropertyKey v) scripts = None).
  { now apply lookup_Absent in Hl. }
  assert (Hfetch : fetched (mkEvent (ReadScript v) None :: evs) (toPropertyKey v)).
  { now apply fetched_here. }
  assert (Hcover : forall v',
             lookup (toPropertyKey v') (setProp (toPropertyKey v) added scripts) <> Absent \/
             fetched evs (toPropertyKey v') ->
             lookup (toPropertyKey v') scripts <> Absent \/
             fetched (mkEvent (ReadScript v) None :: evs) (toPropertyKey v')).
  { intros v' [H | H].
    - apply lookup_setProp_inv in H. destruct H as [-> | H]; auto.
    - right. now apply (fetched_app_r [_]). }
  rewrite isScriptReference_cons, Href. split; [| split].
  - cbn [calls map call]. constructor.
    + exists v. split; [reflexivity | split; [now left | exact Hl]].
    + eapply Forall_impl; [| exact Hc]. intros cl [v' [-> [Hv Ha]]]. exists v'.
      split; [reflexivity | split; [now right |]].
      now apply (lookup_Absent_setProp _ _ added _ Hnone).
  - intros v' [= <-]. now right.
  - destruct r as [e | u].
    + destruct Hr as [evs0 [key' [v' [f [-> [Ht [Hna [Hin Hrest]]]]]]]].
      exists (mkEvent (ReadScript v) None :: evs0), key', v', f.
      split; [reflexivity | split; [exact Ht |]]. repeat split; try tauto. now right.
    + destruct Hr as [Ht Hall]. split; [exact Ht |].
      intros v' [<- | Hv]; [now right |]. apply Hcover. now apply Hall.
Qed.

Lemma dependenciesExported_unavailable state c key v f entries scripts evs r :
  isScriptReference (key, v) = true ->
  lookup (toPropertyKey v) scripts = Absent ->
  isNotAvailable state f = true ->
  dependenciesExported state c entries scripts evs r ->
  dependenciesExported state c ((key, v) :: entries) scripts
    (mkEvent (ReadScript v) (Some f) :: evs) r.
Proof.
  intros Href Hl Hna [Hc [Hh Hr]]. unfold dependenciesExported.
  assert (Hfetch : fetched (mkEvent (ReadScript v) (Some f) :: evs) (toPropertyKey v)).
  { now apply fetched_here. }
  assert (Htol : forall evs0, tolerated state evs0 ->
                              tolerated state (mkEvent (ReadScript v) (Some f) :: evs0)).
  { intros evs0 H. unfold tolerated. cbn [failures flat_map failure app].
    constructor; [exact Hna | exact H]. }
  rewrite isScriptReference_cons, Href. split; [| split].
  - cbn [calls map call]. constructor.
    + exists v. split; [reflexivity | split; [now left | exact Hl]].
    + eapply Forall_impl; [| exact Hc]. intros cl [v' [-> [Hv Ha]]]. exists v'.
      split; [reflexivity | split; [now right | exact Ha]].
  - intros v' [= <-]. now right.
  - destruct r as [e | u].
    + destruct Hr as [evs0 [key' [v' [f' [-> [Ht [Hna' [Hin Hrest]]]]]]]].
      exists (mkEvent (ReadScript v) (Some f) :: evs0), key', v', f'.
      split; [reflexivity | split; [now apply Htol |]]. repeat split; try tauto. now right.
    + destruct Hr as [Ht Hall]. split; [now apply Htol |].
      intros v' [<- | Hv]; [now right |].
      destruct (Hall v' Hv) as [H | H]; [now left | right; now apply (fetched_app_r [_])].
Qed.

Lemma dependenciesExported_failed state c key v rj entries scripts :
  isScriptReference (key, v) = true ->
  lookup (toPropertyKey v) scripts = Absent ->
  isNotAvailable state (Thrown rj) = false ->
  dependenciesExported state c ((key, v) :: entries) scripts
    [mkEvent (ReadScript v) (Some (Thrown rj))]
    (inl (FrodoError
            ("Error retrieving " ++ realm state ++ " script " ++ toPropertyKey v
             ++ " referenced by " ++ key ++ " key in client " ++ client_id c)
            [Thrown rj])).
Proof.
  intros Href Hl Hna. unfold dependenciesExported.
  rewrite isScriptReference_cons, Href. split; [| split].
  - cbn [calls map call]. constructor; [| constructor].
    exists v. split; [reflexivity | split; [now left | exact Hl]].
  - intros v' [= <-]. right. now apply fetched_here.
  - exists [], key, v, rj. cbn [app].
    split; [reflexivity | split; [apply tolerated_nil |]]. repeat split; auto. now left.
Qed.

(** *** One reference more: what the script collection holds *)

Lemma scriptsExported_skip state usa t key v entries scripts evs scripts' r :
  isScriptReference (key, v) = false ->
  scriptsExported state usa t entries scripts evs scripts' r ->
  scriptsExported state usa t ((key, v) :: entries) scripts evs scripts' r.
Proof.
  intros Href H. unfold scriptsExported in *. now rewrite isScriptReference_cons, Href.
Qed.

Lemma scriptsExported_found state usa t key v entries scripts evs scripts' r :
  isScriptReference (key, v) = true ->
  lookup (toPropertyKey v) scripts <> Absent ->
  scriptsExported state usa t entries scripts evs scripts' r ->
  scriptsExported state usa t ((key, v) :: entries) scripts evs scripts' r.
Proof.
  intros Href Hl [Hkept [Horigin Hall]]. unfold scriptsExported.
  rewrite isScriptReference_cons, Href. split; [exact Hkept | split].
  - intros k s H. destruct (Horigin k s H) as [Ho | [Hf [v' [Hv Hk]]]]; [now left | right].
    split; [exact Hf |]. exists v'. split; [now right | exact Hk].
  - intros u Hu v' [<- | Hv]; [| now apply (Hall u Hu)].
    left. apply (lookup_kept _ scripts); [apply Hkept | exact Hl].
Qed.

Lemma scriptsExported_read state usa t key v a entries scripts evs scripts' r :
  isScriptReference (key, v) = true ->
  lookup (toPropertyKey v) scripts = Absent ->
  readScript state t v = inr a ->
  scriptsExported state usa (t ++ [mkEvent (ReadScript v) None]) entries
    (setProp (toPropertyKey v) (exportedScript state usa a) scripts) evs scripts' r ->
  scriptsExported state usa t ((key, v) :: entries) scripts
    (mkEvent (ReadScript v) None :: evs) scripts' r.
Proof.
  intros Href Hl Hread [Hkept [Horigin Hall]]. unfold scriptsExported.
  assert (Hnone : getProp (toPropertyKey v) scripts = None).
  { now apply lookup_Absent in Hl. }
  rewrite isScriptReference_cons, Href. split; [| split].
  - intros k s H. apply Hkept. now apply getProp_setProp_keeps.
  - intros k s H. destruct (Horigin k s H) as [Ho | [Hf [v' [Hv Hk]]]].
    + apply getProp_setProp_inv in Ho. destruct Ho as [[-> ->] | Ho]; [right | now left].
      split.
      * exists v, a. split; [reflexivity | split; [| reflexivity]].
        exists [], evs. split; [reflexivity | now rewrite app_nil_r].
      * exists v. split; [now left | reflexivity].
    + right. split.
      * now apply (scriptFetched_app_l _ _ _ [_]).
      * exists v'. split; [now right | exact Hk].
  - intros u Hu v' [<- | Hv].
    + left. apply (lookup_own _ (exportedScript state usa a)). apply Hkept.
      apply getProp_setProp_same. now apply (lookup_Absent_named _ scripts).
    + destruct (Hall u Hu v' Hv) as [H | H]; [now left | right].
      now apply (fetchFailed_app_r [_]).
Qed.

Lemma scriptsExported_unavailable state usa t key v f entries scripts evs scripts' r :
  isScriptReference (key, v) = true ->
  scriptsExported state usa (t ++ [mkEvent (ReadScript v) (Some f)]) entries scripts evs
    scripts' r ->
  scriptsExported state usa t ((key, v) :: entries) scripts
    (mkEvent (ReadScript v) (Some f) :: evs) scripts' r.
Proof.
  intros Href [Hkept [Horigin Hall]]. unfold scriptsExported.
  rewrite isScriptReference_cons, Href. split; [exact Hkept | split].
  - intros k s H. destruct (Horigin k s H) as [Ho | [Hf [v' [Hv Hk]]]]; [now left | right].
    split.
    + now apply (scriptFetched_app_l _ _ _ [_]).
    + exists v'. split; [now right | exact Hk].
  - intros u Hu v' [<- | Hv].
    + right. exists v, f. split; [now left | reflexivity].
    + destruct (Hall u Hu v' Hv) as [H | H]; [now left | right].
      now apply (fetchFailed_app_r [_]).
Qed.

Lemma scriptsExported_failed state usa t entries scripts evs e :
  scriptsExported state usa t entries scripts evs scripts (inl e).
Proof.
  split; [auto | split; [auto |]]. intros u H. discriminate.
Qed.

Lemma scriptsExported_nil state usa t scripts r :
  scriptsExported state usa t [] scripts [] scripts r.
Proof. split; [auto | split; [auto |]]. intros u _ v []. Qed.

(** The loop of [exportOAuth2ClientDependencies]. *)
Lemma exportDependencies_loop_runs state clientData options :
  forall entries t b scripts,
    script b = Some scripts ->
    runs (forOf entries (exportReference state clientData options) tt) t b
      (fun evs b' r =>
         meta b' = meta b /\ application b' = application b /\
         (exists scripts',
            script b' = Some scripts' /\
            scriptsExported state (useStringArrays options) t entries scripts evs scripts' r) /\
         dependenciesExported state clientData entries scripts evs r).
Proof.
  induction entries as [| [key scriptId] entries IH]; intros t b scripts Hs; cbn [forOf].
  - rstep. split; [reflexivity | split; [reflexivity | split]].
    + exists scripts. split; [exact Hs | apply scriptsExported_nil].
    + split; [constructor | split; [discriminate |]].
      split; [apply tolerated_nil | intros v []].
  - rstep. unfold exportReference at 1. cbn [fst snd].
    destruct (isScriptReference (key, scriptId)) eqn:Href.
    2:{ assert (Hgoal : forall m : M OAuth2ClientExportInterface unit,
                  m = ret tt ->
                  runs m t b
                    (fun evs1 s1 r1 =>
                       match r1 with
                       | inr a =>
                           runs (forOf entries (exportReference state clientData options) a)
                             (t ++ evs1) s1
                             (fun evs2 s2 r =>
                                meta s2 = meta b /\ application s2 = application b /\
                                (exists scripts',
                                   script s2 = Some scripts' /\
                                   scriptsExported state (useStringArrays options) t
                                     ((key, scriptId) :: entries) scripts (evs1 ++ evs2)
                                     scripts' r) /\
                                dependenciesExported state clientData
                                  ((key, scriptId) :: entries) scripts (evs1 ++ evs2) r)
                       | inl e =>
                           meta s1 = meta b /\ application s1 = application b /\
                           (exists scripts',
                              script s1 = Some scripts' /\
                              scriptsExported state (useStringArrays options) t
                                ((key, scriptId) :: entries) scripts evs1 scripts' (inl e)) /\
                           dependenciesExported state clientData
                             ((key, scriptId) :: entries) scripts evs1 (inl e)
                       end)).
        { intros m ->. rstep. rewrite app_nil_r.
          eapply runs_mono; [apply (IH t b scripts Hs) |].
          intros evs b' r [Hm [Ha [[scripts' [Hs' Hx]] Hd]]]. cbn [app].
          split; [exact Hm | split; [exact Ha | split]].
          - exists scripts'. split; [exact Hs' | now apply scriptsExported_skip].
          - now apply dependenciesExported_skip. }
        apply Hgoal. unfold isScriptReference in Href. cbn [fst snd] in Href.
        destruct (endsWith key "Script"); [| reflexivity].
        cbn [andb] in Href. apply negb_false_iff in Href. now rewrite Href. }
    unfold isScriptReference in Href. cbn [fst snd] in Href.
    apply andb_true_iff in Href. destruct Href as [Hends Hemp].
    apply negb_true_iff in Hemp. rewrite Hends, Hemp.
    assert (Href : isScriptReference (key, scriptId) = true).
    { unfold isScriptReference. cbn [fst snd]. now rewrite Hends, Hemp. }
    rstep. rstep. cbn [app]. rewrite Hs, app_nil_r.
    destruct (lookup (toPropertyKey scriptId) scripts) as [d | |] eqn:Hl.
    + rstep. rewrite app_nil_r.
      eapply runs_mono; [apply (IH t b scripts Hs) |].
      intros evs b' r [Hm [Ha [[scripts' [Hs' Hx]] Hd]]]. cbn [app].
      assert (Hfound : lookup (toPropertyKey scriptId) scripts <> Absent)
        by (rewrite Hl; discriminate).
      split; [exact Hm | split; [exact Ha | split]].
      * exists scripts'. split; [exact Hs' | now apply scriptsExported_found].
      * now apply dependenciesExported_found.
    + rstep. rewrite app_nil_r.
      eapply runs_mono; [apply (IH t b scripts Hs) |].
      intros evs b' r [Hm [Ha [[scripts' [Hs' Hx]] Hd]]]. cbn [app].
      assert (Hfound : lookup (toPropertyKey scriptId) scripts <> Absent)
        by (rewrite Hl; discriminate).
      split; [exact Hm | split; [exact Ha | split]].
      * exists scripts'. split; [exact Hs' | now apply scriptsExported_found].
      * now apply dependenciesExported_found.
    + rstep. rstep. rstep.
      destruct (readScript state t scriptId) as [rj | a] eqn:Hread.
      * (* the read fails *)
        destruct (isNotAvailable state (Thrown rj)) eqn:Hna.
        -- rstep. rewrite app_nil_r.
           eapply runs_mono; [apply (IH _ b scripts Hs) |].
           intros evs b' r [Hm [Ha [[scripts' [Hs' Hx]] Hd]]]. cbn [app].
           split; [exact Hm | split; [exact Ha | split]].
           ++ exists scripts'. split; [exact Hs' | now apply scriptsExported_unavailable].
           ++ now apply dependenciesExported_unavailable.
        -- rstep. rewrite app_nil_r.
           split; [reflexivity | split; [reflexivity | split]].
           ++ exists scripts. split; [exact Hs | apply scriptsExported_failed].
           ++ now apply dependenciesExported_failed.
      * (* the script is read and added *)
        rstep. rewrite app_nil_r.
        fold (exportedScript state (useStringArrays options) a).
        set (added := exportedScript state (useStringArrays options) a).
        set (b1 := setScript (toPropertyKey scriptId) added b).
        assert (Hs1 : script b1 = Some (setProp (toPropertyKey scriptId) added scripts)).
        { unfold b1, setScript. cbn [script]. now rewrite Hs. }
        eapply runs_mono; [apply (IH _ b1 _ Hs1) |].
        intros evs b' r [Hm [Ha [[scripts' [Hs' Hx]] Hd]]]. cbn [app].
        split; [exact Hm | split; [exact Ha | split]].
        -- exists scripts'. split; [exact Hs' |].
           now apply (scriptsExported_read _ _ _ _ _ a).
        -- now apply (dependenciesExported_read _ _ _ _ added).
Qed.

Lemma exportOAuth2ClientDependencies_runs state clientData options t b scripts :
  script b = Some scripts ->
  runs (exportOAuth2ClientDependencies state clientData options) t b
    (fun evs b' r =>
       meta b' = meta b /\ application b' = application b /\
       (exists scripts',
          script b' = Some scripts' /\
          scriptsExported state (useStringArrays options) t (overrideEntries clientData)
            scripts evs scripts' r) /\
       dependenciesExported state clientData (overrideEntries clientData) scripts evs r).
Proof.
  intros Hs. unfold exportOAuth2ClientDependencies, overrideEntries.
  destruct (truthy (overrideOAuth2ClientConfig clientData)).
  - apply (exportDependencies_loop_runs state clientData options _ t b scripts Hs).
  - rstep. split; [reflexivity | split; [reflexivity | split]].
    + exists scripts. split; [exact Hs | apply scriptsExported_nil].
    + split; [constructor | split; [discriminate |]].
      split; [apply tolerated_nil | intros v []].
Qed.

Lemma readOAuth2Clients_eq {S} state (t : Trace) (s : S) :
  readOAuth2Clients state (t, s) =
  ((t ++ [listingEvent state t], s),
   match listedClients state t with
   | Some clients => inr clients
   | None =>
       inl (FrodoError ("Error reading " ++ realm state ++ " oauth2 clients")
              (match _getOAuth2Clients state t with
               | inl r => [Thrown r]
               | inr _ => []
               end))
   end).
Proof.
  unfold readOAuth2Clients, listedClients, listingEvent, tryCatch.
  destruct (_getOAuth2Clients state t) as [r | clients] eqn:E.
  - rewrite (remote_fail _ _ _ _ _ E).
    now destruct (responseIs 403 notAvailable (Thrown r)).
  - now rewrite (remote_ok _ _ _ _ _ E).
Qed.

Lemma overrideEntries_provider provider c :
  overrideEntries (withProvider provider c) = overrideEntries c.
Proof.
  unfold overrideEntries, overrideOAuth2ClientConfig, withProvider. cbn [client_attrs].
  rewrite getProp_setProp_other; [reflexivity | discriminate].
Qed.

Lemma scriptReferences_provider provider c :
  scriptReferences (withProvider provider c) = scriptReferences c.
Proof. unfold scriptReferences. now rewrite overrideEntries_provider. Qed.

Lemma storedClients_snoc provider done c stored :
  storedClients provider (done ++ [c]) stored =
  setProp (client_id c) (withProvider provider c) (storedClients provider done stored).
Proof. unfold storedClients. now rewrite fold_left_app. Qed.

Lemma referencedBy_app_l done c k : referencedBy done k -> referencedBy (done ++ [c]) k.
Proof.
  intros [c' [v [Hc [Hv Hk]]]]. exists c', v.
  split; [apply in_or_app; now left | split; [exact Hv | exact Hk]].
Qed.

Lemma scriptFetched_fetched state usa t evs k s :
  scriptFetched state usa t evs k s -> fetched evs k.
Proof.
  intros [v [a [Hk [[pre [post [-> _]]] _]]]]. exists v. split; [| exact Hk].
  rewrite calls_app. apply in_or_app. right. now left.
Qed.

Lemma untolerated_tolerated state evs : tolerated state evs -> untolerated state evs = [].
Proof. apply tolerated_untolerated. Qed.

Lemma dependenciesExported_untolerated state c entries scripts evs (r : Error + unit) :
  dependenciesExported state c entries scripts evs r ->
  flat_map leaves (match r with inl e => [e] | inr _ => [] end) = untolerated state evs /\
  List.length (match r with inl e => [e] | inr _ => [] end) =
    List.length (untolerated state evs).
Proof.
  intros [_ [_ Hr]]. destruct r as [e | u].
  - destruct Hr as [evs0 [key [v [rj [-> [Ht [Hna [_ [_ ->]]]]]]]]].
    rewrite untolerated_app, (untolerated_tolerated _ _ Ht).
    unfold untolerated. cbn [failures flat_map failure app filter]. rewrite Hna.
    cbn. auto.
  - destruct Hr as [Ht _]. rewrite (untolerated_tolerated _ _ Ht). auto.
Qed.

(** The loop of [exportOAuth2Clients] on the clients listed. *)
Lemma exportOAuth2Clients_loop_runs state options provider clients t b0 :
  script b0 = Some [] ->
  runs (forOf clients
          (fun errors client =>
             pushed <-
               attempt
                 (let client' :=
                    mkClient (client_id client)
                      (setProp "_provider" provider (client_attrs client)) in
                  modify (setApplication (client_id client') client') ;;
                  if deps options
                  then exportOAuth2ClientDependencies state client' options
                  else ret tt)
                 (fun error => error) ;;
             ret (errors ++ pushed))
          []) t b0
    (fun evs b r =>
       meta b = meta b0 /\
       application b = storedClients provider clients (application b0) /\
       Forall (fun cl => isScriptRead cl = true) (calls evs) /\
       (exists scripts,
          script b = Some scripts /\
          (forall k s, getProp k scripts = Some s ->
                       scriptFetched state (useStringArrays options) t evs k s /\
                       referencedBy clients k) /\
          (deps options = true -> untolerated state evs = [] ->
           forall c v, In c clients -> In v (scriptReferences c) ->
                       lookup (toPropertyKey v) scripts <> Absent \/
                       fetchFailed evs (toPropertyKey v))) /\
       (deps options = true ->
        forall c, In c clients ->
        forall v, head (scriptReferences c) = Some v ->
                  inherited (toPropertyKey v) = true \/ fetched evs (toPropertyKey v)) /\
       (deps options = false -> evs = []) /\
       exists errors,
         r = inr errors /\
         flat_map leaves errors = untolerated state evs /\
         List.length errors = List.length (untolerated state evs)).
Proof.
  intros Hs0.
  apply runs_forOf with
    (I := fun done errors evs b =>
            meta b = meta b0 /\
            application b = storedClients provider done (application b0) /\
            Forall (fun cl => isScriptRead cl = true) (calls evs) /\
            (exists scripts,
               script b = Some scripts /\
               (forall k s, getProp k scripts = Some s ->
                            scriptFetched state (useStringArrays options) t evs k s /\
                            referencedBy done k) /\
               (deps options = true -> untolerated state evs = [] ->
                forall c v, In c done -> In v (scriptReferences c) ->
                            lookup (toPropertyKey v) scripts <> Absent \/
                            fetchFailed evs (toPropertyKey v))) /\
            (deps options = true ->
             forall c, In c done ->
             forall v, head (scriptReferences c) = Some v ->
                       inherited (toPropertyKey v) = true \/ fetched evs (toPropertyKey v)) /\
            (deps options = false -> evs = []) /\
            flat_map leaves errors = untolerated state evs /\
            List.length errors = List.length (untolerated state evs)).
  - intros done x rest errors evs b _
      [Hm [Ha [Hreads [[scripts [Hs [Horigin Hall]]] [Hatt [Hoff [Hleaves Hlen]]]]]]].
    cbv zeta. fold (withProvider provider x).
    set (client' := withProvider provider x).
    change (client_id client') with (client_id x).
    rstep. rstep. rstep. rstep. cbn [app]. rewrite app_nil_r.
    set (b1 := setApplication (client_id x) client' b).
    apply runs_mono with
      (Q := fun evs2 b' (r : Error + unit) =>
              meta b' = meta b1 /\ application b' = application b1 /\
              if deps options
              then (exists scripts',
                      script b' = Some scripts' /\
                      scriptsExported state (useStringArrays options) (t ++ evs)
                        (overrideEntries x) scripts evs2 scripts' r) /\
                   dependenciesExported state client' (overrideEntries x) scripts evs2 r
              else evs2 = [] /\ script b' = Some scripts /\ r = inr tt).
    { destruct (deps options).
      - eapply runs_mono;
          [apply (exportOAuth2ClientDependencies_runs state client' options _ b1 scripts Hs) |].
        intros evs2 b' r H. subst client'.
        rewrite !overrideEntries_provider in H. exact H.
      - rstep. auto. }
    intros evs2 b' r [Hm2 [Ha2 Hdeps]].
    assert (G : forall pushed,
               pushed = match r with inl e => [e] | inr _ => [] end ->
               meta b' = meta b0 /\
               application b' = storedClients provider (done ++ [x]) (application b0) /\
               Forall (fun cl => isScriptRead cl = true) (calls (evs ++ evs2)) /\
               (exists scripts0,
                  script b' = Some scripts0 /\
                  (forall k s, getProp k scripts0 = Some s ->
                               scriptFetched state (useStringArrays options) t (evs ++ evs2) k s /\
                               referencedBy (done ++ [x]) k) /\
                  (deps options = true -> untolerated state (evs ++ evs2) = [] ->
                   forall c v, In c (done ++ [x]) -> In v (scriptReferences c) ->
                               lookup (toPropertyKey v) scripts0 <> Absent \/
                               fetchFailed (evs ++ evs2) (toPropertyKey v))) /\
               (deps options = true ->
                forall c, In c (done ++ [x]) ->
                forall v, head (scriptReferences c) = Some v ->
                          inherited (toPropertyKey v) = true \/
                          fetched (evs ++ evs2) (toPropertyKey v)) /\
               (deps options = false -> evs ++ evs2 = []) /\
               flat_map leaves (errors ++ pushed) = untolerated state (evs ++ evs2) /\
               List.length (errors ++ pushed) =
                 List.length (untolerated state (evs ++ evs2))).
    { intros pushed ->.
      split; [rewrite Hm2; exact Hm |].
      split; [rewrite Ha2, storedClients_snoc, <- Ha; reflexivity |].
      destruct (deps options) eqn:Hdp.
      - destruct Hdeps as [[scripts' [Hs' [Hkept [Horigin' Hall']]]] Hd].
        pose proof (dependenciesExported_untolerated _ _ _ _ _ _ Hd) as [Hl2 Hn2].
        destruct Hd as [Hc [Hh Hr]].
        split; [| split; [| split; [| split; [| split]]]].
        + rewrite calls_app. apply Forall_app. split; [exact Hreads |].
          eapply Forall_impl; [| exact Hc]. now intros cl [v [-> _]].
        + exists scripts'. split; [exact Hs' | split].
          * intros k s Hk. destruct (Horigin' k s Hk) as [Ho | [Hf [v [Hv Hkey]]]].
            -- destruct (Horigin k s Ho) as [Hf Hr0].
               split; [now apply scriptFetched_app_r | now apply referencedBy_app_l].
            -- split; [now apply scriptFetched_app_l |].
               exists x, v. split; [apply in_or_app; right; now left | auto].
          * intros _ Hun c v Hin Hv. rewrite untolerated_app in Hun.
            apply app_eq_nil in Hun. destruct Hun as [Hun1 Hun2].
            apply in_app_or in Hin. destruct Hin as [Hin | [<- | []]].
            -- destruct (Hall eq_refl Hun1 c v Hin Hv) as [H | H].
               ++ left. apply (lookup_kept _ scripts); [apply Hkept | exact H].
               ++ right. now apply fetchFailed_app_l.
            -- destruct r as [e | u].
               ++ rewrite Hun2 in Hn2. discriminate.
               ++ destruct (Hall' u eq_refl v Hv) as [H | H]; [now left | right].
                  now apply fetchFailed_app_r.
        + intros _ c Hin v Hv. apply in_app_or in Hin. destruct Hin as [Hin | [<- | []]].
          * destruct (Hatt eq_refl c Hin v Hv) as [H | H];
              [now left | right; now apply fetched_app_l].
          * destruct (Hh v Hv) as [H | H]; [| right; now apply fetched_app_r].
            unfold lookup in H.
            destruct (getProp (toPropertyKey v) scripts) as [s |] eqn:Hget.
            -- right. apply fetched_app_l.
               apply (scriptFetched_fetched state (useStringArrays options) t _ _ s).
               now apply Horigin.
            -- left. destruct (inherited (toPropertyKey v)); [reflexivity | now contradiction H].
        + discriminate.
        + now rewrite flat_map_app, untolerated_app, Hleaves, Hl2.
        + now rewrite length_app, untolerated_app, length_app, Hlen, Hn2.
      - destruct Hdeps as [-> [Hs' ->]]. rewrite !app_nil_r.
        split; [exact Hreads | split; [| split; [| split; [| split]]]].
        + exists scripts. split; [exact Hs' | split].
          * intros k s Hk. destruct (Horigin k s Hk) as [Hf Hr0].
            split; [exact Hf | now apply referencedBy_app_l].
          * discriminate.
        + discriminate.
        + exact Hoff.
        + exact Hleaves.
        + exact Hlen. }
    destruct r as [e | u]; rstep; rewrite (app_nil_r evs2); now apply G.
  - intros errors evs b [Hm [Ha [Hreads [Hscripts [Hatt [Hoff [Hleaves Hlen]]]]]]].
    split; [exact Hm | split; [exact Ha | split; [exact Hreads | split; [exact Hscripts |]]]].
    split; [exact Hatt | split; [exact Hoff |]]. exists errors. auto.
  - split; [reflexivity | split; [reflexivity | split; [constructor | split]]].
    + exists []. split; [exact Hs0 | split].
      * intros k s H. discriminate.
      * intros _ _ c v [].
    + split; [intros _ c [] | split; [reflexivity | split; reflexivity]].
Qed.

End OAuth2ExportFacts.
(** ** Policy export *)

Module PolicyExportFacts.
Import PolicyOps.

Lemma getScripts_emits {S} state policyData (s : S) :
  emits (getScripts state policyData) s
    (fun evs s' r => s' = s /\ calls evs = scriptReads policyData /\ reports r evs).
Proof.
  unfold getScripts, scriptReads. cbv zeta. estep.
  apply emits_forOf with
    (I := fun done (acc : list ScriptSkeleton * list Error) evs s' =>
            s' = s /\
            calls evs = map (fun scriptUuid => ReadScript (idVal scriptUuid)) done /\
            accounts (snd acc) evs).
  - intros done x rest acc evs s' _ [-> [Hc Ha]].
    estep. estep. estep.
    + intros a. estep. cbn [snd]. rewrite app_nil_r.
      split; [reflexivity | split].
      * now rewrite calls_app, map_app, Hc.
      * rewrite <- (app_nil_r (snd acc)). apply accounts_app; [exact Ha | apply accounts_ok].
    + intros r. estep. cbn [snd]. rewrite app_nil_r.
      split; [reflexivity | split].
      * now rewrite calls_app, map_app, Hc.
      * apply accounts_app; [exact Ha |]. apply accounts_wrap1, accounts_fail.
  - intros acc evs s' [-> [Hc Ha]].
    destruct (nonEmpty (snd acc)) eqn:E; estep; rewrite app_nil_r;
      (split; [reflexivity | split; [exact Hc |]]).
    + apply accounts_wrap; [exact Ha | now apply nonEmpty_true].
    + apply nonEmpty_false in E. unfold reports. now rewrite <- E.
  - split; [reflexivity | split; [reflexivity | apply accounts_nil]].
Qed.

Lemma attempt_remote_modify_emits {S A} (c : Call) (answer : Trace -> Rejection + A)
  (f : A -> S -> S) (s : S) :
  emits (attempt (x <- remote c answer ;; modify (f x)) (fun error => error)) s
    (fun evs s' r => calls evs = [c] /\ exists errors, r = inr errors /\ accounts errors evs).
Proof.
  estep. estep. estep.
  - intros a. estep. rewrite app_nil_r. split; [reflexivity |].
    exists []. split; [reflexivity | apply accounts_ok].
  - intros r. split; [reflexivity |].
    eexists. split; [reflexivity | apply accounts_fail].
Qed.

Lemma exportPolicyPrerequisites_emits state policyData b :
  emits (exportPolicyPrerequisites state policyData) b
    (fun evs b' r => calls evs = prerequisiteReads policyData /\ reports r evs).
Proof.
  unfold exportPolicyPrerequisites, prerequisiteReads. estep.
  apply emits_mono with
    (Q := fun evs1 (b' : PolicyExportInterface) (r : Error + list Error) =>
            calls evs1 = (if negb (resourceTypeUuid policyData =? "")
                          then [GetResourceType (resourceTypeUuid policyData)]
                          else []) /\
            exists e1, r = inr e1 /\ accounts e1 evs1).
  { destruct (negb (resourceTypeUuid policyData =? "")).
    - apply attempt_remote_modify_emits.
    - estep. split; [reflexivity |]. exists []. split; [reflexivity | apply accounts_nil]. }
  intros evs1 b1 r1 [Hc1 [e1 [-> Ha1]]].
  estep.
  apply emits_mono with
    (Q := fun evs2 (b' : PolicyExportInterface) (r : Error + list Error) =>
            calls evs2 = (if negb (applicationName policyData =? "")
                          then [ReadPolicySet (applicationName policyData)]
                          else []) /\
            exists e2, r = inr e2 /\ accounts e2 evs2).
  { destruct (negb (applicationName policyData =? "")).
    - apply attempt_remote_modify_emits.
    - estep. split; [reflexivity |]. exists []. split; [reflexivity | apply accounts_nil]. }
  intros evs2 b2 r2 [Hc2 [e2 [-> Ha2]]].
  assert (Ha : accounts (e1 ++ e2) (evs1 ++ evs2)) by now apply accounts_app.
  destruct (nonEmpty (e1 ++ e2)) eqn:E; estep; rewrite app_nil_r;
    (split; [now rewrite calls_app, Hc1, Hc2 |]).
  - apply accounts_wrap; [exact Ha | now apply nonEmpty_true].
  - apply nonEmpty_false in E. unfold reports. now rewrite <- E.
Qed.

Lemma exportPolicyDependencies_emits state policyData options b :
  emits (exportPolicyDependencies state policyData options) b
    (fun evs b' r => calls evs = scriptReads policyData /\ reports r evs).
Proof.
  unfold exportPolicyDependencies. estep. estep.
  eapply emits_mono; [apply getScripts_emits |].
  intros evs1 b1 r1 [-> [Hc Hr]].
  destruct r1 as [e | scripts].
  - estep. rewrite app_nil_r. split; [exact Hc |]. now apply accounts_wrap1.
  - apply emits_forOf with
      (I := fun (done : list ScriptSkeleton) (_ : unit) evs (_ : PolicyExportInterface) =>
              evs = []).
    + intros done x rest [] evs s' _ ->. estep. reflexivity.
    + intros [] evs s' ->. rewrite app_nil_r. split; [exact Hc | exact Hr].
    + reflexivity.
Qed.

Lemma exportPolicyItem_emits state options policyData (sl : PolicyExportInterface * list Error) :
  emits (exportPolicyItem state options policyData) sl
    (fun evs sl' r =>
       r = inr tt /\ calls evs = policyReads options policyData /\
       exists pushed, snd sl' = snd sl ++ pushed /\ accounts pushed evs).
Proof.
  unfold exportPolicyItem, policyReads. estep. estep. estep. cbn [fst snd app].
  estep.
  apply emits_mono with
    (Q := fun evs1 (sl' : PolicyExportInterface * list Error) (r : Error + unit) =>
            r = inr tt /\
            calls evs1 = (if prereqs options then prerequisiteReads policyData else []) /\
            exists pushed, snd sl' = snd sl ++ pushed /\ accounts pushed evs1).
  { destruct (prereqs options).
    - estep. eapply emits_mono; [apply exportPolicyPrerequisites_emits |].
      intros evs1 b1 r [Hc Hr]. cbn [fst snd].
      destruct r as [e | []]; (split; [reflexivity | split; [exact Hc |]]).
      + exists [e]. auto.
      + exists []. rewrite app_nil_r. auto.
    - estep. split; [reflexivity | split; [reflexivity |]].
      exists []. rewrite app_nil_r. split; [reflexivity | apply accounts_nil]. }
  intros evs1 sl1 r1 [-> [Hc1 [p1 [Hp1 Ha1]]]].
  apply emits_mono with
    (Q := fun evs2 (sl' : PolicyExportInterface * list Error) (r : Error + unit) =>
            r = inr tt /\
            calls evs2 = (if deps options then scriptReads policyData else []) /\
            exists pushed, snd sl' = snd sl1 ++ pushed /\ accounts pushed evs2).
  { destruct (deps options).
    - estep. eapply emits_mono; [apply exportPolicyDependencies_emits |].
      intros evs2 b2 r [Hc Hr]. cbn [fst snd].
      destruct r as [e | []]; (split; [reflexivity | split; [exact Hc |]]).
      + exists [e]. auto.
      + exists []. rewrite app_nil_r. auto.
    - estep. split; [reflexivity | split; [reflexivity |]].
      exists []. rewrite app_nil_r. split; [reflexivity | apply accounts_nil]. }
  intros evs2 sl2 r2 [-> [Hc2 [p2 [Hp2 Ha2]]]].
  split; [reflexivity | split; [now rewrite calls_app, Hc1, Hc2 |]].
  exists (p1 ++ p2). rewrite Hp2, Hp1, app_assoc. split; [reflexivity |].
  now apply accounts_app.
Qed.

(** The batch once the listing has answered [policies]. *)
Lemma exportBatch_items_emits state options policies message
  (b : PolicyExportInterface) :
  emits (exportBatch state options (ret policies) message) (b, [])
    (fun evs sl r =>
       calls evs = flat_map (policyReads options) policies /\
       match r with
       | inr _ => failures evs = []
       | inl e =>
           exists errors, e = FrodoError message errors /\ errors <> [] /\
                          accounts errors evs
       end).
Proof.
  unfold exportBatch. estep. estep. estep. cbn [app]. estep.
  apply emits_forOf with
    (I := fun done (_ : unit) evs (sl : PolicyExportInterface * list Error) =>
            calls evs = flat_map (policyReads options) done /\ accounts (snd sl) evs).
  - intros done x rest [] evs sl _ [Hc Ha].
    eapply emits_mono; [apply exportPolicyItem_emits |].
    intros evs2 sl2 r [-> [Hc2 [pushed [Hp Ha2]]]]. split.
    + now rewrite calls_app, flat_map_app, Hc, Hc2; cbn [flat_map]; rewrite app_nil_r.
    + rewrite Hp. now apply accounts_app.
  - intros [] evs sl [Hc Ha]. estep. estep. cbn [app].
    destruct (nonEmpty (snd sl)) eqn:E.
    + estep. rewrite app_nil_r. estep. estep. rewrite E. estep. rewrite !app_nil_r.
      split; [exact Hc |]. exists (snd sl).
      split; [reflexivity | split; [now apply nonEmpty_true | exact Ha]].
    + estep. estep. rewrite !app_nil_r. split; [exact Hc |].
      apply nonEmpty_false in E. rewrite E in Ha. now apply Ha.
  - split; [reflexivity | apply accounts_nil].
Qed.

End PolicyExportFacts.
(** ** Policy export: what the bundle holds *)

Module PolicyExportContent.
Import PolicyOps.

Lemma extended_refl state options t b : extended state options t [] b b.
Proof. unfold extended. repeat split; auto. Qed.

Lemma policyScriptFetched_app_r state usa t evs evs' k s :
  policyScriptFetched state usa t evs k s -> policyScriptFetched state usa t (evs ++ evs') k s.
Proof.
  intros [id [a [Ha H]]]. exists id, a. split; [now apply answered_app_r | exact H].
Qed.

Lemma policyScriptFetched_app_l state usa t evs evs' k s :
  policyScriptFetched state usa (t ++ evs) evs' k s ->
  policyScriptFetched state usa t (evs ++ evs') k s.
Proof.
  intros [id [a [Ha H]]]. exists id, a. split; [now apply answered_app_l | exact H].
Qed.

Lemma extended_trans state options t evs1 evs2 b1 b2 b3 :
  extended state options t evs1 b1 b2 ->
  extended state options (t ++ evs1) evs2 b2 b3 ->
  extended state options t (evs1 ++ evs2) b1 b3.
Proof.
  intros [Hm [Hr [Hp [Hs [Hfr [Hfp Hfs]]]]]] [Hm' [Hr' [Hp' [Hs' [Hfr' [Hfp' Hfs']]]]]].
  split; [congruence |]. split; [auto |]. split; [auto |]. split; [auto |].
  split; [| split].
  - intros k v H. destruct (Hfr' k v H) as [H1 | H1].
    + destruct (Hfr k v H1) as [H2 | H2]; [now left | right].
      now apply answered_app_r.
    + right. now apply answered_app_l.
  - intros k v H. destruct (Hfp' k v H) as [H1 | H1].
    + destruct (Hfp k v H1) as [H2 | H2]; [now left | right].
      now apply answered_app_r.
    + right. now apply answered_app_l.
  - intros k s H. destruct (Hfs' k s H) as [H1 | H1].
    + destruct (Hfs k s H1) as [H2 | H2]; [now left | right].
      now apply policyScriptFetched_app_r.
    + right. now apply policyScriptFetched_app_l.
Qed.

Lemma stored_extended state options t evs b b' k :
  extended state options t evs b b' ->
  (stored k (resourcetype b) -> stored k (resourcetype b')) /\
  (stored k (policyset b) -> stored k (policyset b')) /\
  (stored k (script b) -> stored k (script b')).
Proof.
  intros [_ [Hr [Hp [Hs _]]]]. unfold stored. repeat split; auto.
Qed.

Lemma prerequisitesStored_extended state options t evs p b b' :
  extended state options t evs b b' -> prerequisitesStored p b -> prerequisitesStored p b'.
Proof.
  intros Hx [H1 H2]. split; intros Hne.
  - now apply (stored_extended _ _ _ _ _ _ _ Hx), H1.
  - now apply (stored_extended _ _ _ _ _ _ _ Hx), H2.
Qed.

Lemma dependenciesStored_extended state options t evs1 evs2 p b b' :
  extended state options (t ++ evs1) evs2 b b' ->
  dependenciesStored state t evs1 p b -> dependenciesStored state t (evs1 ++ evs2) p b'.
Proof.
  intros Hx H id Hid. destruct (H id Hid) as [a [Ha Hs]]. exists a.
  split; [now apply answered_app_r |].
  now apply (stored_extended _ _ _ _ _ _ _ Hx).
Qed.

Lemma stored_setProp {V} k (v : V) o : stored k (setProp k v o).
Proof. intros Hp. now apply objectKeys_setProp_same. Qed.

(** A read whose answer is stored, or whose failure is collected. *)
Lemma attempt_remote_modify_runs {S A} (c : Call) (answer : Trace -> Rejection + A)
  (f : A -> S -> S) t (s : S) :
  runs (attempt (x <- remote c answer ;; modify (f x)) (fun error => error)) t s
    (fun evs s' r =>
       match answer t with
       | inr a => evs = [mkEvent c None] /\ s' = f a s /\ r = inr []
       | inl rj => evs = [mkEvent c (Some (Thrown rj))] /\ s' = s /\ r = inr [Thrown rj]
       end).
Proof.
  rstep. rstep. rstep. destruct (answer t) as [rj | a].
  - auto.
  - rstep. rewrite app_nil_r. auto.
Qed.

Lemma exportPolicyPrerequisites_runs state options policyData t b :
  runs (exportPolicyPrerequisites state policyData) t b
    (fun evs b' _ =>
       policy b' = policy b /\ extended state options t evs b b' /\
       (failures evs = [] -> prerequisitesStored policyData b')).
Proof.
  unfold exportPolicyPrerequisites. rstep.
  apply runs_mono with
    (Q := fun evs1 (b' : PolicyExportInterface) (r : Error + list Error) =>
            (exists e1, r = inr e1) /\
            policy b' = policy b /\ extended state options t evs1 b b' /\
            (failures evs1 = [] -> resourceTypeUuid policyData <> "" ->
             stored (resourceTypeUuid policyData) (resourcetype b'))).
  { destruct (resourceTypeUuid policyData =? "") eqn:E; cbn [negb].
    - rstep. split; [now exists [] |]. split; [reflexivity |].
      split; [apply extended_refl |]. intros _ H. apply String.eqb_eq in E. contradiction.
    - eapply runs_mono; [apply attempt_remote_modify_runs |].
      intros evs1 b1 r H.
      destruct (getResourceType state t (resourceTypeUuid policyData)) as [rj | a] eqn:Ea;
        destruct H as [-> [-> ->]]; (split; [now eexists |]); (split; [reflexivity |]).
      + split; [| intros H; discriminate].
        unfold extended. repeat split; auto.
      + split; [| intros _ _; cbn [resourcetype setResourceType]; apply stored_setProp].
        unfold extended. cbn [meta resourcetype policyset script setResourceType].
        repeat split; auto.
        * intros k. apply objectKeys_setProp_keeps.
        * intros k v H. apply getProp_setProp_inv in H. destruct H as [[-> ->] | H];
            [right | now left].
          now apply answered_here. }
  intros evs1 b1 r1 [[e1 ->] [Hp1 [Hx1 Hs1]]]. rstep.
  apply runs_mono with
    (Q := fun evs2 (b' : PolicyExportInterface) (r : Error + list Error) =>
            (exists e2, r = inr e2) /\
            policy b' = policy b1 /\ extended state options (t ++ evs1) evs2 b1 b' /\
            (failures evs2 = [] -> applicationName policyData <> "" ->
             stored (applicationName policyData) (policyset b'))).
  { destruct (applicationName policyData =? "") eqn:E; cbn [negb].
    - rstep. split; [now exists [] |]. split; [reflexivity |].
      split; [apply extended_refl |]. intros _ H. apply String.eqb_eq in E. contradiction.
    - eapply runs_mono; [apply attempt_remote_modify_runs |].
      intros evs2 b2 r H.
      destruct (readPolicySet state (t ++ evs1) (applicationName policyData))
        as [rj | a] eqn:Ea;
        destruct H as [-> [-> ->]]; (split; [now eexists |]); (split; [reflexivity |]).
      + split; [| intros H; discriminate].
        unfold extended. repeat split; auto.
      + split; [| intros _ _; cbn [policyset setPolicySet]; apply stored_setProp].
        unfold extended. cbn [meta resourcetype policyset script setPolicySet].
        repeat split; auto.
        * intros k. apply objectKeys_setProp_keeps.
        * intros k v H. apply getProp_setProp_inv in H. destruct H as [[-> ->] | H];
            [right | now left].
          now apply answered_here. }
  intros evs2 b2 r2 [[e2 ->] [Hp2 [Hx2 Hs2]]].
  assert (Hgoal : policy b2 = policy b /\ extended state options t (evs1 ++ evs2) b b2 /\
                  (failures (evs1 ++ evs2) = [] -> prerequisitesStored policyData b2)).
  { split; [congruence |]. split; [now apply (extended_trans _ _ _ _ _ b b1 b2) |].
    rewrite failures_app. intros H. apply app_eq_nil in H. destruct H as [H1 H2].
    split.
    - intros Hne. apply (stored_extended _ _ _ _ _ _ _ Hx2). now apply Hs1.
    - now apply Hs2. }
  destruct (nonEmpty (e1 ++ e2)); rstep; rewrite app_nil_r; exact Hgoal.
Qed.

(** The scripts that [getScripts] returns are the answers to its reads. *)
Lemma getScripts_runs {S} state policyData t (s : S) :
  runs (getScripts state policyData) t s
    (fun evs s' r =>
       s' = s /\
       forall scripts, r = inr scripts ->
         Forall2 (fun scriptUuid a =>
                    answered (fun t' => readScript state t' (idVal scriptUuid))
                      (ReadScript (idVal scriptUuid)) t evs a)
           (findScriptUuids (policy_condition policyData)) scripts).
Proof.
  unfold getScripts. cbv zeta. rstep.
  apply runs_forOf with
    (I := fun done (acc : list ScriptSkeleton * list Error) evs s' =>
            s' = s /\
            (snd acc = [] ->
             Forall2 (fun scriptUuid a =>
                        answered (fun t' => readScript state t' (idVal scriptUuid))
                          (ReadScript (idVal scriptUuid)) t evs a)
               done (fst acc))).
  - intros done x rest acc evs s' _ [-> Hall].
    rstep. rstep. rstep.
    destruct (readScript state (t ++ evs) (idVal x)) as [rj | a] eqn:Ea.
    + rstep. cbn [fst snd]. rewrite app_nil_r. split; [reflexivity |].
      intros H. apply app_eq_nil in H. destruct H as [_ H]. discriminate.
    + rstep. cbn [fst snd]. rewrite app_nil_r. split; [reflexivity |].
      intros H. apply Forall2_app.
      * eapply Forall2_impl; [| exact (Hall H)].
        intros id a' Ha'. now apply answered_app_r.
      * constructor; [| constructor].
        apply answered_app_l. now apply answered_here.
  - intros acc evs s' [-> Hall].
    destruct (nonEmpty (snd acc)) eqn:E; rstep; rewrite app_nil_r;
      (split; [reflexivity |]); intros scripts [= <-].
    apply Hall. now apply nonEmpty_false.
  - split; [reflexivity |]. intros _. constructor.
Qed.

Lemma script_id_exportedScript state usa a : script_id (exportedScript state usa a) = script_id a.
Proof. unfold exportedScript. now destruct usa. Qed.

Lemma Forall2_In_r {A B} (R : A -> B -> Prop) l1 l2 y :
  Forall2 R l1 l2 -> In y l2 -> exists x, In x l1 /\ R x y.
Proof.
  induction 1 as [| x y' l1 l2 Hxy _ IH]; intros Hin; [destruct Hin |].
  destruct Hin as [<- | Hin].
  - exists x. split; [now left | exact Hxy].
  - destruct (IH Hin) as [x' [Hx' Hr]]. exists x'. split; [now right | exact Hr].
Qed.

Lemma Forall2_In_l {A B} (R : A -> B -> Prop) l1 l2 x :
  Forall2 R l1 l2 -> In x l1 -> exists y, In y l2 /\ R x y.
Proof.
  induction 1 as [| x' y l1 l2 Hxy _ IH]; intros Hin; [destruct Hin |].
  destruct Hin as [<- | Hin].
  - exists y. split; [now left | exact Hxy].
  - destruct (IH Hin) as [y' [Hy' Hr]]. exists y'. split; [now right | exact Hr].
Qed.

Lemma exportPolicyDependencies_runs state options policyData t b :
  runs (exportPolicyDependencies state policyData options) t b
    (fun evs b' r =>
       policy b' = policy b /\ extended state options t evs b b' /\
       (forall u, r = inr u -> dependenciesStored state t evs policyData b')).
Proof.
  unfold exportPolicyDependencies. rstep. rstep.
  eapply runs_mono; [apply getScripts_runs |].
  intros evs1 b1 r1 [-> Hscripts].
  destruct r1 as [e | scripts].
  - rstep. rewrite app_nil_r.
    split; [reflexivity | split; [| intros u H; discriminate]].
    unfold extended. repeat split; auto.
  - specialize (Hscripts scripts eq_refl).
    apply runs_forOf with
      (I := fun (done : list ScriptSkeleton) (_ : unit) (evs : list Event)
                (b' : PolicyExportInterface) =>
              evs = [] /\ policy b' = policy b /\
              extended state options t evs1 b b' /\
              Forall (fun a => stored (script_id a) (script b')) done).
    + intros done x rest [] evs b' Hsplit [-> [Hp [Hx Hdone]]]. rstep.
      fold (exportedScript state (useStringArrays options) x).
      rewrite script_id_exportedScript.
      set (added := exportedScript state (useStringArrays options) x).
      destruct Hx as [Hm [Hr [Hps [Hs [Hfr [Hfp Hfs]]]]]].
      split; [reflexivity | split; [exact Hp | split]].
      * unfold extended. cbn [meta resourcetype policyset script setScript].
        split; [exact Hm | split; [exact Hr | split; [exact Hps | split]]].
        -- intros k Hk. apply objectKeys_setProp_keeps. now apply Hs.
        -- split; [exact Hfr | split; [exact Hfp |]].
           intros k s H. apply getProp_setProp_inv in H. destruct H as [[-> ->] | H];
             [right | now apply Hfs].
           assert (Hin : In x scripts) by (rewrite Hsplit; apply in_or_app; right; now left).
           destruct (Forall2_In_r _ _ _ _ Hscripts Hin) as [id [_ Ha]].
           exists (idVal id), x. auto.
      * cbn [script setScript]. apply Forall_app. split.
        -- eapply Forall_impl; [| exact Hdone]. intros a Ha Hne.
           apply objectKeys_setProp_keeps. now apply Ha.
        -- constructor; [apply stored_setProp | constructor].
    + intros [] evs b' [-> [Hp [Hx Hdone]]]. rewrite app_nil_r.
      split; [exact Hp | split; [exact Hx |]].
      intros u _ id Hid. destruct (Forall2_In_l _ _ _ _ Hscripts Hid) as [a [Hin Ha]].
      exists a. split; [exact Ha |]. rewrite Forall_forall in Hdone. now apply Hdone.
    + split; [reflexivity | split; [reflexivity | split; [| constructor]]].
      unfold extended. repeat split; auto.
Qed.

(** One item of a batch. *)
Lemma exportPolicyItem_runs state options policyData t
  (sl : PolicyExportInterface * list Error) :
  runs (exportPolicyItem state options policyData) t sl
    (fun evs sl' _ =>
       policy (fst sl') = setProp (policy_id policyData) policyData (policy (fst sl)) /\
       extended state options t evs (fst sl) (fst sl') /\
       (failures evs = [] ->
        (prereqs options = true -> prerequisitesStored policyData (fst sl')) /\
        (deps options = true -> dependenciesStored state t evs policyData (fst sl')))).
Proof.
  unfold exportPolicyItem. rstep. rstep. rstep. cbn [fst snd app]. rewrite app_nil_r.
  set (b0 := setPolicy (policy_id policyData) policyData (fst sl)).
  assert (Hb0 : extended state options t [] (fst sl) b0).
  { unfold extended, b0. cbn [meta resourcetype policyset script setPolicy].
    repeat split; auto. }
  rstep.
  apply runs_mono with
    (Q := fun evs1 (sl' : PolicyExportInterface * list Error) (r : Error + unit) =>
            r = inr tt /\ policy (fst sl') = policy b0 /\
            extended state options t evs1 b0 (fst sl') /\
            (failures evs1 = [] -> prereqs options = true ->
             prerequisitesStored policyData (fst sl'))).
  { destruct (prereqs options).
    - rstep. eapply runs_mono; [apply (exportPolicyPrerequisites_runs state options) |].
      intros evs1 b1 r [Hp [Hx Hs]]. cbn [fst snd].
      destruct r as [e | []]; (split; [reflexivity | split; [exact Hp | split; auto]]).
    - rstep. split; [reflexivity | split; [reflexivity |]].
      split; [apply extended_refl | discriminate]. }
  intros evs1 sl1 r1 [-> [Hp1 [Hx1 Hs1]]].
  apply runs_mono with
    (Q := fun (evs2 : list Event) (sl' : PolicyExportInterface * list Error)
              (r : Error + unit) =>
            policy (fst sl') = policy (fst sl1) /\
            extended state options (t ++ evs1) evs2 (fst sl1) (fst sl') /\
            (failures evs2 = [] -> deps options = true ->
             dependenciesStored state (t ++ evs1) evs2 policyData (fst sl'))).
  { destruct (deps options).
    - rstep.
      eapply runs_mono;
        [apply (runs_conj _ _ _ _ _
                  (exportPolicyDependencies_runs state options policyData _ (fst sl1))
                  (runs_of_emits _ _ _ _
                     (PolicyExportFacts.exportPolicyDependencies_emits
                        state policyData options (fst sl1)))) |].
      intros evs2 b2 r [[Hp [Hx Hs]] [_ Hr]]. cbn [fst snd].
      destruct r as [e | []].
      + split; [exact Hp | split; [exact Hx |]]. intros Hf _.
        destruct Hr as [_ [_ Hr]]. specialize (Hr Hf). discriminate.
      + split; [exact Hp | split; [exact Hx |]]. intros _ _. now apply (Hs tt).
    - rstep. split; [reflexivity | split; [apply extended_refl | discriminate]]. }
  intros evs2 sl2 r2 [Hp2 [Hx2 Hs2]].
  split; [now rewrite Hp2, Hp1 |].
  split.
  - apply (extended_trans _ _ _ [] _ _ b0 _ Hb0). cbn [app]. rewrite app_nil_r.
    now apply (extended_trans _ _ _ _ _ _ (fst sl1)).
  - rewrite failures_app. intros H. apply app_eq_nil in H. destruct H as [H1 H2].
    split.
    + intros Hpre. apply (prerequisitesStored_extended _ _ _ _ _ _ _ Hx2). now apply Hs1.
    + intros Hdeps id Hid. destruct (Hs2 H2 Hdeps id Hid) as [a [Ha Hst]].
      exists a. split; [now apply answered_app_l | exact Hst].
Qed.

Lemma storedPolicies_snoc policies policyData stored :
  storedPolicies (policies ++ [policyData]) stored =
  setProp (policy_id policyData) policyData (storedPolicies policies stored).
Proof. unfold storedPolicies. now rewrite fold_left_app. Qed.

(** The batch once the listing has answered [policies]: the bundle returned. *)
Lemma exportBatch_runs state options policies message t (b : PolicyExportInterface) :
  runs (exportBatch state options (ret policies) message) t (b, [])
    (fun evs sl r =>
       forall bundle, r = inr bundle ->
         policy bundle = storedPolicies policies (policy b) /\
         extended state options t evs b bundle /\
         (prereqs options = true ->
          Forall (fun p => prerequisitesStored p bundle) policies) /\
         (deps options = true ->
          Forall (fun p => dependenciesStored state t evs p bundle) policies)).
Proof.
  unfold exportBatch. rstep. rstep. rstep. cbn [app]. rewrite app_nil_r. rstep.
  apply runs_forOf with
    (I := fun done (_ : unit) evs (sl : PolicyExportInterface * list Error) =>
            policy (fst sl) = storedPolicies done (policy b) /\
            extended state options t evs b (fst sl) /\
            accounts (snd sl) evs /\
            (failures evs = [] ->
             (prereqs options = true ->
              Forall (fun p => prerequisitesStored p (fst sl)) done) /\
             (deps options = true ->
              Forall (fun p => dependenciesStored state t evs p (fst sl)) done))).
  - intros done x rest [] evs sl _ [Hp [Hx [Hacc Hs]]].
    eapply runs_mono;
      [apply (runs_conj _ _ _ _ _
                (exportPolicyItem_runs state options x _ sl)
                (runs_of_emits _ _ _ _
                   (PolicyExportFacts.exportPolicyItem_emits state options x sl))) |].
    intros evs2 sl2 r [[Hp2 [Hx2 Hs2]] [-> [_ [pushed [Hpushed Hacc2]]]]].
    split; [now rewrite storedPolicies_snoc, Hp2, Hp |].
    split; [now apply (extended_trans _ _ _ _ _ _ (fst sl)) |].
    split; [rewrite Hpushed; now apply accounts_app |].
    rewrite failures_app. intros H. apply app_eq_nil in H. destruct H as [H1 H2].
    destruct (Hs H1) as [Hpre Hdep]. destruct (Hs2 H2) as [Hpre2 Hdep2]. split.
    + intros Hopt. apply Forall_app. split.
      * eapply Forall_impl; [| exact (Hpre Hopt)].
        intros p. apply (prerequisitesStored_extended _ _ _ _ _ _ _ Hx2).
      * constructor; [now apply Hpre2 | constructor].
    + intros Hopt. apply Forall_app. split.
      * eapply Forall_impl; [| exact (Hdep Hopt)].
        intros p. apply (dependenciesStored_extended _ _ _ _ _ _ _ _ Hx2).
      * constructor; [| constructor].
        intros id Hid. destruct (Hdep2 Hopt id Hid) as [a [Ha Hst]].
        exists a. split; [now apply answered_app_l | exact Hst].
  - intros [] evs sl [Hp [Hx [Hacc Hs]]]. rstep. rstep. cbn [app].
    destruct (nonEmpty (snd sl)) eqn:E.
    + rstep. rewrite app_nil_r. rstep. rstep. rewrite E. rstep. discriminate.
    + rstep. rstep. rewrite !app_nil_r. intros bundle [= <-].
      apply nonEmpty_false in E. rewrite E in Hacc.
      assert (Hf : failures evs = []) by now apply Hacc.
      destruct (Hs Hf) as [Hpre Hdep]. auto.
  - split; [reflexivity |]. split; [apply extended_refl |].
    split; [apply accounts_nil |]. intros _. split; intros _; constructor.
Qed.

Lemma attempted_prerequisites_runs state options policyData t b :
  runs (if prereqs options
        then attempt (exportPolicyPrerequisites state policyData) (fun error => error)
        else ret []) t b
    (fun evs b' r =>
       exists e1, r = inr e1 /\ accounts e1 evs /\
         calls evs = (if prereqs options then prerequisiteReads policyData else []) /\
         policy b' = policy b /\ extended state options t evs b b' /\
         (failures evs = [] -> prereqs options = true ->
          prerequisitesStored policyData b')).
Proof.
  destruct (prereqs options).
  - rstep.
    eapply runs_mono;
      [apply (runs_conj _ _ _ _ _
                (exportPolicyPrerequisites_runs state options policyData t b)
                (runs_of_emits _ _ _ _
                   (PolicyExportFacts.exportPolicyPrerequisites_emits state policyData b))) |].
    intros evs b' r [[Hp [Hx Hs]] [Hc Hr]].
    destruct r as [e | []]; eexists; (split; [reflexivity |]); auto 10.
  - rstep. exists []. split; [reflexivity |]. split; [apply accounts_nil |].
    split; [reflexivity |]. split; [reflexivity |]. split; [apply extended_refl | discriminate].
Qed.

Lemma attempted_dependencies_runs state options policyData t b :
  runs (if deps options
        then attempt (exportPolicyDependencies state policyData options) (fun error => error)
        else ret []) t b
    (fun evs b' r =>
       exists e2, r = inr e2 /\ accounts e2 evs /\
         calls evs = (if deps options then scriptReads policyData else []) /\
         policy b' = policy b /\ extended state options t evs b b' /\
         (failures evs = [] -> deps options = true ->
          dependenciesStored state t evs policyData b')).
Proof.
  destruct (deps options).
  - rstep.
    eapply runs_mono;
      [apply (runs_conj _ _ _ _ _
                (exportPolicyDependencies_runs state options policyData t b)
                (runs_of_emits _ _ _ _
                   (PolicyExportFacts.exportPolicyDependencies_emits
                      state policyData options b))) |].
    intros evs b' r [[Hp [Hx Hs]] [Hc Hr]].
    destruct r as [e | []]; eexists; (split; [reflexivity |]);
      (split; [exact Hr |]); (split; [exact Hc |]); (split; [exact Hp |]);
      (split; [exact Hx |]).
    + intros Hf _. destruct Hr as [_ [_ Hr]]. specialize (Hr Hf). discriminate.
    + intros _ _. now apply (Hs tt).
  - rstep. exists []. split; [reflexivity |]. split; [apply accounts_nil |].
    split; [reflexivity |]. split; [reflexivity |]. split; [apply extended_refl | discriminate].
Qed.

End PolicyExportContent.
(** * The claims *)

(** ** C1 *)

(** C1: [findScriptUuids] returns, without duplicates, exactly the
    [scriptId] values of the [Script] nodes reachable through AND/OR/NOT
    combinators (their [condition] and [conditions], each optional); a node
    of any other type yields nothing, and so do [null] and the empty
    object. *)
Theorem findScriptUuids_exact :
  (forall c : PolicyCondition,
     NoDup (PolicyOps.findScriptUuids (Some c)) /\
     (forall id, In id (PolicyOps.findScriptUuids (Some c)) <-> ScriptLeaf c id)) /\
  (forall t s single conds,
     ((t =? "AND") || (t =? "OR") || (t =? "NOT") || (t =? "Script")) = false ->
     PolicyOps.findScriptUuids (Some (mkCondition (Some t) s single conds)) = []) /\
  PolicyOps.findScriptUuids None = [] /\
  PolicyOps.findScriptUuids (Some emptyCondition) = [].
Proof.
  split; [| split; [| split]].
  - intros c. split.
    + apply findScriptUuidsOf_NoDup.
    + intros id. apply findScriptUuidsOf_In.
  - intros t s single conds H. simpl.
    apply orb_false_iff in H. destruct H as [H1 H2]. rewrite H1, H2. reflexivity.
  - reflexivity.
  - reflexivity.
Qed.


Lemma findScriptUuids_exact_witness :
  (("Session" =? "AND") || ("Session" =? "OR") || ("Session" =? "NOT")
   || ("Session" =? "Script")) = false /\
  PolicyOps.findScriptUuids
    (Some (mkCondition (Some "Session") (Some "s1") (Some Examples.condition1) None)) = [] /\
  PolicyOps.findScriptUuids (Some Examples.condition1) = [Some "s1"; Some "s2"].
Proof.
  split; [reflexivity | split; [| reflexivity]].
  exact (proj1 (proj2 findScriptUuids_exact) "Session" (Some "s1")
           (Some Examples.condition1) None eq_refl).
Defined.
(** ** C2 *)

(** C2, as the code has it: a policy import with prereqs and deps writes the
    resource type and the policy set (those that [record[name]] finds in the
    bundle), then the policy, then one script per script id of its
    condition.  An OAuth2 client import writes the scripts first and the
    client last: the log is the script writes (the script imports of the
    stripped entry, in order, up to the first that fails) followed by the
    writes of the client, of which there are some exactly when no script
    write failed; the first of them carries the stripped entry. *)
Theorem import_write_order :
  (forall state policyId options b entry,
     NoDup (objectKeys (PolicyOps.policy b)) ->
     getProp policyId (PolicyOps.policy b) = Some entry ->
     PolicyOps.import_prereqs options = true ->
     PolicyOps.import_deps options = true ->
     emits (PolicyOps.importPolicy state policyId options) b
       (fun evs _ _ =>
          let policyData := PolicyOps.stripPolicy options entry in
          calls evs =
            prerequisiteWrites b policyData ++
            [PutPolicy (policy_id policyData) policyData] ++
            scriptWrites b policyData)) /\
  (forall state clientId options b entry,
     NoDup (objectKeys (OAuth2ClientOps.application b)) ->
     getProp clientId (OAuth2ClientOps.application b) = Some entry ->
     OAuth2ClientOps.import_deps options = true ->
     emits (OAuth2ClientOps.importOAuth2Client state clientId options) b
       (fun evs _ _ =>
          exists scripts puts rest,
            evs = scripts ++ puts /\
            scriptImports b (OAuth2ClientOps.stripClient entry) = calls scripts ++ rest /\
            Forall (fun ev => isClientWrite clientId (call ev) = true) puts /\
            (forall ev, head puts = Some ev ->
                        call ev = PutOAuth2Client clientId (OAuth2ClientOps.stripClient entry)) /\
            (failures scripts = [] -> rest = [] /\ puts <> []) /\
            (failures scripts <> [] ->
             puts = [] /\
             exists done ev, scripts = done ++ [ev] /\ failures done = [] /\
                             failure ev <> None))).
Proof.
  split.
  - intros state policyId options b entry Hnd Hget Hp Hd.
    eapply emits_mono; [apply (PolicyImportFacts.importPolicy_emits _ _ _ _ Hnd) |].
    intros evs b' r H. rewrite Hget in H. destruct H as [_ [Hc _]].
    cbv zeta. rewrite Hc. unfold entryWrites. now rewrite Hp, Hd.
  - intros state clientId options b entry Hnd Hget Hdeps.
    apply emits_of_runs. intros t.
    eapply runs_mono; [apply (OAuth2ImportFacts.importOAuth2Client_runs _ _ _ _ _ Hnd) |].
    intros evs b' r H. rewrite Hget in H.
    destruct H as [c' [x [_ [[scripts [puts [d [-> [Hd Hu]]]]] _]]]].
    rewrite Hdeps in Hd.
    pose proof (OAuth2ImportFacts.DependenciesImported_failed _ _ _ _ _ Hd) as Hfailed.
    destruct Hd as [rest [Hi Hrest]].
    exists scripts, puts, rest. split; [reflexivity | split; [exact Hi |]].
    destruct d as [e | u].
    + destruct Hu as [-> _].
      destruct Hrest as [done [v [sd [f [Hs [Hdone _]]]]]].
      split; [constructor | split; [discriminate | split]].
      * intros H. apply Hfailed in H. destruct H as [u H]. discriminate.
      * intros _. split; [reflexivity |].
        exists done, (mkEvent (UpdateScript v sd) (Some f)).
        split; [exact Hs | split; [exact Hdone | discriminate]].
    + destruct Hrest as [-> Hnone].
      destruct (OAuth2ImportFacts.ClientUpdated_puts _ _ _ _ _ _ _ Hu)
        as [[rest' Hputs] [Hall _]].
      split; [exact Hall | split; [| split]].
      * intros ev Hev. rewrite Hputs in Hev. cbn [head] in Hev.
        injection Hev as <-. reflexivity.
      * intros _. split; [reflexivity |]. rewrite Hputs. discriminate.
      * intros H. contradiction.
Qed.

Lemma import_write_order_witness :
  (NoDup (objectKeys (PolicyOps.policy Examples.policyBundle)) /\
   getProp "p1" (PolicyOps.policy Examples.policyBundle) = Some Examples.policy1 /\
   emits (PolicyOps.importPolicy Examples.tenant "p1" Examples.allOptions)
     Examples.policyBundle
     (fun evs _ _ =>
        calls evs =
          [UpdateResourceType "rt1" (Own [("uuid", JStr "rt1")]);
           UpdatePolicySet (Own [("name", JStr "set1")]);
           PutPolicy "p1" (PolicyOps.stripPolicy Examples.allOptions Examples.policy1);
           UpdateScript (JStr "s1") (Own Examples.script1);
           UpdateScript (JStr "s2") Absent])) /\
  (NoDup (objectKeys (OAuth2ClientOps.application Examples.clientBundle2)) /\
   getProp "c2" (OAuth2ClientOps.application Examples.clientBundle2) =
     Some Examples.client2 /\
   emits (OAuth2ClientOps.importOAuth2Client Examples.tenant "c2"
            (OAuth2ClientOps.mkImportOptions true))
     Examples.clientBundle2
     (fun evs _ _ =>
        exists scripts puts rest,
          evs = scripts ++ puts /\
          [UpdateScript (JStr "constructor") Inherited] = calls scripts ++ rest /\
          Forall (fun ev => isClientWrite "c2" (call ev) = true) puts /\
          (forall ev, head puts = Some ev ->
                      call ev =
                        PutOAuth2Client "c2" (OAuth2ClientOps.stripClient Examples.client2)) /\
          (failures scripts = [] -> rest = [] /\ puts <> []) /\
          (failures scripts <> [] ->
           puts = [] /\
           exists done ev, scripts = done ++ [ev] /\ failures done = [] /\
                           failure ev <> None))).
Proof.
  assert (Hnd : NoDup (objectKeys (PolicyOps.policy Examples.policyBundle))).
  { repeat constructor; cbn; intuition discriminate. }
  assert (Hnd2 : NoDup (objectKeys (OAuth2ClientOps.application Examples.clientBundle2))).
  { repeat constructor; cbn; intuition discriminate. }
  split.
  - split; [exact Hnd | split; [reflexivity |]].
    exact (proj1 import_write_order Examples.tenant "p1" Examples.allOptions
             Examples.policyBundle Examples.policy1 Hnd eq_refl eq_refl eq_refl).
  - split; [exact Hnd2 | split; [reflexivity |]].
    exact (proj2 import_write_order Examples.tenant "c2"
             (OAuth2ClientOps.mkImportOptions true) Examples.clientBundle2
             Examples.client2 Hnd2 eq_refl eq_refl).
Defined.

(** C2, counterexample: importing the client c1 with its script s1 writes
    the script before the client. *)
Lemma import_write_order_counterexample :
  calls (fst (fst (OAuth2ClientOps.importOAuth2Client Examples.tenant "c1"
                     (OAuth2ClientOps.mkImportOptions true) ([], Examples.clientBundle)))) =
  [UpdateScript (JStr "s1") (Own Examples.script1);
   PutOAuth2Client "c1" (OAuth2ClientOps.stripClient Examples.client1)].
Proof. vm_compute. reflexivity. Qed.
(** ** C3 *)

(** C3, what the policy path does: when the condition of the imported
    policy names a script id that the bundle's script collection does not
    hold, [importPolicyDependencies] still calls [updateScript] for it,
    with what [exportData.script[scriptUuid]] gives then (undefined, or the
    member of [Object.prototype] of that name) as script data; the outcome
    of that call is accounted for in the result like any other (an error
    when it is rejected). *)
Theorem policy_import_writes_missing_script :
  forall state policyId options b entry scriptUuid,
    NoDup (objectKeys (PolicyOps.policy b)) ->
    getProp policyId (PolicyOps.policy b) = Some entry ->
    PolicyOps.import_deps options = true ->
    In scriptUuid (PolicyOps.findScriptUuids (policy_condition entry)) ->
    getProp (toPropertyKey (idVal scriptUuid)) (PolicyOps.script b) = None ->
    emits (PolicyOps.importPolicy state policyId options) b
      (fun evs _ r =>
         In (UpdateScript (idVal scriptUuid)
               (if inherited (toPropertyKey (idVal scriptUuid)) then Inherited else Absent))
            (calls evs) /\
         reports r evs).
Proof.
  intros state policyId options b entry scriptUuid Hnd Hget Hd Hin Hmissing.
  eapply emits_mono; [apply (PolicyImportFacts.importPolicy_emits _ _ _ _ Hnd) |].
  intros evs b' r H. rewrite Hget in H. destruct H as [_ [Hc Hr]].
  split; [| exact Hr]. rewrite Hc. unfold entryWrites. rewrite Hd.
  apply in_or_app. right. apply in_or_app. right.
  unfold scriptWrites. apply in_map_iff. exists scriptUuid.
  split; [unfold lookup; now rewrite Hmissing | exact Hin].
Qed.

Lemma policy_import_writes_missing_script_witness :
  let out := PolicyOps.importPolicy Examples.tenant "p1" Examples.allOptions
               ([], Examples.policyBundle) in
  getProp "s2" (PolicyOps.script Examples.policyBundle) = None /\
  In (UpdateScript (JStr "s2") Absent) (calls (fst (fst out))) /\
  snd out =
    inl (FrodoError "Error importing alpha realm policy p1"
           [FrodoError "Error importing alpha realm soft dependencies for policy p1"
              [FrodoError "Error importing alpha realm script s2 for policy p1"
                 [Thrown (Examples.rejection "Cannot read properties of undefined")]]]).
Proof.
  cbv zeta. split; [reflexivity |].
  assert (Hnd : NoDup (objectKeys (PolicyOps.policy Examples.policyBundle))).
  { repeat constructor; cbn; intuition discriminate. }
  assert (Hin : In (Some "s2")
                  (PolicyOps.findScriptUuids (policy_condition Examples.policy1))).
  { vm_compute. auto. }
  destruct (policy_import_writes_missing_script Examples.tenant "p1" Examples.allOptions
              Examples.policyBundle Examples.policy1 (Some "s2")
              Hnd eq_refl eq_refl Hin eq_refl []) as [evs [Ht [Hcall _]]].
  split.
  - exact (eq_ind_r (fun t => In (UpdateScript (JStr "s2") Absent) (calls t)) Hcall Ht).
  - vm_compute. reflexivity.
Defined.
(** ** C4 *)

Lemma withLocal_eq {S L A} (init : L) (m : M L A) (t : Trace) (s : S) :
  withLocal init m (t, s) = ((fst (fst (m (t, init))), s), snd (m (t, init))).
Proof.
  unfold withLocal. cbn [fst snd]. now destruct (m (t, init)) as [[t' l] r].
Qed.

Lemma withVar_eq {S L A} (init : L) (m : M (S * L) A) (t : Trace) (s : S) :
  withVar init m (t, s) =
  ((fst (fst (m (t, (s, init)))), fst (snd (fst (m (t, (s, init)))))),
   snd (m (t, (s, init)))).
Proof.
  unfold withVar. cbn [fst snd]. now destruct (m (t, (s, init))) as [[t' [s' l]] r].
Qed.

Lemma exportBatch_listed state options
  (read : M (PolicyOps.PolicyExportInterface * list Error) (list PolicySkeleton))
  message t sl ev policies :
  read (t, sl) = ((t ++ [ev], sl), inr policies) ->
  PolicyOps.exportBatch state options read message (t, sl) =
  PolicyOps.exportBatch state options (ret policies) message (t ++ [ev], sl).
Proof.
  intros H. unfold PolicyOps.exportBatch, tryCatch, bind. now rewrite H.
Qed.

Lemma exported_batch {S} state options
  (read : M (PolicyOps.PolicyExportInterface * list Error) (list PolicySkeleton))
  message t (s : S) ev policies :
  read (t, (PolicyOps.createPolicyExportTemplate state, [])) =
    ((t ++ [ev], (PolicyOps.createPolicyExportTemplate state, [])), inr policies) ->
  exists evs,
    let out := withLocal (PolicyOps.createPolicyExportTemplate state)
                 (withVar [] (PolicyOps.exportBatch state options read message)) (t, s) in
    fst out = (t ++ ev :: evs, s) /\
    calls evs = flat_map (policyReads options) policies /\
    batchOutcome message (snd out) evs /\
    forall bundle, snd out = inr bundle ->
                   policiesExported state options (t ++ [ev]) evs policies bundle.
Proof.
  intros Hread.
  destruct (runs_conj _ _ _ _ _
              (runs_of_emits _ (t ++ [ev]) _ _
                 (PolicyExportFacts.exportBatch_items_emits state options policies message
                    (PolicyOps.createPolicyExportTemplate state)))
              (PolicyExportContent.exportBatch_runs state options policies message
                 (t ++ [ev]) (PolicyOps.createPolicyExportTemplate state)))
    as [evs [Ht [[Hc Hr] Hcontent]]].
  exists evs. cbv zeta. rewrite withLocal_eq, withVar_eq. cbn [fst snd].
  rewrite (exportBatch_listed _ _ _ _ _ _ _ _ Hread), Ht, <- app_assoc.
  split; [reflexivity | split; [exact Hc | split]].
  - unfold batchOutcome.
    destruct (snd (PolicyOps.exportBatch state options (ret policies) message _))
      as [e | bundle]; [| exact Hr].
    destruct Hr as [errors [-> [Hne [Hl Hn]]]]. exists errors.
    split; [reflexivity | split; [exact Hne | split; [exact Hl |]]].
    intros H. apply Hn in H. contradiction.
  - intros bundle Hb. destruct (Hcontent bundle Hb) as [Hp [Hx [Hpre Hdep]]].
    destruct Hx as [Hm [_ [_ [_ [Hfr [Hfp Hfs]]]]]].
    split; [exact Hm | split; [exact Hp |]].
    split; [| split; [| split; [| split; [exact Hpre | exact Hdep]]]].
    + intros k v H. destruct (Hfr k v H) as [H0 | H0]; [discriminate | exact H0].
    + intros k v H. destruct (Hfp k v H) as [H0 | H0]; [discriminate | exact H0].
    + intros k v H. destruct (Hfs k v H) as [H0 | H0]; [discriminate | exact H0].
Qed.

Lemma exportOAuth2Clients_listed {S} state options t (s : S) provider clients loop :
  readOAuth2Provider state t = inr provider ->
  listedClients state (t ++ [mkEvent ReadOAuth2Provider None]) = Some clients ->
  loop =
    forOf clients
      (fun errors client =>
         pushed <-
           attempt
             (let client' :=
                mkClient (client_id client)
                  (setProp "_provider" provider (client_attrs client)) in
              modify (OAuth2ClientOps.setApplication (client_id client') client') ;;
              if OAuth2ClientOps.deps options
              then OAuth2ClientOps.exportOAuth2ClientDependencies state client' options
              else ret tt)
             (fun error => error) ;;
         ret (errors ++ pushed))
      []
      ((t ++ [mkEvent ReadOAuth2Provider None])
         ++ [listingEvent state (t ++ [mkEvent ReadOAuth2Provider None])],
       OAuth2ClientOps.createOAuth2ClientExportTemplate state) ->
  OAuth2ClientOps.exportOAuth2Clients state options (t, s) =
  ((fst (fst loop), s),
   match snd loop with
   | inr errors =>
       if nonEmpty errors
       then inl (FrodoError ("Error exporting " ++ realm state ++ " oauth2 clients") errors)
       else inr (snd (fst loop))
   | inl e =>
       inl (FrodoError ("Error exporting " ++ realm state ++ " oauth2 clients") [e])
   end).
Proof.
  intros Hprovider Hlisted ->.
  unfold OAuth2ClientOps.exportOAuth2Clients, withLocal. cbn [fst snd].
  unfold bind at 1. unfold tryCatch at 1. unfold bind at 1.
  rewrite (remote_ok _ _ _ _ _ Hprovider).
  unfold bind at 1. rewrite OAuth2ExportFacts.readOAuth2Clients_eq.
  rewrite Hlisted.
  match goal with
  | |- context [forOf clients ?body [] ?w] =>
      destruct (forOf clients body [] w) as [[t2 b2] [e | errors]]
  end; cbn [fst snd ret].
  - reflexivity.
  - now destruct (nonEmpty errors).
Qed.

Lemma getProp_all_none {V} (o : list (string * V)) :
  (forall k v, getProp k o = Some v -> False) -> o = [].
Proof.
  destruct o as [| [k v] o]; [reflexivity |]. intros H. exfalso.
  apply (H k v). apply getProp_cons_same.
Qed.

Lemma exported_clients {S} state options t (s : S) provider clients :
  readOAuth2Provider state t = inr provider ->
  listedClients state (t ++ [mkEvent ReadOAuth2Provider None]) = Some clients ->
  exists evs,
    let t1 := t ++ [mkEvent ReadOAuth2Provider None] in
    let t2 := t1 ++ [listingEvent state t1] in
    let out := OAuth2ClientOps.exportOAuth2Clients state options (t, s) in
    fst out = (t2 ++ evs, s) /\
    Forall (fun cl => isScriptRead cl = true) (calls evs) /\
    (OAuth2ClientOps.deps options = true ->
     forall c, In c clients ->
     forall v, head (scriptReferences c) = Some v ->
               inherited (toPropertyKey v) = true \/ fetched evs (toPropertyKey v)) /\
    match snd out with
    | inr bundle =>
        tolerated state evs /\ clientsExported state options provider t2 evs clients bundle
    | inl e =>
        ~ tolerated state evs /\
        exists errors,
          e = FrodoError ("Error exporting " ++ realm state ++ " oauth2 clients") errors /\
          errors <> [] /\
          flat_map leaves errors = untolerated state evs
    end.
Proof.
  intros Hprovider Hlisted.
  pose proof (OAuth2ExportFacts.exportOAuth2Clients_loop_runs state options provider
                clients
                ((t ++ [mkEvent ReadOAuth2Provider None])
                   ++ [listingEvent state (t ++ [mkEvent ReadOAuth2Provider None])])
                (OAuth2ClientOps.createOAuth2ClientExportTemplate state) eq_refl)
    as H.
  unfold runs in H.
  match type of H with
  | context [forOf clients ?body [] ?w] => set (loop := forOf clients body [] w) in H
  end.
  destruct H as [evs [Ht [Hm [Ha [Hreads [[scripts [Hs [Horigin Hall]]]
                                            [Hatt [Hoff [errors [Hr [Hleaves Hlen]]]]]]]]]]].
  exists evs. cbv zeta.
  rewrite (exportOAuth2Clients_listed state options t s provider clients loop
             Hprovider Hlisted eq_refl).
  cbn [fst snd]. rewrite Ht, Hr.
  split; [reflexivity | split; [exact Hreads | split; [exact Hatt |]]].
  destruct (nonEmpty errors) eqn:E.
  - apply nonEmpty_true in E. split.
    + intros Htol. apply OAuth2ExportFacts.tolerated_untolerated in Htol.
      rewrite Htol in Hlen. destruct errors; [now apply E | discriminate].
    + now exists errors.
  - apply nonEmpty_false in E. subst errors.
    assert (Hun : untolerated state evs = []).
    { destruct (untolerated state evs); [reflexivity | discriminate]. }
    split; [now apply OAuth2ExportFacts.tolerated_untolerated |].
    split; [exact Hm | split; [exact Ha |]].
    exists scripts. split; [exact Hs | split; [exact Horigin | split]].
    + intros Hd c v Hc Hv. now apply (Hall Hd Hun c v).
    + intros Hd. apply getProp_all_none. intros k v Hk.
      destruct (Horigin k v Hk) as [[v' [a [_ [[pre [post [He _]]] _]]]] _].
      rewrite (Hoff Hd) in He. now destruct pre.
Qed.

(** C4: in a batch export every item of the listing is processed,
    whatever fails: [exportPolicies] and [exportPoliciesByPolicySet] issue
    the reads of all the policies listed, in order, and
    [exportOAuth2Clients] asks for the first script reference of each
    client listed (unless [exportData.script[scriptId]] finds it: a client
    before brought it, or it names a member of [Object.prototype]).  The
    bundle is returned exactly when no read failed (for clients: when no
    read failed otherwise than with the tolerated capability-absence
    signal), and it is the bundle assembled: the metadata, every item
    listed under its id, and the dependencies as the server answered them.
    Otherwise one aggregate error is raised, after the last item, and no
    bundle is returned; the aggregate wraps exactly the failures logged
    (for clients: those that are not the tolerated signal). *)
Theorem batch_export_fails_closed :
  (forall (S : Type) state options t (s : S) policies,
     _getPolicies state t = inr policies ->
     exists evs,
       let out := PolicyOps.exportPolicies state options (t, s) in
       fst out = (t ++ mkEvent GetPolicies None :: evs, s) /\
       calls evs = flat_map (policyReads options) policies /\
       batchOutcome ("Error exporting " ++ realm state ++ " policies") (snd out) evs /\
       forall bundle,
         snd out = inr bundle ->
         policiesExported state options (t ++ [mkEvent GetPolicies None]) evs policies
           bundle) /\
  (forall (S : Type) state policySetName options t (s : S) policies,
     _getPoliciesByPolicySet state t policySetName = inr policies ->
     exists evs,
       let out := PolicyOps.exportPoliciesByPolicySet state policySetName options (t, s) in
       fst out = (t ++ mkEvent (GetPoliciesByPolicySet policySetName) None :: evs, s) /\
       calls evs = flat_map (policyReads options) policies /\
       batchOutcome
         ("Error exporting " ++ realm state ++ " policies in set " ++ policySetName)
         (snd out) evs /\
       forall bundle,
         snd out = inr bundle ->
         policiesExported state options
           (t ++ [mkEvent (GetPoliciesByPolicySet policySetName) None]) evs policies
           bundle) /\
  (forall (S : Type) state options t (s : S) provider clients,
     readOAuth2Provider state t = inr provider ->
     listedClients state (t ++ [mkEvent ReadOAuth2Provider None]) = Some clients ->
     exists evs,
       let t1 := t ++ [mkEvent ReadOAuth2Provider None] in
       let t2 := t1 ++ [listingEvent state t1] in
       let out := OAuth2ClientOps.exportOAuth2Clients state options (t, s) in
       fst out = (t2 ++ evs, s) /\
       Forall (fun cl => isScriptRead cl = true) (calls evs) /\
       (OAuth2ClientOps.deps options = true ->
        forall c, In c clients ->
        forall v, head (scriptReferences c) = Some v ->
                  inherited (toPropertyKey v) = true \/ fetched evs (toPropertyKey v)) /\
       match snd out with
       | inr bundle =>
           tolerated state evs /\
           clientsExported state options provider t2 evs clients bundle
       | inl e =>
           ~ tolerated state evs /\
           exists errors,
             e = FrodoError ("Error exporting " ++ realm state ++ " oauth2 clients") errors /\
             errors <> [] /\
             flat_map leaves errors = untolerated state evs
       end).
Proof.
  split; [| split].
  - intros S state options t s policies Hlist.
    apply exported_batch. unfold PolicyOps.readPolicies, tryCatch.
    now rewrite (remote_ok _ _ _ _ _ Hlist).
  - intros S state policySetName options t s policies Hlist.
    apply exported_batch. unfold PolicyOps.readPoliciesByPolicySet, tryCatch.
    now rewrite (remote_ok _ _ _ _ _ Hlist).
  - intros S state options t s provider clients. apply exported_clients.
Qed.

Lemma batch_export_fails_closed_witness :
  (exists evs,
     let out := PolicyOps.exportPolicies Examples.tenantBrokenScripts
                  (PolicyOps.mkExportOptions true true true) ([], tt) in
     fst out = ([] ++ mkEvent GetPolicies None :: evs, tt) /\
     calls evs =
       [GetResourceType "rt1"; ReadPolicySet "set1";
        ReadScript (JStr "s1"); ReadScript (JStr "s2");
        GetResourceType "rt1"; ReadPolicySet "set1"; ReadScript (JStr "s1")] /\
     batchOutcome "Error exporting alpha realm policies" (snd out) evs /\
     forall bundle,
       snd out = inr bundle ->
       policiesExported Examples.tenantBrokenScripts
         (PolicyOps.mkExportOptions true true true)
         ([] ++ [mkEvent GetPolicies None]) evs [Examples.policy1; Examples.policy2]
         bundle) /\
  (exists evs,
     let t1 := [] ++ [mkEvent ReadOAuth2Provider None] in
     let t2 := t1 ++ [listingEvent Examples.tenantBrokenScripts t1] in
     let out := OAuth2ClientOps.exportOAuth2Clients Examples.tenantBrokenScripts
                  (OAuth2ClientOps.mkExportOptions true true) ([], tt) in
     fst out = (t2 ++ evs, tt) /\
     Forall (fun cl => isScriptRead cl = true) (calls evs) /\
     (true = true ->
      forall c, In c [Examples.client1] ->
      forall v, head (scriptReferences c) = Some v ->
                inherited (toPropertyKey v) = true \/ fetched evs (toPropertyKey v)) /\
     match snd out with
     | inr bundle =>
         tolerated Examples.tenantBrokenScripts evs /\
         clientsExported Examples.tenantBrokenScripts
           (OAuth2ClientOps.mkExportOptions true true) (JObj []) t2 evs
           [Examples.client1] bundle
     | inl e =>
         ~ tolerated Examples.tenantBrokenScripts evs /\
         exists errors,
           e = FrodoError "Error exporting alpha realm oauth2 clients" errors /\
           errors <> [] /\
           flat_map leaves errors = untolerated Examples.tenantBrokenScripts evs
     end).
Proof.
  split.
  - exact (proj1 batch_export_fails_closed unit Examples.tenantBrokenScripts
             (PolicyOps.mkExportOptions true true true) [] tt
             [Examples.policy1; Examples.policy2] eq_refl).
  - exact (proj2 (proj2 batch_export_fails_closed) unit Examples.tenantBrokenScripts
             (OAuth2ClientOps.mkExportOptions true true) [] tt (JObj [])
             [Examples.client1] eq_refl eq_refl).
Defined.

(** C4, on a tenant where no script can be read: both policies are
    processed, all their reads are issued, and the three failures are
    raised together at the end. *)
Lemma exportPolicies_collects_then_raises :
  let out := PolicyOps.exportPolicies Examples.tenantBrokenScripts
               (PolicyOps.mkExportOptions true true true) ([], tt) in
  calls (fst (fst out)) =
    [GetPolicies;
     GetResourceType "rt1"; ReadPolicySet "set1";
     ReadScript (JStr "s1"); ReadScript (JStr "s2");
     GetResourceType "rt1"; ReadPolicySet "set1"; ReadScript (JStr "s1")] /\
  snd out =
    inl (FrodoError "Error exporting alpha realm policies"
           [FrodoError "Error exporting alpha realm policy dependencies"
              [FrodoError "Error getting alpha realm policy scripts"
                 [FrodoError "Error retrieving alpha realm script s1 referenced in policy p1"
                    [Thrown Examples.serverError];
                  FrodoError "Error retrieving alpha realm script s2 referenced in policy p1"
                    [Thrown Examples.serverError]]];
            FrodoError "Error exporting alpha realm policy dependencies"
              [FrodoError "Error getting alpha realm policy scripts"
                 [FrodoError "Error retrieving alpha realm script s1 referenced in policy p2"
                    [Thrown Examples.serverError]]]]).
Proof. vm_compute. split; reflexivity. Qed.
(** ** C5 *)

Lemma policyWrites_of_entry options b policyData :
  filter isPolicyWrite (entryWrites options b policyData) =
  [PutPolicy (policy_id policyData) policyData].
Proof.
  unfold entryWrites, prerequisiteWrites, scriptWrites.
  rewrite !filter_app. cbn [filter isPolicyWrite].
  assert (Hs : forall l (b0 : PolicyOps.PolicyExportInterface),
             filter isPolicyWrite
               (map (fun scriptUuid =>
                       UpdateScript (idVal scriptUuid)
                         (lookup (toPropertyKey (idVal scriptUuid)) (PolicyOps.script b0)))
                  l) = []).
  { induction l as [| x l IH]; intros b0; [reflexivity | cbn; apply IH]. }
  destruct (PolicyOps.import_prereqs options), (PolicyOps.import_deps options);
    rewrite ?Hs, ?filter_app;
    destruct (lookup (resourceTypeUuid policyData) (PolicyOps.resourcetype b));
    destruct (lookup (applicationName policyData) (PolicyOps.policyset b));
    reflexivity.
Qed.

(** C5: [importPolicy] writes the policy entry whose key is the id, and
    that one only, and raises "Policy <id> not found in import data" when
    no key matches; [importFirstPolicy] writes the first entry only and
    raises "No policy found in import data" on an empty collection;
    [importPolicies] writes every entry, in order, whatever fails, and the
    aggregate error it raises afterwards wraps exactly the failures
    logged.  In the three, the result is an error exactly when a call
    failed. *)
Theorem import_selectors :
  (forall state policyId options b,
     NoDup (objectKeys (PolicyOps.policy b)) ->
     emits (PolicyOps.importPolicy state policyId options) b
       (fun evs _ r =>
          match getProp policyId (PolicyOps.policy b) with
          | None =>
              evs = [] /\
              r = inl (FrodoError ("Policy " ++ policyId ++ " not found in import data") [])
          | Some entry =>
              let policyData := PolicyOps.stripPolicy options entry in
              filter isPolicyWrite (calls evs) = [PutPolicy (policy_id policyData) policyData] /\
              reports r evs
          end)) /\
  (forall state options b,
     emits (PolicyOps.importFirstPolicy state options) b
       (fun evs _ r =>
          match PolicyOps.policy b with
          | [] => evs = [] /\ r = inl (FrodoError "No policy found in import data" [])
          | (_, entry) :: _ =>
              let policyData := PolicyOps.stripPolicy options entry in
              filter isPolicyWrite (calls evs) = [PutPolicy (policy_id policyData) policyData] /\
              reports r evs
          end)) /\
  (forall state options b,
     NoDup (objectKeys (PolicyOps.policy b)) ->
     emits (PolicyOps.importPolicies state options) b
       (fun evs _ r =>
          filter isPolicyWrite (calls evs) =
            map (fun kv => let policyData := PolicyOps.stripPolicy options (snd kv) in
                           PutPolicy (policy_id policyData) policyData)
              (PolicyOps.policy b) /\
          reports r evs /\
          match r with
          | inr _ => True
          | inl e =>
              exists errors,
                e = FrodoError ("Error importing " ++ realm state ++ " policies") errors
          end)).
Proof.
  split; [| split].
  - intros state policyId options b Hnd.
    eapply emits_mono; [apply (PolicyImportFacts.importPolicy_emits _ _ _ _ Hnd) |].
    intros evs b' r H. destruct (getProp policyId (PolicyOps.policy b)) as [entry |].
    + destruct H as [_ [Hc Hr]]. cbv zeta. rewrite Hc. split; [| exact Hr].
      apply policyWrites_of_entry.
    + destruct H as [He [_ Hr]]. auto.
  - intros state options b.
    eapply emits_mono; [apply PolicyImportFacts.importFirstPolicy_emits |].
    intros evs b' r H. destruct (PolicyOps.policy b) as [| [id entry] rest].
    + destruct H as [He [_ Hr]]. auto.
    + destruct H as [_ [Hc Hr]]. cbv zeta. rewrite Hc. split; [| exact Hr].
      apply policyWrites_of_entry.
  - intros state options b Hnd.
    eapply emits_mono; [apply (PolicyImportFacts.importPolicies_emits _ _ _ Hnd) |].
    intros evs b' r [_ [Hc [Hr He]]]. split; [| split; [exact Hr | exact He]].
    rewrite Hc. clear. induction (PolicyOps.policy b) as [| kv l IH]; [reflexivity |].
    cbn [flat_map map]. rewrite filter_app, policyWrites_of_entry, IH. reflexivity.
Qed.

Lemma import_selectors_witness :
  NoDup (objectKeys (PolicyOps.policy Examples.policyBundle)) /\
  emits (PolicyOps.importPolicy Examples.tenant "p3" Examples.allOptions)
    Examples.policyBundle
    (fun evs _ r =>
       evs = [] /\ r = inl (FrodoError "Policy p3 not found in import data" [])) /\
  emits (PolicyOps.importPolicies Examples.tenant Examples.allOptions)
    Examples.policyBundle
    (fun evs _ r =>
       filter isPolicyWrite (calls evs) =
         [PutPolicy "p1" (PolicyOps.stripPolicy Examples.allOptions Examples.policy1);
          PutPolicy "p2" (PolicyOps.stripPolicy Examples.allOptions Examples.policy2)] /\
       reports r evs /\
       match r with
       | inr _ => True
       | inl e => exists errors, e = FrodoError "Error importing alpha realm policies" errors
       end).
Proof.
  assert (Hnd : NoDup (objectKeys (PolicyOps.policy Examples.policyBundle))).
  { repeat constructor; cbn; intuition discriminate. }
  split; [exact Hnd | split].
  - exact (proj1 import_selectors Examples.tenant "p3" Examples.allOptions
             Examples.policyBundle Hnd).
  - exact (proj2 (proj2 import_selectors) Examples.tenant
             Examples.allOptions Examples.policyBundle Hnd).
Defined.
(** ** C6 *)

Lemma entryAfterImport_cases id entry evs :
  entryAfterImport id entry evs = OAuth2ClientOps.stripClient entry \/
  exists listed,
    entryAfterImport id entry evs = repairedClient listed (OAuth2ClientOps.stripClient entry).
Proof.
  unfold entryAfterImport.
  destruct (filter (fun ev => isClientWrite id (call ev)) evs) as [| [c [[r | | |] |]] l];
    auto.
  destruct (setsOffRepair (Thrown r)); auto.
  destruct (listedAttributes r) as [listed |]; eauto.
Qed.

Lemma entryAfterImport_stripped id entry evs :
  client_id (entryAfterImport id entry evs) = client_id entry /\
  objectKeys (client_attrs (entryAfterImport id entry evs)) =
    objectKeys (deleteProp "_rev" (deleteProp "_provider" (client_attrs entry))) /\
  ~ In "_rev" (objectKeys (client_attrs (entryAfterImport id entry evs))) /\
  ~ In "_provider" (objectKeys (client_attrs (entryAfterImport id entry evs))).
Proof.
  assert (Hkeys : client_id (entryAfterImport id entry evs) = client_id entry /\
                  objectKeys (client_attrs (entryAfterImport id entry evs)) =
                    objectKeys (deleteProp "_rev" (deleteProp "_provider" (client_attrs entry)))).
  { destruct (entryAfterImport_cases id entry evs) as [-> | [listed ->]].
    - split; reflexivity.
    - unfold repairedClient. cbn [client_id client_attrs OAuth2ClientOps.stripClient].
      split; [reflexivity | apply OAuth2ImportFacts.removeInvalidAttributes_keys]. }
  destruct Hkeys as [Hid Hkeys]. split; [exact Hid | split; [exact Hkeys |]].
  rewrite Hkeys. split; intros H; apply objectKeys_deleteProp in H.
  - destruct H as [H _]. now apply H.
  - destruct H as [_ H]. apply objectKeys_deleteProp in H. destruct H as [H _]. now apply H.
Qed.

(** C6, as the code has it: the import functions work on the bundle's own
    objects, not on copies.  On return every policy entry visited has lost
    [_rev] and carries the [applicationName] of [options.policySetName]
    when that is set.  Every client entry visited is the entry without
    [_provider] and [_rev], as [updateOAuth2Client] left it: repaired with
    the list of valid attributes if the log shows that the first write of
    the client was rejected for an invalid attribute, and as it was
    otherwise; in any case it keeps its id and its other keys.  Nothing
    else of the bundle changes. *)
Theorem import_strips_in_place :
  (forall state policyId options b,
     NoDup (objectKeys (PolicyOps.policy b)) ->
     emits (PolicyOps.importPolicy state policyId options) b
       (fun _ b' _ =>
          b' = match getProp policyId (PolicyOps.policy b) with
               | Some entry =>
                   PolicyOps.setPolicy policyId (PolicyOps.stripPolicy options entry) b
               | None => b
               end)) /\
  (forall state options b,
     emits (PolicyOps.importFirstPolicy state options) b
       (fun _ b' _ =>
          b' = match PolicyOps.policy b with
               | (id, entry) :: _ =>
                   PolicyOps.setPolicy id (PolicyOps.stripPolicy options entry) b
               | [] => b
               end)) /\
  (forall state options b,
     NoDup (objectKeys (PolicyOps.policy b)) ->
     emits (PolicyOps.importPolicies state options) b
       (fun _ b' _ => b' = stripPolicies options b)) /\
  (forall state clientId options b,
     NoDup (objectKeys (OAuth2ClientOps.application b)) ->
     emits (OAuth2ClientOps.importOAuth2Client state clientId options) b
       (fun evs b' _ =>
          b' = match getProp clientId (OAuth2ClientOps.application b) with
               | Some entry =>
                   OAuth2ClientOps.setApplication clientId
                     (entryAfterImport clientId entry evs) b
               | None => b
               end)) /\
  (forall state options b,
     emits (OAuth2ClientOps.importFirstOAuth2Client state options) b
       (fun evs b' _ =>
          b' = match OAuth2ClientOps.application b with
               | (id, entry) :: _ =>
                   OAuth2ClientOps.setApplication id (entryAfterImport id entry evs) b
               | [] => b
               end)) /\
  (forall state options b,
     NoDup (objectKeys (OAuth2ClientOps.application b)) ->
     emits (OAuth2ClientOps.importOAuth2Clients state options) b
       (fun evs b' _ =>
          b' = OAuth2ClientOps.mkExport (OAuth2ClientOps.meta b) (OAuth2ClientOps.script b)
                 (map (fun kv => (fst kv, entryAfterImport (fst kv) (snd kv) evs))
                    (OAuth2ClientOps.application b)))) /\
  (forall id entry evs,
     client_id (entryAfterImport id entry evs) = client_id entry /\
     objectKeys (client_attrs (entryAfterImport id entry evs)) =
       objectKeys (deleteProp "_rev" (deleteProp "_provider" (client_attrs entry))) /\
     ~ In "_rev" (objectKeys (client_attrs (entryAfterImport id entry evs))) /\
     ~ In "_provider" (objectKeys (client_attrs (entryAfterImport id entry evs)))).
Proof.
  repeat apply conj.
  - intros state policyId options b Hnd.
    eapply emits_mono; [apply (PolicyImportFacts.importPolicy_emits _ _ _ _ Hnd) |].
    intros evs b' r H. destruct (getProp policyId (PolicyOps.policy b)); apply H.
  - intros state options b.
    eapply emits_mono; [apply PolicyImportFacts.importFirstPolicy_emits |].
    intros evs b' r H. destruct (PolicyOps.policy b) as [| [id entry] rest]; apply H.
  - intros state options b Hnd.
    eapply emits_mono; [apply (PolicyImportFacts.importPolicies_emits _ _ _ Hnd) |].
    intros evs b' r H. apply H.
  - intros state clientId options b Hnd. apply emits_of_runs. intros t.
    eapply runs_mono; [apply (OAuth2ImportFacts.importOAuth2Client_runs _ _ _ _ _ Hnd) |].
    intros evs b' r H.
    destruct (getProp clientId (OAuth2ClientOps.application b)) as [entry |]; [| apply H].
    destruct H as [c' [x [-> [Hrun _]]]]. f_equal. symmetry.
    rewrite <- (app_nil_r evs).
    now apply (OAuth2ImportFacts.ClientEntryImported_after _ _ _ _ _ _ _ _ _ [] [] Hrun).
  - intros state options b. apply emits_of_runs. intros t.
    eapply runs_mono; [apply OAuth2ImportFacts.importFirstOAuth2Client_runs |].
    intros evs b' r H.
    destruct (OAuth2ClientOps.application b) as [| [id entry] rest]; [apply H |].
    destruct H as [c' [x [-> [Hrun _]]]]. f_equal. symmetry.
    rewrite <- (app_nil_r evs).
    now apply (OAuth2ImportFacts.ClientEntryImported_after _ _ _ _ _ _ _ _ _ [] [] Hrun).
  - intros state options b Hnd. apply emits_of_runs. intros t.
    eapply runs_mono; [apply (OAuth2ImportFacts.importOAuth2Clients_runs _ _ _ _ Hnd) |].
    intros evs b' r [visits [Hvisits [-> [-> _]]]]. f_equal.
    now apply (OAuth2ImportFacts.ClientsImported_after _ _ _ _ _ t [] Hvisits Hnd).
  - apply entryAfterImport_stripped.
Qed.

Lemma import_strips_in_place_witness :
  (NoDup (objectKeys (PolicyOps.policy Examples.policyBundle)) /\
   emits (PolicyOps.importPolicies Examples.tenant Examples.allOptions) Examples.policyBundle
     (fun _ b' _ =>
        PolicyOps.policy b' =
          [("p1", PolicyOps.stripPolicy Examples.allOptions Examples.policy1);
           ("p2", PolicyOps.stripPolicy Examples.allOptions Examples.policy2)])) /\
  (NoDup (objectKeys (OAuth2ClientOps.application Examples.clientBundle)) /\
   emits (OAuth2ClientOps.importOAuth2Clients Examples.tenantRejectingTwice
            (OAuth2ClientOps.mkImportOptions false))
     Examples.clientBundle
     (fun evs b' _ =>
        b' = OAuth2ClientOps.mkExport None (Some [("s1", Examples.script1)])
               [("c1", entryAfterImport "c1" Examples.client1 evs)])).
Proof.
  assert (Hnd : NoDup (objectKeys (PolicyOps.policy Examples.policyBundle))).
  { repeat constructor; cbn; intuition discriminate. }
  assert (Hnd2 : NoDup (objectKeys (OAuth2ClientOps.application Examples.clientBundle))).
  { repeat constructor; cbn; intuition discriminate. }
  split.
  - split; [exact Hnd |].
    eapply emits_mono.
    + exact (proj1 (proj2 (proj2 import_strips_in_place)) Examples.tenant Examples.allOptions
               Examples.policyBundle Hnd).
    + intros evs b' r ->. reflexivity.
  - split; [exact Hnd2 |].
    exact (proj1 (proj2 (proj2 (proj2 (proj2 (proj2 import_strips_in_place)))))
             Examples.tenantRejectingTwice (OAuth2ClientOps.mkImportOptions false)
             Examples.clientBundle Hnd2).
Defined.

(** C6, counterexample: after the import of the policy p1 the caller's
    bundle holds p1 without its [_rev]; after the import of the client c1
    the caller's bundle holds c1 without [_rev] and [_provider]. *)
Lemma import_strips_in_place_counterexample :
  getProp "p1"
    (PolicyOps.policy
       (snd (fst (PolicyOps.importPolicy Examples.tenant "p1" Examples.allOptions
                    ([], Examples.policyBundle))))) =
  Some (mkPolicy "p1" None "p1" "set1" "rt1" (Some Examples.condition1) []) /\
  policy_rev Examples.policy1 = Some "rev1" /\
  option_map (fun c => objectKeys (client_attrs c))
    (getProp "c1"
       (OAuth2ClientOps.application
          (snd (fst (OAuth2ClientOps.importOAuth2Client Examples.tenant "c1"
                       (OAuth2ClientOps.mkImportOptions true)
                       ([], Examples.clientBundle)))))) =
  Some ["overrideOAuth2ClientConfig"; "coreOAuth2ClientConfig"] /\
  objectKeys (client_attrs Examples.client1) =
  ["_rev"; "_provider"; "overrideOAuth2ClientConfig"; "coreOAuth2ClientConfig"].
Proof. vm_compute. repeat split. Qed.
(** ** C7 *)

Lemma removeInvalidAttributes_objects validAttributes attrs key fields :
  snd (OAuth2ClientOps.removeInvalidAttributes validAttributes attrs) = None ->
  In (key, JObj fields) attrs ->
  In (key, JObj (filter (fun kv => includes validAttributes (fst kv)) fields))
    (fst (OAuth2ClientOps.removeInvalidAttributes validAttributes attrs)).
Proof.
  induction attrs as [| [k v] attrs IH]; intros Hnone Hin; [destruct Hin |].
  cbn [OAuth2ClientOps.removeInvalidAttributes] in *.
  destruct v; cbn [fst snd] in *; try discriminate;
    (destruct Hin as [Heq | Hin];
     [inversion Heq; subst; try (now left) | right; now apply IH]).
Qed.

(** C7, as the code has it: a write rejected with status 400 and message
    "Invalid attribute specified." is repaired in place (every attribute
    that is not listed as valid, [_id] apart, is deleted from each
    object-valued property of the client) and retried once; when the retry
    fails it is the failure of the retry that is surfaced, wrapped as
    "Error updating ...", and not the first one.  Any other rejection is
    surfaced, wrapped, after a single write and without touching the
    client.  There are never more than two writes.  (A rejection without
    the list of valid attributes, or a null property, ends the repair with
    a TypeError, wrapped, and no retry.) *)
Theorem updateOAuth2Client_repairs_once :
  (forall state clientId t c,
     let out := OAuth2ClientOps.updateOAuth2Client state clientId (t, c) in
     let put := fun payload failure => mkEvent (PutOAuth2Client clientId payload) failure in
     match _putOAuth2Client state t clientId c with
     | inr written => out = ((t ++ [put c None], c), inr written)
     | inl r =>
         let t1 := t ++ [put c (Some (Thrown r))] in
         if OAuth2ClientOps.responseIs 400 "Invalid attribute specified." (Thrown r)
         then
           match listedAttributes r with
           | Some listed =>
               let repair :=
                 OAuth2ClientOps.removeInvalidAttributes (listed ++ ["_id"]) (client_attrs c) in
               let repaired := mkClient (client_id c) (fst repair) in
               match snd repair with
               | None =>
                   match _putOAuth2Client state t1 clientId repaired with
                   | inr written =>
                       out = ((t1 ++ [put repaired None], repaired), inr written)
                   | inl r2 =>
                       out = ((t1 ++ [put repaired (Some (Thrown r2))], repaired),
                              inl (updateFailed state clientId (Thrown r2)))
                   end
               | Some typeError =>
                   out = ((t1, repaired), inl (updateFailed state clientId typeError))
               end
           | None =>
               out = ((t1, c),
                      inl (updateFailed state clientId
                             (TypeError "Cannot read properties of undefined")))
           end
         else out = ((t1, c), inl (updateFailed state clientId (Thrown r)))
     end) /\
  (forall validAttributes attrs,
     snd (OAuth2ClientOps.removeInvalidAttributes validAttributes attrs) = None ->
     objectKeys (fst (OAuth2ClientOps.removeInvalidAttributes validAttributes attrs)) =
       objectKeys attrs /\
     forall key fields,
       In (key, JObj fields) attrs ->
       In (key, JObj (filter (fun kv => includes validAttributes (fst kv)) fields))
         (fst (OAuth2ClientOps.removeInvalidAttributes validAttributes attrs))) /\
  (forall state clientId c,
     emits (OAuth2ClientOps.updateOAuth2Client state clientId) c
       (fun evs _ _ =>
          1 <= List.length (calls evs) <= 2 /\
          Forall (fun cl => isClientWrite clientId cl = true) (calls evs))).
Proof.
  split; [| split].
  - intros state clientId t c. cbv zeta.
    unfold OAuth2ClientOps.updateOAuth2Client, listedAttributes, updateFailed,
      OAuth2ClientOps.responseIs, response, bind, get, tryCatch, remote, modify, throw, ret.
    cbn [fst snd].
    destruct (_putOAuth2Client state t clientId c) as [r | written]; [| reflexivity].
    cbn [fst snd].
    destruct (rej_response r) as [resp |]; [| reflexivity].
    destruct (andb (status resp =? 400)%Z _); [| reflexivity].
    destruct (data_detail_validAttributes resp) as [listed |]; [| reflexivity].
    cbn [fst snd].
    destruct (snd (OAuth2ClientOps.removeInvalidAttributes _ _)) as [te |]; [reflexivity |].
    cbn [fst snd].
    destruct (_putOAuth2Client state _ clientId _) as [r2 | written]; reflexivity.
  - intros validAttributes attrs Hnone. split.
    + apply OAuth2ImportFacts.removeInvalidAttributes_keys.
    + intros key fields. now apply removeInvalidAttributes_objects.
  - intros state clientId c.
    eapply emits_mono; [apply OAuth2ImportFacts.updateOAuth2Client_emits |].
    intros evs c' r [_ [_ [Hf Hl]]]. split; [exact Hl | exact Hf].
Qed.

Lemma updateOAuth2Client_repairs_once_witness :
  snd (OAuth2ClientOps.removeInvalidAttributes ["clientName"; "_id"]
         (client_attrs Examples.client1)) = None /\
  In ("coreOAuth2ClientConfig", JObj [("clientName", JStr "c1")])
    (fst (OAuth2ClientOps.removeInvalidAttributes ["clientName"; "_id"]
            (client_attrs Examples.client1))).
Proof.
  split; [reflexivity |].
  exact (proj2 (proj1 (proj2 updateOAuth2Client_repairs_once) ["clientName"; "_id"]
                  (client_attrs Examples.client1) eq_refl)
           "coreOAuth2ClientConfig" [("clientName", JStr "c1"); ("legacyFlag", JNum "1")]
           (or_intror (or_intror (or_intror (or_introl eq_refl))))).
Defined.

(** C7, counterexample: the first write of c1 is rejected with
    "Invalid attribute specified.", the retry with a server error; the
    error surfaced wraps the server error of the retry, not the first
    rejection. *)
Lemma updateOAuth2Client_repairs_once_counterexample :
  _putOAuth2Client Examples.tenantRejectingTwice [] "c1" Examples.client1 =
    inl Examples.invalidAttribute /\
  snd (OAuth2ClientOps.updateOAuth2Client Examples.tenantRejectingTwice "c1"
         ([], Examples.client1)) =
    inl (FrodoError "Error updating alpha realm oauth2 client c1"
           [Thrown Examples.serverError]) /\
  Examples.serverError <> Examples.invalidAttribute.
Proof.
  split; [reflexivity | split; [vm_compute; reflexivity | discriminate]].
Qed.
(** ** C8 *)

(** C8, as the code has it: the capability-absence signal (403, "This
    operation is not available in PingOne Advanced Identity Cloud.") is
    turned into "no results" in two places.  [readOAuth2Clients] returns
    the empty list on it, so that [exportOAuth2Clients] returns the empty
    bundle, and raises any other failure of the listing, wrapped.
    [exportOAuth2ClientDependencies] skips a script whose read fails with
    it: it returns normally exactly when every failure logged is that
    signal, and otherwise stops at the first read that fails differently
    and raises that failure, wrapped with the script, the key and the
    client. *)
Theorem capability_absence_is_no_result :
  (forall (S : Type) state t (s : S),
     OAuth2ClientOps.readOAuth2Clients state (t, s) =
     ((t ++ [listingEvent state t], s),
      match _getOAuth2Clients state t with
      | inr clients => inr clients
      | inl r =>
          if OAuth2ClientOps.responseIs 403 OAuth2ClientOps.notAvailable (Thrown r)
          then inr []
          else inl (FrodoError ("Error reading " ++ realm state ++ " oauth2 clients")
                      [Thrown r])
      end)) /\
  (forall (S : Type) state options t (s : S) provider r,
     readOAuth2Provider state t = inr provider ->
     _getOAuth2Clients state (t ++ [mkEvent ReadOAuth2Provider None]) = inl r ->
     OAuth2ClientOps.responseIs 403 OAuth2ClientOps.notAvailable (Thrown r) = true ->
     OAuth2ClientOps.exportOAuth2Clients state options (t, s) =
     (((t ++ [mkEvent ReadOAuth2Provider None])
         ++ [mkEvent GetOAuth2Clients (Some (Thrown r))], s),
      inr (OAuth2ClientOps.createOAuth2ClientExportTemplate state))) /\
  (forall state clientData options b scripts,
     OAuth2ClientOps.script b = Some scripts ->
     emits (OAuth2ClientOps.exportOAuth2ClientDependencies state clientData options) b
       (fun evs _ r =>
          (tolerated state evs -> r = inr tt) /\
          match r with
          | inr _ => tolerated state evs
          | inl e =>
              exists evs0 key v rejection,
                evs = evs0 ++ [mkEvent (ReadScript v) (Some (Thrown rejection))] /\
                tolerated state evs0 /\
                OAuth2ClientOps.isNotAvailable state (Thrown rejection) = false /\
                In (key, v) (overrideEntries clientData) /\
                endsWith key "Script" = true /\
                e = FrodoError
                      ("Error retrieving " ++ realm state ++ " script " ++ toPropertyKey v
                       ++ " referenced by " ++ key ++ " key in client "
                       ++ client_id clientData)
                      [Thrown rejection]
          end)).
Proof.
  split; [| split].
  - intros S state t s. rewrite OAuth2ExportFacts.readOAuth2Clients_eq.
    unfold listedClients. destruct (_getOAuth2Clients state t) as [r | clients];
      [| reflexivity].
    now destruct (OAuth2ClientOps.responseIs 403 OAuth2ClientOps.notAvailable (Thrown r)).
  - intros S state options t s provider r Hprovider Hlisting Hsignal.
    unfold OAuth2ClientOps.exportOAuth2Clients, withLocal. cbn [fst snd].
    unfold bind at 1. unfold tryCatch at 1. unfold bind at 1.
    rewrite (remote_ok _ _ _ _ _ Hprovider).
    unfold bind at 1. rewrite OAuth2ExportFacts.readOAuth2Clients_eq.
    unfold listedClients. rewrite Hlisting, Hsignal.
    unfold listingEvent. rewrite Hlisting. reflexivity.
  - intros state clientData options b scripts Hs. apply emits_of_runs. intros t.
    eapply runs_mono;
      [apply (OAuth2ExportFacts.exportOAuth2ClientDependencies_runs _ _ _ _ _ _ Hs) |].
    intros evs b' r [_ [_ [_ [_ [_ Hr]]]]].
    destruct r as [e | []].
    + destruct Hr as [evs0 [key [v [rj [-> [Ht [Hna [Hin [Href ->]]]]]]]]]. split.
      * intros Htol. unfold tolerated in Htol. rewrite failures_app in Htol.
        apply Forall_app in Htol. destruct Htol as [_ Htol].
        cbn [failures flat_map failure app] in Htol.
        inversion Htol as [| f fs Hf _]; subst. congruence.
      * exists evs0, key, v, rj. repeat split; auto.
        unfold isScriptReference in Href. cbn [fst snd] in Href.
        apply andb_true_iff in Href. apply Href.
    + split; [reflexivity | apply Hr].
Qed.

Lemma capability_absence_is_no_result_witness :
  (OAuth2ClientOps.responseIs 403 OAuth2ClientOps.notAvailable
     (Thrown Examples.notAvailableSignal) = true /\
   OAuth2ClientOps.exportOAuth2Clients Examples.tenantWithoutClients
     (OAuth2ClientOps.mkExportOptions true true) ([], tt) =
   (([mkEvent ReadOAuth2Provider None;
      mkEvent GetOAuth2Clients (Some (Thrown Examples.notAvailableSignal))], tt),
    inr (OAuth2ClientOps.mkExport (Some []) (Some []) []))) /\
  emits (OAuth2ClientOps.exportOAuth2ClientDependencies Examples.tenantBrokenScripts
           Examples.client1 (OAuth2ClientOps.mkExportOptions true true))
    (OAuth2ClientOps.createOAuth2ClientExportTemplate Examples.tenantBrokenScripts)
    (fun evs _ r =>
       (tolerated Examples.tenantBrokenScripts evs -> r = inr tt) /\
       match r with
       | inr _ => tolerated Examples.tenantBrokenScripts evs
       | inl e =>
           exists evs0 key v rejection,
             evs = evs0 ++ [mkEvent (ReadScript v) (Some (Thrown rejection))] /\
             tolerated Examples.tenantBrokenScripts evs0 /\
             OAuth2ClientOps.isNotAvailable Examples.tenantBrokenScripts (Thrown rejection)
               = false /\
             In (key, v) (overrideEntries Examples.client1) /\
             endsWith key "Script" = true /\
             e = FrodoError
                   ("Error retrieving alpha realm script " ++ toPropertyKey v
                    ++ " referenced by " ++ key ++ " key in client c1")
                   [Thrown rejection]
       end).
Proof.
  split.
  - split; [reflexivity |].
    exact (proj1 (proj2 capability_absence_is_no_result) unit Examples.tenantWithoutClients
             (OAuth2ClientOps.mkExportOptions true true) [] tt (JObj [])
             Examples.notAvailableSignal eq_refl eq_refl eq_refl).
  - exact (proj2 (proj2 capability_absence_is_no_result) Examples.tenantBrokenScripts
             Examples.client1 (OAuth2ClientOps.mkExportOptions true true)
             (OAuth2ClientOps.createOAuth2ClientExportTemplate Examples.tenantBrokenScripts)
             [] eq_refl).
Defined.

(** C8, counterexample: the listing succeeds and the read of the script
    s1, referenced by the client c1, fails with the capability-absence
    signal; the export does not raise and returns the bundle without the
    script. *)
Lemma capability_absence_is_no_result_counterexample :
  let out := OAuth2ClientOps.exportOAuth2Clients Examples.tenantWithoutScripts
               (OAuth2ClientOps.mkExportOptions true true) ([], tt) in
  fst (fst out) =
    [mkEvent ReadOAuth2Provider None;
     mkEvent GetOAuth2Clients None;
     mkEvent (ReadScript (JStr "s1")) (Some (Thrown Examples.notAvailableSignal))] /\
  snd out =
    inr (OAuth2ClientOps.mkExport (Some []) (Some []) [("c1", Examples.client1)]).
Proof. vm_compute. split; reflexivity. Qed.
(** ** C9 *)





(** ** C10 *)

(** C10: in [createPolicy] and [createOAuth2Client] any failure of the
    probe read, whatever the error, leads to the write (the policy PUT, or
    [updateOAuth2Client]); the "already exists" error is raised exactly
    when the probe read succeeds, and then nothing is written. *)
Theorem create_probes_then_writes :
  (forall (S : Type) state policyId policyData (w : Trace * S),
     let out := PolicyOps.createPolicy state policyId policyData w in
     let exists_error := JsError ("Policy " ++ policyId ++ " already exists!") in
     match _getPolicy state (fst w) policyId with
     | inr _ =>
         out = ((fst w ++ [mkEvent (GetPolicy policyId) None], snd w), inl exists_error)
     | inl probe =>
         let t1 := fst w ++ [mkEvent (GetPolicy policyId) (Some (Thrown probe))] in
         snd out <> inl exists_error /\
         match _putPolicy state t1 policyId policyData with
         | inr written =>
             out = ((t1 ++ [mkEvent (PutPolicy policyId policyData) None], snd w),
                    inr written)
         | inl r =>
             out = ((t1 ++ [mkEvent (PutPolicy policyId policyData) (Some (Thrown r))], snd w),
                    inl (FrodoError
                           ("Error creating " ++ realm state ++ " policy " ++ policyId)
                           [Thrown r]))
         end
     end) /\
  (forall state clientId (w : Trace * OAuth2ClientSkeleton),
     let out := OAuth2ClientOps.createOAuth2Client state clientId w in
     let exists_error :=
       FrodoError (realm state ++ " oAuth2 client " ++ clientId ++ " already exists!") [] in
     match _getOAuth2Client state (fst w) clientId with
     | inr _ =>
         out = ((fst w ++ [mkEvent (GetOAuth2Client clientId) None], snd w), inl exists_error)
     | inl probe =>
         let t1 := fst w ++ [mkEvent (GetOAuth2Client clientId) (Some (Thrown probe))] in
         snd out <> inl exists_error /\
         match OAuth2ClientOps.updateOAuth2Client state clientId (t1, snd w) with
         | (w', inr written) => out = (w', inr written)
         | (w', inl e) =>
             out = (w', inl (FrodoError
                               ("Error creating " ++ realm state ++ " oauth2 client "
                                ++ clientId)
                               [e]))
         end
     end).
Proof.
  split.
  - intros S state policyId policyData [t s]. cbv zeta. cbn [fst snd].
    unfold PolicyOps.createPolicy.
    destruct (_getPolicy state t policyId) as [probe | found] eqn:Eprobe.
    + rewrite (remote_fail _ _ _ _ _ Eprobe). unfold tryCatch.
      destruct (_putPolicy state _ policyId policyData) as [r | written] eqn:Eput.
      * rewrite (remote_fail _ _ _ _ _ Eput). split; [discriminate | reflexivity].
      * rewrite (remote_ok _ _ _ _ _ Eput). split; [discriminate | reflexivity].
    + rewrite (remote_ok _ _ _ _ _ Eprobe). reflexivity.
  - intros state clientId [t c]. cbv zeta. cbn [fst snd].
    unfold OAuth2ClientOps.createOAuth2Client, OAuth2ClientOps.readOAuth2Client.
    destruct (_getOAuth2Client state t clientId) as [probe | found] eqn:Eprobe.
    + rewrite (remote_fail _ _ _ _ _ Eprobe). unfold tryCatch, throw.
      destruct (OAuth2ClientOps.updateOAuth2Client state clientId _) as [w' [e | written]];
        (split; [cbn [snd]; discriminate | reflexivity]).
    + rewrite (remote_ok _ _ _ _ _ Eprobe). reflexivity.
Qed.

(** * Further properties *)

(** ** First occurrences *)

Section SetOfOrder.
Context {A : Type} (eqb : A -> A -> bool).
Hypothesis eqb_eq : forall x y, eqb x y = true <-> x = y.

Lemma setAdd_old (acc : list A) (y : A) : In y acc -> setAdd eqb acc y = acc.
Proof.
  intros H. apply (existsb_eqb_In eqb eqb_eq) in H. unfold setAdd. now rewrite H.
Qed.

Lemma setAdd_new (acc : list A) (y : A) : ~ In y acc -> setAdd eqb acc y = acc ++ [y].
Proof.
  intros H. unfold setAdd. destruct (existsb (eqb y) acc) eqn:E; [| reflexivity].
  apply (existsb_eqb_In eqb eqb_eq) in E. contradiction.
Qed.

Lemma fold_setAdd_setAdd (pre acc : list A) (y : A) :
  fold_left (setAdd eqb) (setAdd eqb pre y) acc =
  setAdd eqb (fold_left (setAdd eqb) pre acc) y.
Proof.
  destruct (in_dec (fun a b => match Bool.bool_dec (eqb a b) true with
                               | left e => left (proj1 (eqb_eq a b) e)
                               | right n => right (fun e => n (proj2 (eqb_eq a b) e))
                               end) y pre) as [Hin | Hout].
  - rewrite (setAdd_old pre y Hin). symmetry. apply setAdd_old.
    apply (fold_setAdd_In eqb eqb_eq). now right.
  - rewrite (setAdd_new pre y Hout). now rewrite fold_left_app.
Qed.

Lemma fold_setAdd_fold (ys pre acc : list A) :
  fold_left (setAdd eqb) (fold_left (setAdd eqb) ys pre) acc =
  fold_left (setAdd eqb) ys (fold_left (setAdd eqb) pre acc).
Proof.
  revert pre. induction ys as [| y ys IH]; intros pre; cbn [fold_left].
  - reflexivity.
  - now rewrite IH, fold_setAdd_setAdd.
Qed.

Lemma setOf_app_setOf_l (a b : list A) : setOf eqb (setOf eqb a ++ b) = setOf eqb (a ++ b).
Proof.
  unfold setOf. rewrite !fold_left_app. f_equal. apply (fold_setAdd_fold a [] []).
Qed.

Lemma setOf_app_setOf_r (a b : list A) : setOf eqb (a ++ setOf eqb b) = setOf eqb (a ++ b).
Proof.
  unfold setOf. rewrite !fold_left_app. apply (fold_setAdd_fold b [] _).
Qed.

Lemma setOf_setOf (a : list A) : setOf eqb (setOf eqb a) = setOf eqb a.
Proof.
  rewrite <- (app_nil_r (setOf eqb a)) at 1. rewrite setOf_app_setOf_l. now rewrite app_nil_r.
Qed.

Lemma setOf_flat_map {X} (f g : X -> list A) (l : list X) :
  Forall (fun x => f x = setOf eqb (g x)) l ->
  forall a, setOf eqb (a ++ flat_map f l) = setOf eqb (a ++ flat_map g l).
Proof.
  induction 1 as [| x l Hx Hl IH]; intros a; cbn [flat_map].
  - reflexivity.
  - rewrite Hx, !app_assoc, IH.
    unfold setOf. rewrite !fold_left_app. f_equal.
    rewrite <- !fold_left_app. apply setOf_app_setOf_r.
Qed.

End SetOfOrder.

Lemma findScriptUuidsOf_scriptIdsOf (c : PolicyCondition) :
  PolicyOps.findScriptUuidsOf c = setOf optStringEqb (scriptIdsOf c).
Proof.
  induction c as [t s single conds IHs IHc] using PolicyCondition_nested_ind.
  cbn [PolicyOps.findScriptUuidsOf scriptIdsOf type condition conditions scriptId].
  destruct t as [t |]; [| reflexivity].
  destruct ((t =? "AND") || (t =? "OR") || (t =? "NOT")); [| reflexivity].
  assert (Hs : match single with
               | Some x => PolicyOps.findScriptUuidsOf x
               | None => []
               end =
               setOf optStringEqb match single with
                                  | Some x => scriptIdsOf x
                                  | None => []
                                  end).
  { destruct single as [x |]; [now apply IHs | reflexivity]. }
  rewrite Hs, (setOf_app_setOf_l optStringEqb optStringEqb_eq).
  destruct conds as [l |]; [| reflexivity].
  apply (setOf_flat_map optStringEqb optStringEqb_eq). now apply IHc.
Qed.

(** ** Computations *)

(** A computation on a fresh object that starts with a remote call. *)
Lemma withLocal_remote_ok {S L A B} (init : L) (c : Call) (answer : Trace -> Rejection + A)
  (k : A -> M L B) (h : Error -> M L B) (t : Trace) (s : S) a :
  answer t = inr a ->
  withLocal init (tryCatch (bind (remote c answer) k) h) (t, s) =
  withLocal init (tryCatch (k a) h) (t ++ [mkEvent c None], s).
Proof.
  intros H. unfold withLocal, tryCatch, bind. cbn [fst snd].
  now rewrite (remote_ok _ _ _ _ _ H).
Qed.

Lemma withLocal_remote_fail {S L A B} (init : L) (c : Call) (answer : Trace -> Rejection + A)
  (k : A -> M L B) (h : Error -> M L B) (t : Trace) (s : S) r :
  answer t = inl r ->
  withLocal init (tryCatch (bind (remote c answer) k) h) (t, s) =
  withLocal init (h (Thrown r)) (t ++ [mkEvent c (Some (Thrown r))], s).
Proof.
  intros H. unfold withLocal, tryCatch, bind. cbn [fst snd].
  now rewrite (remote_fail _ _ _ _ _ H).
Qed.
(** ** Collections filled by assignments *)

Section StoredFacts.
Context {X V : Type} (key : X -> string) (value : X -> V).

Lemma stored_NoDup (l : list X) (acc : list (string * V)) :
  NoDup (objectKeys acc) ->
  NoDup (objectKeys (fold_left (fun acc x => setProp (key x) (value x) acc) l acc)).
Proof.
  revert acc. induction l as [| x l IH]; intros acc Hnd; [exact Hnd |].
  cbn [fold_left]. apply IH. now apply NoDup_objectKeys_setProp.
Qed.

Lemma stored_keys (l : list X) (acc : list (string * V)) k :
  In k (objectKeys (fold_left (fun acc x => setProp (key x) (value x) acc) l acc)) ->
  In k (objectKeys acc) \/ exists x, In x l /\ key x = k.
Proof.
  revert acc. induction l as [| x l IH]; intros acc H; [now left |].
  cbn [fold_left] in H. destruct (IH _ H) as [H1 | [y [Hy Hk]]].
  - apply objectKeys_setProp_In in H1. destruct H1 as [-> | H1]; [right | now left].
    exists x. split; [now left | reflexivity].
  - right. exists y. split; [now right | exact Hk].
Qed.

Lemma stored_other (l : list X) (acc : list (string * V)) k :
  ~ In k (map key l) ->
  getProp k (fold_left (fun acc x => setProp (key x) (value x) acc) l acc) = getProp k acc.
Proof.
  revert acc. induction l as [| x l IH]; intros acc Hout; [reflexivity |].
  cbn [fold_left]. rewrite IH.
  - apply getProp_setProp_other. intros E. apply Hout. left. exact E.
  - intros Hin. apply Hout. now right.
Qed.

(** With distinct keys, each item is found under its key. *)
Lemma stored_found (l : list X) (acc : list (string * V)) x :
  NoDup (map key l) -> In x l -> key x <> "__proto__" ->
  getProp (key x) (fold_left (fun acc x => setProp (key x) (value x) acc) l acc)
  = Some (value x).
Proof.
  revert acc. induction l as [| y l IH]; intros acc Hnd Hin Hp; [destruct Hin |].
  cbn [map] in Hnd. inversion Hnd as [| k ks Hk Hnd']; subst. cbn [fold_left].
  destruct Hin as [-> | Hin].
  - rewrite (stored_other l _ _ Hk). now apply getProp_setProp_same.
  - now apply IH.
Qed.

(** With distinct keys that are neither array indices nor [__proto__], the
    items are stored in order. *)
Lemma stored_in_order (l : list X) (acc : list (string * V)) :
  NoDup (objectKeys acc ++ map key l) ->
  Forall (fun x => arrayIndex (key x) = None /\ key x <> "__proto__") l ->
  fold_left (fun acc x => setProp (key x) (value x) acc) l acc =
  acc ++ map (fun x => (key x, value x)) l.
Proof.
  revert acc. induction l as [| x l IH]; intros acc Hnd Hall;
    [now rewrite app_nil_r |].
  inversion Hall as [| x' l' [Hi Hp] Hall']; subst. cbn [fold_left map].
  assert (Hout : ~ In (key x) (objectKeys acc)).
  { intros Hin. cbn [map] in Hnd. apply NoDup_remove_2 in Hnd. apply Hnd.
    apply in_or_app. now left. }
  rewrite (setProp_named _ _ _ (proj2 (getProp_None _ _) Hout) Hp Hi), IH.
  - now rewrite <- app_assoc.
  - unfold objectKeys in *. rewrite map_app. cbn [map fst]. rewrite <- app_assoc.
    exact Hnd.
  - exact Hall'.
Qed.

End StoredFacts.



(** ** X1 *)

(** X1: [findScriptUuids] lists the script ids in the order of their first
    occurrence in a depth-first walk of the tree ([condition] before
    [conditions], these from left to right): removing the repetitions at
    every level gives what removing them once from the whole walk gives. *)
Theorem findScriptUuids_first_occurrences :
  forall c : PolicyCondition,
    PolicyOps.findScriptUuids (Some c) = setOf optStringEqb (scriptIdsOf c).
Proof.
  intros c. cbn [PolicyOps.findScriptUuids]. apply findScriptUuidsOf_scriptIdsOf.
Qed.
(** ** X2 *)

(** X2: when [options.policySetName] is set (and not empty), [importPolicy]
    writes the policy with that name as its [applicationName], and the
    policy set it writes as a prerequisite is what the bundle's [policyset]
    gives under that name: the calls are, in order, the resource type of
    the entry and the policy set of the new name (with [prereqs], each if
    found), the policy, and the scripts of its condition (with [deps]).
    The set that the entry named before is not written. *)
Theorem import_policy_set_override :
  forall state policyId options b entry name,
    NoDup (objectKeys (PolicyOps.policy b)) ->
    getProp policyId (PolicyOps.policy b) = Some entry ->
    PolicyOps.policySetName options = Some name ->
    name <> "" ->
    emits (PolicyOps.importPolicy state policyId options) b
      (fun evs b' _ =>
         let written :=
           mkPolicy (policy_id entry) None (policy_name entry) name
             (resourceTypeUuid entry) (policy_condition entry) (policy_rest entry) in
         calls evs =
           (if PolicyOps.import_prereqs options
            then
              (match lookup (resourceTypeUuid entry) (PolicyOps.resourcetype b) with
               | Absent => []
               | found => [UpdateResourceType (resourceTypeUuid entry) found]
               end) ++
              (match lookup name (PolicyOps.policyset b) with
               | Absent => []
               | found => [UpdatePolicySet found]
               end)
            else []) ++
           [PutPolicy (policy_id entry) written] ++
           (if PolicyOps.import_deps options then scriptWrites b entry else []) /\
         b' = PolicyOps.setPolicy policyId written b).
Proof.
  intros state policyId options b entry name Hnd Hget Hname Hne.
  eapply emits_mono; [apply (PolicyImportFacts.importPolicy_emits _ _ _ _ Hnd) |].
  intros evs b' r H. rewrite Hget in H. destruct H as [-> [Hc _]]. rewrite Hc.
  assert (Hstrip : PolicyOps.stripPolicy options entry =
                   mkPolicy (policy_id entry) None (policy_name entry) name
                     (resourceTypeUuid entry) (policy_condition entry) (policy_rest entry)).
  { unfold PolicyOps.stripPolicy. rewrite Hname.
    apply String.eqb_neq in Hne. now rewrite Hne. }
  cbv zeta. rewrite Hstrip. split; reflexivity.
Qed.

Lemma import_policy_set_override_witness :
  emits (PolicyOps.importPolicy Examples.tenant "p1"
           (PolicyOps.mkImportOptions true true (Some "constructor")))
    Examples.policyBundle
    (fun evs b' _ =>
       let written :=
         mkPolicy "p1" None "p1" "constructor" "rt1" (Some Examples.condition1) [] in
       calls evs =
         [UpdateResourceType "rt1" (Own [("uuid", JStr "rt1")]);
          UpdatePolicySet Inherited;
          PutPolicy "p1" written;
          UpdateScript (JStr "s1") (Own Examples.script1);
          UpdateScript (JStr "s2") Absent] /\
       b' = PolicyOps.setPolicy "p1" written Examples.policyBundle).
Proof.
  assert (Hnd : NoDup (objectKeys (PolicyOps.policy Examples.policyBundle))).
  { repeat constructor; cbn; intuition discriminate. }
  assert (Hne : "constructor" <> "") by discriminate.
  exact (import_policy_set_override Examples.tenant "p1"
           (PolicyOps.mkImportOptions true true (Some "constructor"))
           Examples.policyBundle Examples.policy1 "constructor" Hnd eq_refl eq_refl Hne).
Defined.
(** ** X3 *)

(** X3: what the bundle that [exportPolicies] or
    [exportPoliciesByPolicySet] returns holds.  It is the bundle assembled
    from the listing: the metadata, the policies listed under their ids,
    and dependency collections that hold what the server answered to the
    reads of the export (a script under the [_id] it came with, its text
    converted with [useStringArrays]), among them every prerequisite and,
    with [deps], every script of every policy.  The keys of its policy
    collection are ids of policies listed; when these ids are distinct,
    every policy listed is found under its id (the id [__proto__] apart,
    which an assignment cannot store); and when, moreover, no id is an
    array index, the collection lists the policies in the order of the
    listing (JavaScript puts array indices first). *)
Theorem policy_batch_export_content :
  (forall (S : Type) state options t (s : S) policies bundle,
     _getPolicies state t = inr policies ->
     snd (PolicyOps.exportPolicies state options (t, s)) = inr bundle ->
     exists evs,
       fst (PolicyOps.exportPolicies state options (t, s)) =
         (t ++ mkEvent GetPolicies None :: evs, s) /\
       policiesExported state options (t ++ [mkEvent GetPolicies None]) evs policies
         bundle) /\
  (forall (S : Type) state policySetName options t (s : S) policies bundle,
     _getPoliciesByPolicySet state t policySetName = inr policies ->
     snd (PolicyOps.exportPoliciesByPolicySet state policySetName options (t, s))
       = inr bundle ->
     exists evs,
       fst (PolicyOps.exportPoliciesByPolicySet state policySetName options (t, s)) =
         (t ++ mkEvent (GetPoliciesByPolicySet policySetName) None :: evs, s) /\
       policiesExported state options
         (t ++ [mkEvent (GetPoliciesByPolicySet policySetName) None]) evs policies
         bundle) /\
  (forall state options t evs policies bundle,
     policiesExported state options t evs policies bundle ->
     NoDup (objectKeys (PolicyOps.policy bundle)) /\
     (forall k, In k (objectKeys (PolicyOps.policy bundle)) ->
                exists p, In p policies /\ policy_id p = k) /\
     (NoDup (map policy_id policies) ->
      (forall p, In p policies -> policy_id p <> "__proto__" ->
                 getProp (policy_id p) (PolicyOps.policy bundle) = Some p) /\
      (Forall (fun p => arrayIndex (policy_id p) = None /\ policy_id p <> "__proto__")
         policies ->
       PolicyOps.policy bundle = map (fun p => (policy_id p, p)) policies))).
Proof.
  split; [| split].
  - intros S state options t s policies bundle Hlist Hout.
    destruct (exported_batch state options (PolicyOps.readPolicies state)
                ("Error exporting " ++ realm state ++ " policies") t s
                (mkEvent GetPolicies None) policies) as [evs [Ht [_ [_ Hb]]]].
    + unfold PolicyOps.readPolicies, tryCatch. now rewrite (remote_ok _ _ _ _ _ Hlist).
    + exists evs. split; [exact Ht | now apply Hb].
  - intros S state policySetName options t s policies bundle Hlist Hout.
    destruct (exported_batch state options
                (PolicyOps.readPoliciesByPolicySet state policySetName)
                ("Error exporting " ++ realm state ++ " policies in set " ++ policySetName)
                t s (mkEvent (GetPoliciesByPolicySet policySetName) None) policies)
      as [evs [Ht [_ [_ Hb]]]].
    + unfold PolicyOps.readPoliciesByPolicySet, tryCatch.
      now rewrite (remote_ok _ _ _ _ _ Hlist).
    + exists evs. split; [exact Ht | now apply Hb].
  - intros state options t evs policies bundle [_ [Hp _]].
    rewrite Hp. unfold storedPolicies. split; [| split].
    + apply (stored_NoDup policy_id (fun p => p)). constructor.
    + intros k Hk. apply (stored_keys policy_id (fun p => p)) in Hk.
      destruct Hk as [[] | H]. exact H.
    + intros Hnd. split.
      * intros p Hin Hne. now apply (stored_found policy_id (fun p => p)).
      * intros Hall. now apply (stored_in_order policy_id (fun p => p) policies []).
Qed.

Lemma policy_batch_export_content_witness :
  exists bundle evs,
    snd (PolicyOps.exportPolicies Examples.tenant
           (PolicyOps.mkExportOptions true true true) ([], tt)) = inr bundle /\
    fst (PolicyOps.exportPolicies Examples.tenant
           (PolicyOps.mkExportOptions true true true) ([], tt)) =
      ([] ++ mkEvent GetPolicies None :: evs, tt) /\
    policiesExported Examples.tenant (PolicyOps.mkExportOptions true true true)
      ([] ++ [mkEvent GetPolicies None]) evs [Examples.policy1; Examples.policy2] bundle.
Proof.
  destruct (snd (PolicyOps.exportPolicies Examples.tenant
                   (PolicyOps.mkExportOptions true true true) ([], tt)))
    as [e | bundle] eqn:Hout.
  { exfalso. vm_compute in Hout. discriminate Hout. }
  destruct (proj1 policy_batch_export_content unit Examples.tenant
              (PolicyOps.mkExportOptions true true true) [] tt
              [Examples.policy1; Examples.policy2] bundle eq_refl Hout)
    as [evs [Ht Hb]].
  exists bundle, evs. split; [reflexivity | split; [exact Ht | exact Hb]].
Defined.

(** X3, the order of the keys: policies listed under the ids b, 10 and 9
    come out under 9, 10 and b. *)
Lemma storedPolicies_indices_first :
  objectKeys
    (storedPolicies
       [mkPolicy "b" None "b" "" "" None [];
        mkPolicy "10" None "ten" "" "" None [];
        mkPolicy "9" None "nine" "" "" None []] []) = ["9"; "10"; "b"].
Proof. vm_compute. reflexivity. Qed.
(** ** X4 *)

(** X4: [exportPolicy] reads the policy first.  If that read fails,
    nothing else is called and the failure is raised wrapped once.
    Otherwise the prerequisites (with [prereqs]) and the scripts (with
    [deps]) are read, all of them whatever fails.  The bundle is returned
    exactly when no read failed, and it is the bundle assembled for that
    one policy: the metadata, the policy under the [_id] it came with, and
    its prerequisites and scripts as the server answered them.  When a read
    failed, the error raised wraps the collected errors, whose leaves are
    the failures logged, twice under the same message. *)
Theorem exportPolicy_outcome :
  forall (S : Type) state policyId options t (s : S),
    let out := PolicyOps.exportPolicy state policyId options (t, s) in
    let message := ("Error exporting " ++ realm state ++ " policy " ++ policyId)%string in
    match _getPolicy state t policyId with
    | inl r =>
        out = ((t ++ [mkEvent (GetPolicy policyId) (Some (Thrown r))], s),
               inl (FrodoError message [Thrown r]))
    | inr policyData =>
        exists evs,
          fst out = (t ++ mkEvent (GetPolicy policyId) None :: evs, s) /\
          calls evs = policyReads options policyData /\
          match snd out with
          | inr bundle =>
              failures evs = [] /\
              policiesExported state options (t ++ [mkEvent (GetPolicy policyId) None]) evs
                [policyData] bundle
          | inl e =>
              failures evs <> [] /\
              exists errors,
                e = FrodoError message [FrodoError message errors] /\
                errors <> [] /\ flat_map leaves errors = failures evs
          end
    end.
Proof.
  intros S state policyId options t s. cbv zeta.
  destruct (_getPolicy state t policyId) as [r | policyData] eqn:Eg;
    unfold PolicyOps.exportPolicy.
  - rewrite (withLocal_remote_fail _ _ _ _ _ _ _ _ Eg). reflexivity.
  - rewrite (withLocal_remote_ok _ _ _ _ _ _ _ _ Eg).
    set (t1 := t ++ [mkEvent (GetPolicy policyId) None]).
    match goal with
    | |- context [withLocal ?i (tryCatch ?m ?h) ?w] =>
        assert (H : runs (withLocal (S := S) i (tryCatch m h)) t1 s
                      (fun evs s' r =>
                         s' = s /\ calls evs = policyReads options policyData /\
                         match r with
                         | inr bundle =>
                             failures evs = [] /\
                             policiesExported state options t1 evs [policyData] bundle
                         | inl e =>
                             failures evs <> [] /\
                             exists errors,
                               e = FrodoError
                                     ("Error exporting " ++ realm state ++ " policy "
                                      ++ policyId)
                                     [FrodoError
                                        ("Error exporting " ++ realm state ++ " policy "
                                         ++ policyId) errors] /\
                               errors <> [] /\ flat_map leaves errors = failures evs
                         end))
    end.
    { rstep. rstep. rstep. rstep. cbn [app]. rewrite app_nil_r.
      set (b0 := PolicyOps.setPolicy (policy_id policyData) policyData
                   (PolicyOps.createPolicyExportTemplate state)).
      rstep.
      eapply runs_mono;
        [apply (PolicyExportContent.attempted_prerequisites_runs state options policyData
                  t1 b0) |].
      intros evs1 b1 r1 [e1 [-> [Ha1 [Hc1 [Hp1 [Hx1 Hs1]]]]]]. rstep.
      eapply runs_mono;
        [apply (PolicyExportContent.attempted_dependencies_runs state options policyData
                  (t1 ++ evs1) b1) |].
      intros evs2 b2 r2 [e2 [-> [Ha2 [Hc2 [Hp2 [Hx2 Hs2]]]]]].
      assert (Ha : accounts (e1 ++ e2) (evs1 ++ evs2)) by now apply accounts_app.
      assert (Hc : calls (evs1 ++ evs2) = policyReads options policyData).
      { rewrite calls_app, Hc1, Hc2. reflexivity. }
      destruct (nonEmpty (e1 ++ e2)) eqn:E.
      - rstep. rewrite app_nil_r. rstep. rewrite app_nil_r.
        apply nonEmpty_true in E.
        split; [reflexivity | split; [exact Hc | split]].
        + intros Hf. apply Ha in Hf. contradiction.
        + exists (e1 ++ e2). split; [reflexivity | split; [exact E | apply Ha]].
      - rstep. rewrite app_nil_r. apply nonEmpty_false in E.
        assert (Hf : failures (evs1 ++ evs2) = []) by now apply Ha.
        split; [reflexivity | split; [exact Hc | split; [exact Hf |]]].
        assert (Hf12 : failures evs1 = [] /\ failures evs2 = []).
        { rewrite failures_app in Hf. now apply app_eq_nil in Hf. }
        destruct Hf12 as [Hf1 Hf2].
        assert (Hx : extended state options t1 (evs1 ++ evs2) b0 b2)
          by now apply (PolicyExportContent.extended_trans _ _ _ _ _ _ b1).
        destruct Hx as [Hm [_ [_ [_ [Hfr [Hfp Hfs]]]]]].
        split; [exact Hm |]. split; [now rewrite Hp2, Hp1 |].
        split; [| split; [| split; [| split]]].
        + intros k v Hk. destruct (Hfr k v Hk) as [H0 | H0]; [discriminate | exact H0].
        + intros k v Hk. destruct (Hfp k v Hk) as [H0 | H0]; [discriminate | exact H0].
        + intros k v Hk. destruct (Hfs k v Hk) as [H0 | H0]; [discriminate | exact H0].
        + intros Hpre. constructor; [| constructor].
          apply (PolicyExportContent.prerequisitesStored_extended _ _ _ _ _ _ _ Hx2).
          now apply Hs1.
        + intros Hdeps. constructor; [| constructor].
          intros id Hid. destruct (Hs2 Hf2 Hdeps id Hid) as [a [Hans Hst]].
          exists a. split; [now apply answered_app_l | exact Hst]. }
    destruct H as [evs [Ht [Hs Hrest]]].
    exists evs. split; [| exact Hrest].
    apply injective_projections; cbn [fst snd]; [| exact Hs].
    rewrite Ht. unfold t1. rewrite <- app_assoc. reflexivity.
Qed.

(** X4, on a tenant that has no policy: the read fails, and its failure is
    raised wrapped once. *)
Lemma exportPolicy_read_fails :
  snd (PolicyOps.exportPolicy
         (Examples.tenantWith (fun _ _ c => inr c) (fun _ => inr [])
            (fun _ _ => inl Examples.serverError) (fun _ _ p => inr p) (fun _ => inr []))
         "p2" (PolicyOps.mkExportOptions true true true) ([], tt)) =
  inl (FrodoError "Error exporting alpha realm policy p2"
         [Thrown (Examples.rejection "Not Found")]).
Proof. vm_compute. reflexivity. Qed.
(** ** X5 *)

(** X5: the three client import functions, by what they visit.
    [importOAuth2Client] makes no call and raises "<realm> oauth2 client
    <id> not found in import data!" when no key matches, and otherwise
    visits that entry only; [importFirstOAuth2Client] visits the first
    entry only and raises "No oauth2 clients found in import data!" on an
    empty collection; [importOAuth2Clients] visits every entry, in order,
    whatever fails.  A visit strips the entry, writes its scripts (with
    [deps]) and then, if none of these writes failed, runs
    [updateOAuth2Client] on it.  The result is the answer of the last write
    of the client (for [importOAuth2Clients]: these answers, in order, if
    every visit ended with one), and otherwise the error of the visit (the
    errors of the visits that failed), wrapped once more. *)
Theorem client_import_selectors :
  (forall state clientId options t b,
     NoDup (objectKeys (OAuth2ClientOps.application b)) ->
     runs (OAuth2ClientOps.importOAuth2Client state clientId options) t b
       (fun evs b' r =>
          match getProp clientId (OAuth2ClientOps.application b) with
          | None =>
              evs = [] /\ b' = b /\
              r = inl (FrodoError
                         (realm state ++ " oauth2 client " ++ clientId
                          ++ " not found in import data!")
                         [])
          | Some entry =>
              exists c' x,
                b' = OAuth2ClientOps.setApplication clientId c' b /\
                ClientEntryImported state options b t clientId entry evs c' x /\
                r = selectedResult
                      ("Error importing " ++ realm state ++ " oauth2 client " ++ clientId) x
          end)) /\
  (forall state options t b,
     runs (OAuth2ClientOps.importFirstOAuth2Client state options) t b
       (fun evs b' r =>
          match OAuth2ClientOps.application b with
          | [] =>
              evs = [] /\ b' = b /\
              r = inl (FrodoError "No oauth2 clients found in import data!" [])
          | (id, entry) :: _ =>
              exists c' x,
                b' = OAuth2ClientOps.setApplication id c' b /\
                ClientEntryImported state options b t id entry evs c' x /\
                r = selectedResult
                      ("Error importing first " ++ realm state ++ " oauth2 client") x
          end)) /\
  (forall state options t b,
     NoDup (objectKeys (OAuth2ClientOps.application b)) ->
     runs (OAuth2ClientOps.importOAuth2Clients state options) t b
       (fun evs b' r =>
          exists visits,
            ClientsImported state options b t (OAuth2ClientOps.application b) visits /\
            evs = flat_map visit_events visits /\
            b' = OAuth2ClientOps.mkExport (OAuth2ClientOps.meta b) (OAuth2ClientOps.script b)
                   (visitedEntries (OAuth2ClientOps.application b) visits) /\
            r = match visitErrors visits with
                | [] => inr (visitResponses visits)
                | errors =>
                    inl (FrodoError ("Error importing " ++ realm state ++ " oauth2 clients")
                           errors)
                end)) /\
  (forall state options b t entries visits,
     ClientsImported state options b t entries visits ->
     List.length visits = List.length entries).
Proof.
  split; [| split; [| split]].
  - intros state clientId options t b Hnd.
    now apply OAuth2ImportFacts.importOAuth2Client_runs.
  - intros state options t b. apply OAuth2ImportFacts.importFirstOAuth2Client_runs.
  - intros state options t b Hnd. now apply OAuth2ImportFacts.importOAuth2Clients_runs.
  - intros state options b t entries. revert t.
    induction entries as [| [k entry] entries IH]; intros t [| v visits] H;
      cbn [ClientsImported] in H; try contradiction; [reflexivity |].
    destruct H as [_ H]. cbn [List.length]. f_equal. now apply (IH _ _ H).
Qed.

Lemma client_import_selectors_witness :
  NoDup (objectKeys (OAuth2ClientOps.application Examples.clientBundle)) /\
  runs (OAuth2ClientOps.importOAuth2Clients Examples.tenantRejectingTwice
          (OAuth2ClientOps.mkImportOptions true))
    [] Examples.clientBundle
    (fun evs b' r =>
       exists visits,
         ClientsImported Examples.tenantRejectingTwice (OAuth2ClientOps.mkImportOptions true)
           Examples.clientBundle [] [("c1", Examples.client1)] visits /\
         evs = flat_map visit_events visits /\
         b' = OAuth2ClientOps.mkExport None (Some [("s1", Examples.script1)])
                (visitedEntries [("c1", Examples.client1)] visits) /\
         r = match visitErrors visits with
             | [] => inr (visitResponses visits)
             | errors => inl (FrodoError "Error importing alpha realm oauth2 clients" errors)
             end).
Proof.
  assert (Hnd : NoDup (objectKeys (OAuth2ClientOps.application Examples.clientBundle))).
  { repeat constructor; cbn; intuition discriminate. }
  split; [exact Hnd |].
  exact (proj1 (proj2 (proj2 client_import_selectors)) Examples.tenantRejectingTwice
           (OAuth2ClientOps.mkImportOptions true) [] Examples.clientBundle Hnd).
Defined.

(** X5, on a tenant that rejects the first write of a client for an invalid
    attribute and the second for another reason: the script is written,
    the client twice, and the failure of the retry is raised. *)
Lemma importOAuth2Clients_repair_rejected :
  let out := OAuth2ClientOps.importOAuth2Clients Examples.tenantRejectingTwice
               (OAuth2ClientOps.mkImportOptions false) ([], Examples.clientBundle) in
  calls (fst (fst out)) =
    [PutOAuth2Client "c1" (OAuth2ClientOps.stripClient Examples.client1);
     PutOAuth2Client "c1"
       (repairedClient ["clientName"] (OAuth2ClientOps.stripClient Examples.client1))] /\
  snd out =
    inl (FrodoError "Error importing alpha realm oauth2 clients"
           [FrodoError "Error updating alpha realm oauth2 client c1"
              [Thrown Examples.serverError]]).
Proof. vm_compute. split; reflexivity. Qed.
(** ** X6 *)

(** X6: what the bundle that [exportOAuth2Clients] returns holds.  It is
    the bundle assembled from the listing: the metadata, the clients listed
    under their ids with the provider attached as [_provider], and a script
    collection that holds, under the property keys of script references of
    these clients, what the server answered to the reads of them (its text
    converted with [useStringArrays]); it is empty without [deps], and with
    [deps] every reference is found in it, unless its read failed (with the
    tolerated signal).  The keys of its client collection are ids of
    clients listed; when these ids are distinct, every client listed is
    found under its id (the id [__proto__] apart); and when, moreover, no id
    is an array index, the collection lists the clients in the order of the
    listing. *)
Theorem client_batch_export_content :
  (forall (S : Type) state options t (s : S) provider clients bundle,
     readOAuth2Provider state t = inr provider ->
     listedClients state (t ++ [mkEvent ReadOAuth2Provider None]) = Some clients ->
     snd (OAuth2ClientOps.exportOAuth2Clients state options (t, s)) = inr bundle ->
     exists evs,
       let t1 := t ++ [mkEvent ReadOAuth2Provider None] in
       let t2 := t1 ++ [listingEvent state t1] in
       fst (OAuth2ClientOps.exportOAuth2Clients state options (t, s)) = (t2 ++ evs, s) /\
       tolerated state evs /\
       clientsExported state options provider t2 evs clients bundle) /\
  (forall state options provider t evs clients bundle,
     clientsExported state options provider t evs clients bundle ->
     NoDup (objectKeys (OAuth2ClientOps.application bundle)) /\
     (forall k, In k (objectKeys (OAuth2ClientOps.application bundle)) ->
                exists c, In c clients /\ client_id c = k) /\
     (NoDup (map client_id clients) ->
      (forall c, In c clients -> client_id c <> "__proto__" ->
                 getProp (client_id c) (OAuth2ClientOps.application bundle) =
                   Some (withProvider provider c)) /\
      (Forall (fun c => arrayIndex (client_id c) = None /\ client_id c <> "__proto__")
         clients ->
       OAuth2ClientOps.application bundle =
         map (fun c => (client_id c, withProvider provider c)) clients))).
Proof.
  split.
  - intros S state options t s provider clients bundle Hprovider Hlisted Hout.
    destruct (exported_clients state options t s provider clients Hprovider Hlisted)
      as [evs [Ht [_ [_ Hb]]]].
    cbv zeta in Hb, Ht. rewrite Hout in Hb. exists evs. cbv zeta.
    split; [exact Ht | exact Hb].
  - intros state options provider t evs clients bundle [_ [Ha _]].
    rewrite Ha. unfold storedClients. split; [| split].
    + apply (stored_NoDup client_id (withProvider provider)). constructor.
    + intros k Hk. apply (stored_keys client_id (withProvider provider)) in Hk.
      destruct Hk as [[] | H]. exact H.
    + intros Hnd. split.
      * intros c Hin Hne. now apply (stored_found client_id (withProvider provider)).
      * intros Hall.
        now apply (stored_in_order client_id (withProvider provider) clients []).
Qed.

Lemma client_batch_export_content_witness :
  exists bundle evs,
    snd (OAuth2ClientOps.exportOAuth2Clients Examples.tenantWithoutScripts
           (OAuth2ClientOps.mkExportOptions true true) ([], tt)) = inr bundle /\
    let t1 := [] ++ [mkEvent ReadOAuth2Provider None] in
    let t2 := t1 ++ [listingEvent Examples.tenantWithoutScripts t1] in
    fst (OAuth2ClientOps.exportOAuth2Clients Examples.tenantWithoutScripts
           (OAuth2ClientOps.mkExportOptions true true) ([], tt)) = (t2 ++ evs, tt) /\
    tolerated Examples.tenantWithoutScripts evs /\
    clientsExported Examples.tenantWithoutScripts
      (OAuth2ClientOps.mkExportOptions true true) (JObj []) t2 evs [Examples.client1]
      bundle.
Proof.
  destruct (snd (OAuth2ClientOps.exportOAuth2Clients Examples.tenantWithoutScripts
                   (OAuth2ClientOps.mkExportOptions true true) ([], tt)))
    as [e | bundle] eqn:Hout.
  { exfalso. vm_compute in Hout. discriminate Hout. }
  destruct (proj1 client_batch_export_content unit Examples.tenantWithoutScripts
              (OAuth2ClientOps.mkExportOptions true true) [] tt (JObj [])
              [Examples.client1] bundle eq_refl eq_refl Hout)
    as [evs H].
  exists bundle, evs. split; [reflexivity | exact H].
Defined.
(** ** X7 *)


